(** * Admission and broadcast relay server (server.py): model and properties

    The server of this repository admits TCP clients under operator control
    and relays text or raw audio between the admitted ones.  This file embeds
    its functions ([broadcast_message], [broadcast_audio], [_disconnect_conn],
    [handle_accepted_client], [handle_new_connection], [operator_cli]) as
    state-passing functions over an explicit server state, and proves
    properties of them.

    Layout: module [Py] models the Python builtins the server calls on text
    and bytes; module [Server] holds the state, the effect monad and the
    server's functions; module [Client] holds the decisions the client
    (unified_client.py) takes on what it types and receives; the lemmas
    follow. *)

From Stdlib Require Import ZArith NArith List String Ascii Bool Lia.
From Stdlib Require Import DecimalString.
From Stdlib Require DecimalPos.
Import ListNotations.

Set Implicit Arguments.

(* ===================================================================== *)
(** ** Python text and bytes *)
(* ===================================================================== *)

Module Py.

(** A Python [str] is a sequence of Unicode code points; a [bytes] object is
    a sequence of 8-bit values, which is what Rocq's [string] is. *)
Definition str := list N.
Definition bytes := string.

(** An ASCII literal of the source, as a [str]. *)
Definition lit (s : string) : str := map N_of_ascii (list_ascii_of_string s).

Fixpoint str_eqb (a b : str) : bool :=
  match a, b with
  | [], [] => true
  | x :: a', y :: b' => N.eqb x y && str_eqb a' b'
  | _, _ => false
  end.

(** [str.encode()]: UTF-8.  (The strict encoder raises on a surrogate,
    U+D800..U+DFFF; the strings the server encodes are literals, decimal
    numbers and text that came out of [decode_ignore], which never yields
    one, so the three-byte form is written for every code point below
    U+10000.) *)
Definition encode_cp (c : N) : list ascii :=
  if (c <? 0x80)%N then [ascii_of_N c]
  else if (c <? 0x800)%N then
    [ascii_of_N (0xC0 + c / 64); ascii_of_N (0x80 + c mod 64)]
  else if (c <? 0x10000)%N then
    [ascii_of_N (0xE0 + c / 4096); ascii_of_N (0x80 + (c / 64) mod 64);
     ascii_of_N (0x80 + c mod 64)]
  else
    [ascii_of_N (0xF0 + c / 262144); ascii_of_N (0x80 + (c / 4096) mod 64);
     ascii_of_N (0x80 + (c / 64) mod 64); ascii_of_N (0x80 + c mod 64)].

Definition encode (s : str) : bytes :=
  string_of_list_ascii (flat_map encode_cp s).

(** [bytes.decode(errors='ignore')]: UTF-8 where every malformed sequence is
    dropped.  As in CPython's decoder, an invalid start byte drops one byte,
    an invalid continuation drops the bytes of the sequence read so far, and
    a sequence cut short by the end of the data drops the rest. *)
Definition is_cont (b : N) : bool := ((0x80 <=? b) && (b <? 0xC0))%N.

Fixpoint utf8_ignore (bs : list N) : str :=
  match bs with
  | [] => []
  | b1 :: t1 =>
    if (b1 <? 0x80)%N then b1 :: utf8_ignore t1
    else if (b1 <? 0xC2)%N then utf8_ignore t1
    else if (b1 <? 0xE0)%N then
      match t1 with
      | [] => []
      | b2 :: t2 =>
        if is_cont b2
        then ((b1 - 0xC0) * 64 + (b2 - 0x80))%N :: utf8_ignore t2
        else utf8_ignore t1
      end
    else if (b1 <? 0xF0)%N then
      match t1 with
      | [] => []
      | b2 :: t2 =>
        if negb (is_cont b2)
           || (if (b2 <? 0xA0)%N then (b1 =? 0xE0)%N else (b1 =? 0xED)%N)
        then utf8_ignore t1
        else
          match t2 with
          | [] => []
          | b3 :: t3 =>
            if is_cont b3
            then ((b1 - 0xE0) * 4096 + (b2 - 0x80) * 64 + (b3 - 0x80))%N
                   :: utf8_ignore t3
            else utf8_ignore t2
          end
      end
    else if (b1 <? 0xF5)%N then
      match t1 with
      | [] => []
      | b2 :: t2 =>
        if negb (is_cont b2)
           || (if (b2 <? 0x90)%N then (b1 =? 0xF0)%N else (b1 =? 0xF4)%N)
        then utf8_ignore t1
        else
          match t2 with
          | [] => []
          | b3 :: t3 =>
            if negb (is_cont b3) then utf8_ignore t2
            else
              match t3 with
              | [] => []
              | b4 :: t4 =>
                if is_cont b4
                then ((b1 - 0xF0) * 262144 + (b2 - 0x80) * 4096
                      + (b3 - 0x80) * 64 + (b4 - 0x80))%N :: utf8_ignore t4
                else utf8_ignore t3
              end
          end
      end
    else utf8_ignore t1
  end.

Definition decode_ignore (b : bytes) : str :=
  utf8_ignore (map N_of_ascii (list_ascii_of_string b)).

Arguments decode_ignore b%_string.

(** [len(data)] of a bytes object. *)
Definition len (b : bytes) : nat := String.length b.

(** [str.isspace] for one code point: the characters [str.strip()] removes. *)
Definition isspace (c : N) : bool :=
  ((0x09 <=? c) && (c <=? 0x0D) || (0x1C <=? c) && (c <=? 0x20)
   || (c =? 0x85) || (c =? 0xA0) || (c =? 0x1680)
   || (0x2000 <=? c) && (c <=? 0x200A)
   || (c =? 0x2028) || (c =? 0x2029) || (c =? 0x202F) || (c =? 0x205F)
   || (c =? 0x3000))%N.

Fixpoint lstrip (s : str) : str :=
  match s with
  | [] => []
  | c :: t => if isspace c then lstrip t else s
  end.

Definition rstrip (s : str) : str := rev (lstrip (rev s)).

(** [s.strip()] *)
Definition strip (s : str) : str := rstrip (lstrip s).

(** [s.lower()].  ASCII capitals, the Kelvin sign (to [k]) and the dotted
    capital I (to [i] and a combining dot) are the only characters whose
    lowercase form contains an ASCII character; every other capital maps to a
    non-ASCII letter.  The server only compares lowered text with ASCII
    literals, so the remaining characters are kept as they are. *)
Definition lower_cp (c : N) : list N :=
  if ((0x41 <=? c) && (c <=? 0x5A))%N then [(c + 32)%N]
  else if (c =? 0x212A)%N then [0x6B%N]
  else if (c =? 0x130)%N then [0x69%N; 0x307%N]
  else [c].

Definition lower (s : str) : str := flat_map lower_cp s.

(** [s.startswith(prefix)] *)
Fixpoint startswith (prefix s : str) : bool :=
  match prefix, s with
  | [], _ => true
  | p :: prefix', c :: s' => N.eqb p c && startswith prefix' s'
  | _ :: _, [] => false
  end.

(** [s[n:]] *)
Definition slice_from (n : nat) (s : str) : str := skipn n s.

(** [str(i)] / [f"{i}"] for an integer. *)
Definition str_of_int (z : Z) : str := lit (NilZero.string_of_int (Z.to_int z)).

(** [sep.join(parts)] *)
Fixpoint join (sep : str) (parts : list str) : str :=
  match parts with
  | [] => []
  | [p] => p
  | p :: rest => p ++ sep ++ join sep rest
  end.

(** [s.split(" ", 1)]: the text before the first space, and the text after
    it when there is a space. *)
Fixpoint split_once (s : str) : str * option str :=
  match s with
  | [] => ([], None)
  | c :: t =>
    if (c =? 0x20)%N then ([], Some t)
    else let (a, b) := split_once t in (c :: a, b)
  end.

(** [int(s)] in base 10: surrounding whitespace, an optional sign, then
    decimal digits, single underscores allowed between digits.  [None] is a
    [ValueError].  (Python also reads non-ASCII decimal digits; here they are
    a [ValueError].) *)
Definition is_digit (c : N) : bool := ((0x30 <=? c) && (c <=? 0x39))%N.

Fixpoint digits (acc : Z) (prev_digit : bool) (s : str) : option Z :=
  match s with
  | [] => if prev_digit then Some acc else None
  | c :: t =>
    if is_digit c then digits (acc * 10 + Z.of_N (c - 0x30)) true t
    else if (c =? 0x5F)%N && prev_digit then digits acc false t
    else None
  end.

Definition int (s : str) : option Z :=
  match strip s with
  | 0x2B%N :: t => digits 0 false t
  | 0x2D%N :: t => option_map Z.opp (digits 0 false t)
  | t => digits 0 false t
  end.

(** A code point the strict UTF-8 encoder takes: below U+110000 and not a
    surrogate. *)
Definition is_surrogate (c : N) : bool := ((0xD800 <=? c) && (c <? 0xE000))%N.
Definition is_scalar (c : N) : bool := ((c <? 0x110000) && negb (is_surrogate c))%N.

(** [s.encode()] with its exception: [None] is the [UnicodeEncodeError] a
    surrogate raises. *)
Definition encode_strict (s : str) : option bytes :=
  if existsb is_surrogate s then None else Some (encode s).

(** The limit CPython (3.11 on) puts on the digits of a decimal string it
    converts to or from an integer ([sys.int_info.default_max_str_digits]);
    [str(i)] and [int(s)] raise [ValueError] beyond it.  The counters and
    ids of the server stay far below it. *)
Definition max_str_digits : nat := 4300.

Definition count_digits (s : str) : nat := List.length (filter is_digit s).

(** [str(i)] and [int(s)] with that exception ([None]). *)
Definition str_of_int_strict (z : Z) : option str :=
  if (max_str_digits <? count_digits (str_of_int z))%nat then None
  else Some (str_of_int z).

Definition int_strict (s : str) : option Z :=
  if (max_str_digits <? count_digits s)%nat then None else int s.

(** [s.split(":", 1)[1]] for a string with a colon in it: the text after
    the first colon. *)
Fixpoint after_colon (s : str) : str :=
  match s with
  | [] => []
  | c :: t => if (c =? 0x3A)%N then t else after_colon t
  end.

End Py.


(* ===================================================================== *)
(** ** The server: state, effects and functions *)
(* ===================================================================== *)

Module Server.
Import Py.

(** *** Data *)

(** A connection object ([conn]); the number is the object's identity. *)
Definition conn := nat.

(** [addr], the pair [(ip, port)] the transport reports. *)
Record address := { host : str; port : Z }.

(** [MODE]: "MESSAGING" or "VOICE". *)
Inductive mode := MESSAGING | VOICE.

Definition mode_name (m : mode) : str :=
  match m with MESSAGING => lit "MESSAGING" | VOICE => lit "VOICE" end.

(** A value of [clients]: [{"id": int, "name": str, "addr": (ip, port)}]. *)
Record user := { u_id : Z; u_name : str; u_addr : address }.

(** A value of [pending]: [{"conn", "name", "addr", "event", "decision"}].
    The [threading.Event] of entry [pid] is shared between the entry and the
    handshake thread that waits on it, so whether it is set is kept in the
    state ([events_set]) under [pid], where clearing the table does not
    reach it. *)
Record pinfo :=
  { p_conn : conn; p_name : str; p_addr : address; p_decision : option bool }.

(** A Python [dict] with its insertion order: the server iterates over
    [clients] and [pending] in that order. *)
Section Dict.
Variables (K V : Type) (eqb : K -> K -> bool).

Definition dict := list (K * V).

Fixpoint dict_get (k : K) (d : dict) : option V :=
  match d with
  | [] => None
  | (k', v) :: d' => if eqb k k' then Some v else dict_get k d'
  end.

(** [d[k] = v]: replaces the value of a present key in its place, adds a
    new key at the end. *)
Fixpoint dict_set (k : K) (v : V) (d : dict) : dict :=
  match d with
  | [] => [(k, v)]
  | (k', v') :: d' =>
    if eqb k k' then (k, v) :: d' else (k', v') :: dict_set k v d'
  end.

(** The table after [d.pop(k)]. *)
Fixpoint dict_del (k : K) (d : dict) : dict :=
  match d with
  | [] => []
  | (k', v) :: d' => if eqb k k' then d' else (k', v) :: dict_del k d'
  end.

Definition dict_keys (d : dict) : list K := map fst d.
Definition dict_values (d : dict) : list V := map snd d.
End Dict.

Inductive lock := ClientsLock | PendingLock.

(** What a thread that cannot go on is waiting for. *)
Inductive wait := OnLock (l : lock) | OnEvent (pid : Z).

(** What one [conn.recv] gives: data (empty when the peer has closed), or one
    of the exceptions the server distinguishes. *)
Inductive recv_result :=
| RecvData (data : bytes)
| RecvTimeout
| RecvReset
| RecvError.

Arguments RecvData data%_string.

(** The effects of the server, in the order they happen. *)
Inductive event :=
| Acquire (l : lock)
| Release (l : lock)
| Sendall (c : conn) (data : bytes) (ok : bool)
| Close (c : conn)
| CloseServerSock
| Print (line : str).

Arguments Sendall c data%_string ok.

(** The module's globals, the sockets' condition and the log of effects.
    [clients_lock] and [pending_lock] say whether the lock is taken;
    [closed] are the connections the server has closed; [peer_down] are the
    connections whose peer is gone, so that a send on them raises. *)
Record state := {
  clients : dict conn user;
  next_user_id : Z;
  pending : dict Z pinfo;
  next_pending_id : Z;
  running : bool;
  MODE : mode;
  clients_lock : bool;
  pending_lock : bool;
  events_set : list Z;
  closed : list conn;
  peer_down : list conn;
  trace : list event
}.

Definition init_state (m : mode) : state :=
  {| clients := []; next_user_id := 1; pending := []; next_pending_id := 1;
     running := true; MODE := m; clients_lock := false; pending_lock := false;
     events_set := []; closed := []; peer_down := []; trace := [] |}.

Definition set_clients (v : dict conn user) (s : state) : state :=
  {| clients := v; next_user_id := next_user_id s; pending := pending s;
     next_pending_id := next_pending_id s; running := running s;
     MODE := MODE s; clients_lock := clients_lock s;
     pending_lock := pending_lock s; events_set := events_set s;
     closed := closed s; peer_down := peer_down s; trace := trace s |}.

Definition set_next_user_id (v : Z) (s : state) : state :=
  {| clients := clients s; next_user_id := v; pending := pending s;
     next_pending_id := next_pending_id s; running := running s;
     MODE := MODE s; clients_lock := clients_lock s;
     pending_lock := pending_lock s; events_set := events_set s;
     closed := closed s; peer_down := peer_down s; trace := trace s |}.

Definition set_pending (v : dict Z pinfo) (s : state) : state :=
  {| clients := clients s; next_user_id := next_user_id s; pending := v;
     next_pending_id := next_pending_id s; running := running s;
     MODE := MODE s; clients_lock := clients_lock s;
     pending_lock := pending_lock s; events_set := events_set s;
     closed := closed s; peer_down := peer_down s; trace := trace s |}.

Definition set_next_pending_id (v : Z) (s : state) : state :=
  {| clients := clients s; next_user_id := next_user_id s;
     pending := pending s; next_pending_id := v; running := running s;
     MODE := MODE s; clients_lock := clients_lock s;
     pending_lock := pending_lock s; events_set := events_set s;
     closed := closed s; peer_down := peer_down s; trace := trace s |}.

Definition set_running (v : bool) (s : state) : state :=
  {| clients := clients s; next_user_id := next_user_id s;
     pending := pending s; next_pending_id := next_pending_id s;
     running := v; MODE := MODE s; clients_lock := clients_lock s;
     pending_lock := pending_lock s; events_set := events_set s;
     closed := closed s; peer_down := peer_down s; trace := trace s |}.

Definition set_lock (l : lock) (v : bool) (s : state) : state :=
  {| clients := clients s; next_user_id := next_user_id s;
     pending := pending s; next_pending_id := next_pending_id s;
     running := running s; MODE := MODE s;
     clients_lock := match l with ClientsLock => v | _ => clients_lock s end;
     pending_lock := match l with PendingLock => v | _ => pending_lock s end;
     events_set := events_set s;
     closed := closed s; peer_down := peer_down s; trace := trace s |}.

Definition set_events_set (v : list Z) (s : state) : state :=
  {| clients := clients s; next_user_id := next_user_id s;
     pending := pending s; next_pending_id := next_pending_id s;
     running := running s; MODE := MODE s; clients_lock := clients_lock s;
     pending_lock := pending_lock s; events_set := v;
     closed := closed s; peer_down := peer_down s; trace := trace s |}.

Definition set_closed (v : list conn) (s : state) : state :=
  {| clients := clients s; next_user_id := next_user_id s;
     pending := pending s; next_pending_id := next_pending_id s;
     running := running s; MODE := MODE s; clients_lock := clients_lock s;
     pending_lock := pending_lock s; events_set := events_set s;
     closed := v; peer_down := peer_down s; trace := trace s |}.

Definition set_peer_down (v : list conn) (s : state) : state :=
  {| clients := clients s; next_user_id := next_user_id s;
     pending := pending s; next_pending_id := next_pending_id s;
     running := running s; MODE := MODE s; clients_lock := clients_lock s;
     pending_lock := pending_lock s; events_set := events_set s;
     closed := closed s; peer_down := v; trace := trace s |}.

Definition log (e : event) (s : state) : state :=
  {| clients := clients s; next_user_id := next_user_id s;
     pending := pending s; next_pending_id := next_pending_id s;
     running := running s; MODE := MODE s; clients_lock := clients_lock s;
     pending_lock := pending_lock s; events_set := events_set s;
     closed := closed s; peer_down := peer_down s;
     trace := trace s ++ [e] |}.

Definition held (l : lock) (s : state) : bool :=
  match l with ClientsLock => clients_lock s | PendingLock => pending_lock s end.

Definition mem_conn (c : conn) (l : list conn) : bool := existsb (Nat.eqb c) l.
Definition mem_pid (p : Z) (l : list Z) : bool := existsb (Z.eqb p) l.
Arguments mem_pid p%_Z l%_Z.

(** *** Effects

    A function of the server runs from a state to a result: it returns
    ([Done]), or it stops for good at a wait nobody will end ([Blocked]: a
    [threading.Lock] is not re-entrant, so taking a lock that is taken never
    returns when the holder is the thread itself or a thread that is itself
    stuck; an [Event] that is not set keeps its waiter).  [OutOfFuel] is the
    depth bound of the mutual recursion between [broadcast_message] and
    [_disconnect_conn]; [broadcast_message_at_depth] shows that it is never
    met. *)
Inductive result (A : Type) : Type :=
| Done (a : A) (s : state)
| Blocked (w : wait) (s : state)
| OutOfFuel (s : state).
Arguments Blocked {A} w s.
Arguments OutOfFuel {A} s.

Definition M (A : Type) : Type := state -> result A.

Definition ret {A} (a : A) : M A := fun s => Done a s.

Definition bind {A B} (m : M A) (k : A -> M B) : M B :=
  fun s =>
    match m s with
    | Done a s' => k a s'
    | Blocked w s' => Blocked w s'
    | OutOfFuel s' => OutOfFuel s'
    end.

Declare Scope server_scope.
Delimit Scope server_scope with server.
Notation "x <- c ;; k" := (bind c (fun x => k))
  (at level 61, c at next level, right associativity) : server_scope.
Notation "c ;; k" := (bind c (fun _ => k))
  (at level 61, right associativity) : server_scope.
Local Open Scope server_scope.

(** The state a run ends in, whatever its outcome. *)
Definition final {A} (r : result A) : state :=
  match r with Done _ s => s | Blocked _ s => s | OutOfFuel s => s end.

Definition gets {A} (f : state -> A) : M A := fun s => Done (f s) s.
Definition modify (f : state -> state) : M unit := fun s => Done tt (f s).
Definition out_of_fuel {A} : M A := fun s => OutOfFuel s.

(** [lock.acquire()] / [lock.release()], and [with lock: body]. *)
Definition acquire (l : lock) : M unit :=
  fun s =>
    if held l s then Blocked (OnLock l) s
    else Done tt (log (Acquire l) (set_lock l true s)).

Definition release (l : lock) : M unit :=
  modify (fun s => log (Release l) (set_lock l false s)).

Definition with_lock {A} (l : lock) (body : M A) : M A :=
  acquire l ;; x <- body ;; release l ;; ret x.

(** [conn.sendall(data)] inside [try]: [true] when it returned, [false] when
    it raised (the socket is closed, or the peer is gone). *)
Definition send_ok (c : conn) (s : state) : bool :=
  negb (mem_conn c (closed s)) && negb (mem_conn c (peer_down s)).

Definition sendall (c : conn) (data : bytes) : M bool :=
  fun s => Done (send_ok c s) (log (Sendall c data (send_ok c s)) s).

Arguments sendall c data%_string _.

(** [conn.close()] inside [try]. *)
Definition close (c : conn) : M unit :=
  modify (fun s => log (Close c) (set_closed (c :: closed s) s)).

Definition print (line : str) : M unit := modify (log (Print line)).

(** [ev.wait()] on the event of pending entry [pid]. *)
Definition event_wait (pid : Z) : M unit :=
  fun s => if mem_pid pid (events_set s) then Done tt s else Blocked (OnEvent pid) s.

(** [pending[pid]["event"].set()] *)
Definition event_set (pid : Z) : M unit :=
  modify (fun s => set_events_set (pid :: events_set s) s).

(** [for x in l: body(x)] *)
Fixpoint for_each {A} (l : list A) (body : A -> M unit) : M unit :=
  match l with
  | [] => ret tt
  | x :: rest => body x ;; for_each rest body
  end.

Inductive loop_ctl := Break | Continue.

(** *** Text of the notices *)

(** [f"{addr}"]: the [repr] of the pair, the host between single quotes. *)
Definition repr_addr (a : address) : str :=
  lit "('" ++ host a ++ lit "', " ++ str_of_int (port a) ++ lit ")".

Definition left_notice (u : user) : str :=
  lit "[Server]: " ++ u_name u ++ lit " (ID:" ++ str_of_int (u_id u)
    ++ lit ") has left the session.".

Definition joined_call_notice (name : str) (user_id : Z) : str :=
  lit "[Server]: " ++ name ++ lit " (ID:" ++ str_of_int user_id
    ++ lit ") joined the call.".

Definition user_joined_notice (name : str) (user_id : Z) : str :=
  lit "[Server] User joined -> ID:" ++ str_of_int user_id ++ lit ", Name:"
    ++ name.

Definition welcome (name : str) (user_id : Z) : str :=
  lit "Welcome " ++ name ++ lit "! Your ID is " ++ str_of_int user_id.

(** [f"{u['id']}|{u['name']}"] *)
Definition user_entry (u : user) : str :=
  str_of_int (u_id u) ++ lit "|" ++ u_name u.

(** ["[USERS] " + ",".join(users)] *)
Definition users_msg (us : list user) : str :=
  lit "[USERS] " ++ join (lit ",") (map user_entry us).

(** *** broadcast_message, broadcast_audio, _disconnect_conn *)

Definition is_excluded (c : conn) (exclude_conn : option conn) : bool :=
  match exclude_conn with Some e => Nat.eqb c e | None => false end.

(** The loop the two broadcast functions share: under [clients_lock], over a
    copy of the keys, send to every connection but [exclude_conn]; a send
    that raises calls [_disconnect_conn] (here [disconnect]). *)
Definition fan_body (disconnect : conn -> M unit) (payload : bytes)
    (exclude_conn : option conn) (c : conn) : M unit :=
  if is_excluded c exclude_conn then ret tt
  else ok <- sendall c payload ;;
       if ok then ret tt else disconnect c.

Definition fan_out (disconnect : conn -> M unit) (payload : bytes)
    (exclude_conn : option conn) : M unit :=
  with_lock ClientsLock
    (keys <- gets (fun s => dict_keys (clients s)) ;;
     for_each keys (fan_body disconnect payload exclude_conn)).

(** [_disconnect_conn], its call of [broadcast_message] being [notify]. *)
Definition disconnect_with (notify : str -> M unit) (c : conn) : M unit :=
  with_lock ClientsLock
    (o <- gets (fun s => dict_get Nat.eqb c (clients s)) ;;
     match o with
     | Some u =>
       modify (fun s => set_clients (dict_del Nat.eqb c (clients s)) s) ;;
       close c ;;
       print (lit "[-] Removed: " ++ u_name u ++ lit " (ID:"
              ++ str_of_int (u_id u) ++ lit ") " ++ repr_addr (u_addr u)) ;;
       notify (left_notice u)
     | None => ret tt
     end).

(** [broadcast_message] and [_disconnect_conn] call each other; [depth]
    bounds the nesting of these calls. *)
Fixpoint broadcast_message_at (depth : nat) (text : str)
    (exclude_conn : option conn) : M unit :=
  match depth with
  | O => out_of_fuel
  | S d =>
    let msg := encode text in
    fan_out (disconnect_with (fun t => broadcast_message_at d t None))
            msg exclude_conn
  end.

Definition _disconnect_conn_at (depth : nat) (c : conn) : M unit :=
  disconnect_with (fun t => broadcast_message_at depth t None) c.

Definition broadcast_audio_at (depth : nat) (data : bytes)
    (exclude_conn : option conn) : M unit :=
  fan_out (_disconnect_conn_at depth) data exclude_conn.

Definition broadcast_message : str -> option conn -> M unit :=
  broadcast_message_at 1.
Definition _disconnect_conn : conn -> M unit := _disconnect_conn_at 1.
Definition broadcast_audio : bytes -> option conn -> M unit :=
  broadcast_audio_at 1.

(** *** handle_accepted_client *)

(** [text.lower() == "leave"] *)
Definition is_leave (text : str) : bool := str_eqb (lower text) (lit "leave").

(** One turn of the VOICE loop on what [conn.recv(CHUNK)] gave. *)
Definition voice_chunk (c : conn) (r : recv_result) : M loop_ctl :=
  match r with
  | RecvData data =>
    if (len data =? 0)%nat then ret Break
    else if (len data <? 64)%nat && is_leave (strip (decode_ignore data))
    then ret Break
    else broadcast_audio data (Some c) ;; ret Continue
  | RecvTimeout | RecvReset | RecvError => ret Break
  end.

(** One turn of the MESSAGING loop on what [conn.recv(4096)] gave. *)
Definition messaging_chunk (c : conn) (name : str) (r : recv_result)
    : M loop_ctl :=
  match r with
  | RecvData data =>
    if (len data =? 0)%nat then ret Break
    else
      let message := strip (decode_ignore data) in
      match message with
      | [] => ret Continue
      | _ =>
        if is_leave message then ret Break
        else
          let full_msg := name ++ lit ": " ++ message in
          print full_msg ;;
          broadcast_message full_msg (Some c) ;;
          ret Continue
      end
  | RecvTimeout | RecvReset | RecvError => ret Break
  end.

(** [while running: ...] over what the successive [recv] calls give;
    [inputs] is all the peer sends before it closes, after which [recv]
    returns the empty bytes. *)
Fixpoint relay_loop (turn : recv_result -> M loop_ctl)
    (inputs : list recv_result) : M unit :=
  r <- gets running ;;
  if r then
    match inputs with
    | [] => ret tt
    | i :: rest =>
      ctl <- turn i ;;
      match ctl with
      | Break => ret tt
      | Continue => relay_loop turn rest
      end
    end
  else ret tt.

(** The part of [handle_accepted_client] before the loop, per mode. *)
Definition voice_entry (c : conn) (user_id : Z) (name : str) : M unit :=
  users <- with_lock ClientsLock (gets (fun s => dict_values (clients s))) ;;
  _ <- sendall c (encode (users_msg users)) ;;
  broadcast_message (joined_call_notice name user_id) (Some c).

Definition messaging_entry (c : conn) (user_id : Z) (name : str) : M unit :=
  broadcast_message (user_joined_notice name user_id) (Some c) ;;
  _ <- sendall c (encode (welcome name user_id)) ;;
  ret tt.

Definition handle_accepted_client (c : conn) (addr : address) (user_id : Z)
    (name : str) (inputs : list recv_result) : M unit :=
  m <- gets MODE ;;
  match m with
  | VOICE =>
    voice_entry c user_id name ;;
    relay_loop (voice_chunk c) inputs
  | MESSAGING =>
    messaging_entry c user_id name ;;
    relay_loop (messaging_chunk c name) inputs
  end ;;
  (* finally *)
  _disconnect_conn c.

(** *** handle_new_connection *)

(** How a handshake thread ends: it returns, or it has started the relay
    thread of the client it registered. *)
Inductive admission := Terminated | Relay (user_id : Z).

(** The body of [with pending_lock:] that makes the pending entry: take
    [next_pending_id], advance it, store the entry with no decision. *)
Definition create_pending (c : conn) (name : str) (addr : address) : M Z :=
  pid <- gets next_pending_id ;;
  modify (fun s => set_next_pending_id (pid + 1) s) ;;
  modify (fun s =>
    set_pending
      (dict_set Z.eqb pid
         {| p_conn := c; p_name := name; p_addr := addr; p_decision := None |}
         (pending s)) s) ;;
  ret pid.

(** The body of [with clients_lock:] that registers the accepted client:
    take [next_user_id], advance it, store the client under its [conn]. *)
Definition register_client (c : conn) (name : str) (addr : address) : M Z :=
  user_id <- gets next_user_id ;;
  modify (fun s => set_next_user_id (user_id + 1) s) ;;
  modify (fun s =>
    set_clients
      (dict_set Nat.eqb c {| u_id := user_id; u_name := name; u_addr := addr |}
         (clients s)) s) ;;
  ret user_id.

(** Up to [ev.wait()]: [Some (pid, name)] when a pending entry was made and
    the thread now waits for its event, [None] when the thread returned. *)
Definition handle_new_connection_until_wait (c : conn) (addr : address)
    (r : recv_result) : M (option (Z * str)) :=
  match r with
  | RecvTimeout | RecvReset | RecvError => close c ;; ret None
  | RecvData raw =>
    let s := strip (decode_ignore raw) in
    if startswith (lit "NAME:") s then
      let name := strip (slice_from 5 s) in
      pid <- with_lock PendingLock (create_pending c name addr) ;;
      print (lit "[PENDING " ++ str_of_int pid ++ lit "] " ++ name
             ++ lit " from " ++ repr_addr addr ++ lit ". Use 'accept "
             ++ str_of_int pid ++ lit "' or 'reject " ++ str_of_int pid
             ++ lit "'.") ;;
      ret (Some (pid, name))
    else
      _ <- sendall c "REJECT" ;;
      close c ;;
      ret None
  end.

(** From [ev.wait()] on. *)
Definition handle_new_connection_after_wait (c : conn) (addr : address)
    (pid : Z) (name : str) : M admission :=
  event_wait pid ;;
  info <- with_lock PendingLock
            (o <- gets (fun s => dict_get Z.eqb pid (pending s)) ;;
             modify (fun s => set_pending (dict_del Z.eqb pid (pending s)) s) ;;
             ret o) ;;
  match info with
  | None => close c ;; ret Terminated
  | Some info =>
    match p_decision info with
    | Some true =>
      user_id <- with_lock ClientsLock (register_client c name addr) ;;
      m <- gets MODE ;;
      ok <- sendall c (encode (lit "MODE:" ++ mode_name m)) ;;
      if ok then
        n <- gets (fun s => List.length (clients s)) ;;
        print (lit "[ACCEPTED] " ++ name ++ lit " -> ID:" ++ str_of_int user_id
               ++ lit " from " ++ repr_addr addr ++ lit ". Total clients: "
               ++ str_of_int (Z.of_nat n)) ;;
        ret (Relay user_id)
      else
        _disconnect_conn c ;; ret Terminated
    | Some false | None =>
      _ <- sendall c "REJECT" ;;
      close c ;;
      print (lit "[REJECTED] " ++ name ++ lit " from " ++ repr_addr addr) ;;
      ret Terminated
    end
  end.

Definition handle_new_connection (c : conn) (addr : address)
    (r : recv_result) : M admission :=
  o <- handle_new_connection_until_wait c addr r ;;
  match o with
  | None => ret Terminated
  | Some (pid, name) => handle_new_connection_after_wait c addr pid name
  end.

(** *** operator_cli *)

Definition help_text : str :=
  lit "Commands:" ++ [10%N]
  ++ lit " pending                     -> show pending connection requests" ++ [10%N]
  ++ lit " accept <pid>                -> accept pending request" ++ [10%N]
  ++ lit " reject <pid>                -> reject pending request" ++ [10%N]
  ++ lit " list                        -> show connected clients" ++ [10%N]
  ++ lit " broadcast <message>         -> server send message to all" ++ [10%N]
  ++ lit " stop                        -> shutdown server" ++ [10%N]
  ++ lit " help                        -> show this" ++ [10%N].

(** The body of [with pending_lock:] in [accept] and [reject]: an unknown
    [pid] is reported; a known one gets the decision and its event is set. *)
Definition resolve_pending (decision : bool) (pid : Z) : M unit :=
  o <- gets (fun s => dict_get Z.eqb pid (pending s)) ;;
  match o with
  | None => print (lit "No such pending pid")
  | Some info =>
    modify (fun s =>
      set_pending
        (dict_set Z.eqb pid
           {| p_conn := p_conn info; p_name := p_name info;
              p_addr := p_addr info; p_decision := Some decision |}
           (pending s)) s) ;;
    event_set pid ;;
    print ((if decision then lit "Accepted" else lit "Rejected")
           ++ lit " pending " ++ str_of_int pid)
  end.

(** The body shared by [accept <pid>] ([decision = true]) and
    [reject <pid>] ([decision = false]). *)
Definition resolve_command (decision : bool) (arg : str) : M unit :=
  match arg with
  | [] => print (lit "Usage: " ++ (if decision then lit "accept" else lit "reject")
                 ++ lit " <pid>")
  | _ =>
    match int arg with
    | None => print (lit "invalid pid")
    | Some pid =>
      with_lock PendingLock (resolve_pending decision pid)
    end
  end.

Definition pending_command : M unit :=
  with_lock PendingLock
    (p <- gets pending ;;
     match p with
     | [] => print (lit "No pending requests.")
     | _ =>
       for_each p (fun '(pid, info) =>
         print (lit "PID:" ++ str_of_int pid ++ lit " - " ++ p_name info
                ++ lit " from " ++ repr_addr (p_addr info)))
     end).

Definition list_command : M unit :=
  with_lock ClientsLock
    (cl <- gets clients ;;
     match cl with
     | [] => print (lit "No connected clients.")
     | _ =>
       for_each cl (fun '(_, info) =>
         print (lit "ID:" ++ str_of_int (u_id info) ++ lit " Name:"
                ++ u_name info ++ lit " IP:" ++ host (u_addr info)
                ++ lit " Port:" ++ str_of_int (port (u_addr info))))
     end).

Definition kick_command (arg : str) : M unit :=
  match arg with
  | [] => print (lit "Usage: kick <id>")
  | _ =>
    match int arg with
    | None => print (lit "invalid id")
    | Some uid =>
      kicked <- with_lock ClientsLock
                  (cl <- gets clients ;;
                   match find (fun '(_, info) => Z.eqb (u_id info) uid) cl with
                   | Some (c, _) =>
                     _ <- sendall c (encode (lit "[Server]: You were kicked by admin.")) ;;
                     _disconnect_conn c ;;
                     ret true
                   | None => ret false
                   end) ;;
      if kicked : bool
      then print (lit "Kicked user " ++ str_of_int uid)
      else print (lit "No such user id")
    end
  end.

Definition broadcast_command (arg : str) : M unit :=
  match arg with
  | [] => print (lit "Usage: broadcast <message>")
  | _ =>
    broadcast_message (lit "[Server]: " ++ arg) None ;;
    print (lit "Broadcast sent.")
  end.

(** [stop], "reject all pending". *)
Definition stop_reject_pending : M unit :=
  with_lock PendingLock
    (p <- gets pending ;;
     for_each p (fun '(_, pinfo) =>
       _ <- sendall (p_conn pinfo) "REJECT" ;;
       close (p_conn pinfo)) ;;
     modify (set_pending [])).

(** [stop], "disconnect all clients". *)
Definition stop_disconnect_clients : M unit :=
  with_lock ClientsLock
    (keys <- gets (fun s => dict_keys (clients s)) ;;
     for_each keys (fun c =>
       _ <- sendall c (encode (lit "[Server]: Server shutting down.")) ;;
       close c) ;;
     modify (set_clients [])).

Definition stop_command : M unit :=
  print (lit "Stopping server...") ;;
  modify (set_running false) ;;
  stop_reject_pending ;;
  stop_disconnect_clients ;;
  modify (log CloseServerSock).

(** [parts = cmd.split(" ", 1)], [action = parts[0].lower()] and
    [arg = parts[1].strip() if len(parts) > 1 else ""]. *)
Definition parse_command (cmd : str) : str * str :=
  let (a, rest) := split_once cmd in
  (lower a, match rest with Some r => strip r | None => [] end).

(** One turn of the operator's loop on a line that [input] returned, or on
    end of input ([None]), which the loop reads as [stop]. *)
Definition operator_cli_line (line : option str) : M loop_ctl :=
  let cmd := match line with Some l => strip l | None => lit "stop" end in
  match cmd with
  | [] => ret Continue
  | _ =>
    let (action, arg) := parse_command cmd in
    if str_eqb action (lit "pending") then pending_command ;; ret Continue
    else if str_eqb action (lit "accept") then resolve_command true arg ;; ret Continue
    else if str_eqb action (lit "reject") then resolve_command false arg ;; ret Continue
    else if str_eqb action (lit "list") then list_command ;; ret Continue
    else if str_eqb action (lit "kick") then kick_command arg ;; ret Continue
    else if str_eqb action (lit "broadcast") then broadcast_command arg ;; ret Continue
    else if str_eqb action (lit "stop") then stop_command ;; ret Break
    else if str_eqb action (lit "help") then print help_text ;; ret Continue
    else print (lit "Unknown command. Type 'help' for commands.") ;; ret Continue
  end.

Fixpoint operator_loop (lines : list str) : M unit :=
  r <- gets running ;;
  if r then
    match lines with
    | [] => _ <- operator_cli_line None ;; ret tt
    | l :: rest =>
      ctl <- operator_cli_line (Some l) ;;
      match ctl with
      | Break => ret tt
      | Continue => operator_loop rest
      end
    end
  else ret tt.

Definition operator_cli (lines : list str) : M unit :=
  print help_text ;; operator_loop lines.

(** *** The parts of a thread between two waits

    [handle_new_connection] from [ev.wait()] to the pop of its pending
    entry, and from the pop on ([info] is what the pop gave); together they
    are [handle_new_connection_after_wait]. *)
Definition handle_new_connection_wake (pid : Z) : M (option pinfo) :=
  event_wait pid ;;
  with_lock PendingLock
    (o <- gets (fun s => dict_get Z.eqb pid (pending s)) ;;
     modify (fun s => set_pending (dict_del Z.eqb pid (pending s)) s) ;;
     ret o).

Definition handle_new_connection_decide (c : conn) (addr : address)
    (name : str) (info : option pinfo) : M admission :=
  match info with
  | None => close c ;; ret Terminated
  | Some info =>
    match p_decision info with
    | Some true =>
      user_id <- with_lock ClientsLock (register_client c name addr) ;;
      m <- gets MODE ;;
      ok <- sendall c (encode (lit "MODE:" ++ mode_name m)) ;;
      if ok then
        n <- gets (fun s => List.length (clients s)) ;;
        print (lit "[ACCEPTED] " ++ name ++ lit " -> ID:" ++ str_of_int user_id
               ++ lit " from " ++ repr_addr addr ++ lit ". Total clients: "
               ++ str_of_int (Z.of_nat n)) ;;
        ret (Relay user_id)
      else
        _disconnect_conn c ;; ret Terminated
    | Some false | None =>
      _ <- sendall c "REJECT" ;;
      close c ;;
      print (lit "[REJECTED] " ++ name ++ lit " from " ++ repr_addr addr) ;;
      ret Terminated
    end
  end.

(** [handle_accepted_client] before its loop, and one turn of its loop on
    what [recv] gave; its last part is [_disconnect_conn]. *)
Definition session_entry (c : conn) (user_id : Z) (name : str) : M unit :=
  m <- gets MODE ;;
  match m with
  | VOICE => voice_entry c user_id name
  | MESSAGING => messaging_entry c user_id name
  end.

Definition session_turn (c : conn) (name : str) (r : recv_result)
    : M loop_ctl :=
  m <- gets MODE ;;
  match m with
  | VOICE => voice_chunk c r
  | MESSAGING => messaging_chunk c name r
  end.

(** [handle_accepted_client] among the other threads.  While the thread
    waits, the others run: [others 0] is what they do to the state between
    the entry and the loop, [others n] what they do during the [n]-th
    [recv] of the loop, and [at_end] what they do before the [finally]. *)
Fixpoint relay_loop_among (others : nat -> state -> state) (n : nat)
    (turn : recv_result -> M loop_ctl) (inputs : list recv_result) : M unit :=
  r <- gets running ;;
  if r then
    match inputs with
    | [] => ret tt
    | i :: rest =>
      modify (others n) ;;
      ctl <- turn i ;;
      match ctl with
      | Break => ret tt
      | Continue => relay_loop_among others (S n) turn rest
      end
    end
  else ret tt.

Definition handle_accepted_client_among (others : nat -> state -> state)
    (at_end : state -> state) (c : conn) (addr : address) (user_id : Z)
    (name : str) (inputs : list recv_result) : M unit :=
  m <- gets MODE ;;
  match m with
  | VOICE =>
    voice_entry c user_id name ;;
    modify (others 0) ;;
    relay_loop_among others 1 (voice_chunk c) inputs
  | MESSAGING =>
    messaging_entry c user_id name ;;
    modify (others 0) ;;
    relay_loop_among others 1 (messaging_chunk c name) inputs
  end ;;
  modify at_end ;;
  (* finally *)
  _disconnect_conn c.

(** *** Runs of the server

    The threads of the server interleave; a step is one of its functions,
    or one of the parts of a function between two points where its thread
    waits ([recv], [ev.wait()]), run by one thread from the state the
    others left. *)
Inductive step : state -> state -> Prop :=
| step_handshake c addr r s :
    step s (final (handle_new_connection_until_wait c addr r s))
| step_admission c addr pid name s :
    step s (final (handle_new_connection_after_wait c addr pid name s))
| step_relay c addr user_id name inputs s :
    step s (final (handle_accepted_client c addr user_id name inputs s))
| step_operator line s :
    step s (final (operator_cli_line line s))
| step_wake pid s :
    step s (final (handle_new_connection_wake pid s))
| step_decide c addr name info s :
    step s (final (handle_new_connection_decide c addr name info s))
| step_entry c user_id name s :
    step s (final (session_entry c user_id name s))
| step_turn c name r s :
    step s (final (session_turn c name r s))
| step_finally c s :
    step s (final (_disconnect_conn c s)).

Inductive steps : state -> state -> Prop :=
| steps_refl s : steps s s
| steps_next s1 s2 s3 : steps s1 s2 -> step s2 s3 -> steps s1 s3.

Definition reachable (s : state) : Prop := exists m, steps (init_state m) s.

(** The ids in the two tables. *)
Definition client_ids (s : state) : list Z := map u_id (dict_values (clients s)).
Definition pending_ids (s : state) : list Z := dict_keys (pending s).

(** The sends of a log that happen while lock [l] is taken. *)
Definition lock_eqb (a b : lock) : bool :=
  match a, b with
  | ClientsLock, ClientsLock | PendingLock, PendingLock => true
  | _, _ => false
  end.

Fixpoint sends_under (l : lock) (taken : bool) (tr : list event) : list event :=
  match tr with
  | [] => []
  | Acquire l' :: t => sends_under l (if lock_eqb l l' then true else taken) t
  | Release l' :: t => sends_under l (if lock_eqb l l' then false else taken) t
  | Sendall c d ok :: t =>
    if taken then Sendall c d ok :: sends_under l taken t
    else sends_under l taken t
  | _ :: t => sends_under l taken t
  end.

(** The payloads a log sends to connection [c], failed attempts included. *)
Fixpoint sent_to (c : conn) (tr : list event) : list bytes :=
  match tr with
  | [] => []
  | Sendall c' d _ :: t => if Nat.eqb c c' then d :: sent_to c t else sent_to c t
  | _ :: t => sent_to c t
  end.

(** *** Relations between the states before and after a run *)

(** [m] takes every state to a state related to it by [R]. *)
Definition respects (R : state -> state -> Prop) {A} (m : M A) : Prop :=
  forall s, R s (final (m s)).

(** A preorder on states that the effects outside the two tables and the
    counters keep: logging, the locks, closing a connection. *)
Record frame (R : state -> state -> Prop) : Prop := {
  frame_refl : forall s, R s s;
  frame_trans : forall a b c, R a b -> R b c -> R a c;
  frame_log : forall e s, R s (log e s);
  frame_lock : forall l b s, R s (set_lock l b s);
  frame_closed : forall c s, R s (set_closed (c :: closed s) s)
}.

(** How the server's state moves: the log and the closed connections only
    grow, the mode stays, the counters never go back, and an id that is in a
    table afterwards was there before or was taken from the counter in
    between. *)
Record evolves (s s' : state) : Prop := {
  ev_trace : exists tr, trace s' = trace s ++ tr;
  ev_closed : incl (closed s) (closed s');
  ev_mode : MODE s' = MODE s;
  ev_uid : (next_user_id s <= next_user_id s')%Z;
  ev_pid : (next_pending_id s <= next_pending_id s')%Z;
  ev_clients : forall id, In id (client_ids s') ->
     In id (client_ids s) \/ (next_user_id s <= id < next_user_id s')%Z;
  ev_pending : forall id, In id (pending_ids s') ->
     In id (pending_ids s) \/ (next_pending_id s <= id < next_pending_id s')%Z
}.

(** Every id in a table is below the table's counter. *)
Definition ids_below (s : state) : Prop :=
  (forall id, In id (client_ids s) -> (id < next_user_id s)%Z)
  /\ (forall id, In id (pending_ids s) -> (id < next_pending_id s)%Z).

(** A run that only talks: the log and the closed connections grow, the
    pending table, the events and the [running] flag stay. *)
Record quiet (s s' : state) : Prop := {
  q_trace : exists tr, trace s' = trace s ++ tr;
  q_closed : incl (closed s) (closed s');
  q_pending : pending s' = pending s;
  q_events : events_set s' = events_set s;
  q_running : running s' = running s
}.

(** The first read of a connection does not give a handshake: it raised, or
    the text does not start with [NAME:]. *)
Definition malformed (r : recv_result) : bool :=
  match r with
  | RecvData raw => negb (startswith (lit "NAME:") (strip (decode_ignore raw)))
  | RecvTimeout | RecvReset | RecvError => true
  end.

(** The connections a broadcast that excludes [c] sends to. *)
Definition others (c : conn) (s : state) : list conn :=
  filter (fun k => negb (Nat.eqb k c)) (dict_keys (clients s)).

(** A run that does not end on the depth bound. *)
Definition within_depth {A} (m : M A) : Prop :=
  forall s s', m s <> OutOfFuel s'.

(** Logging several events in a row. *)
Definition log_all (es : list event) (s : state) : state :=
  fold_left (fun st e => log e st) es s.

Definition is_send (e : event) : bool :=
  match e with Sendall _ _ _ => true | _ => false end.

(** The sends of a broadcast of [payload] that all succeed. *)
Definition deliveries (payload : bytes) (exclude_conn : option conn)
    (keys : list conn) : list event :=
  map (fun k => Sendall k payload true)
      (filter (fun k => negb (is_excluded k exclude_conn)) keys).

(** What holds between the state a run starts from and the state it
    returns in. *)
Definition on_done (P : state -> state -> Prop) {A} (m : M A) : Prop :=
  forall s a s', m s = Done a s' -> P s s'.

(** A run that, when it stops for good, stops waiting for lock [l], which
    is taken in the state it stops in. *)
Definition blocks_on (l : lock) {A} (m : M A) : Prop :=
  forall s w s', m s = Blocked w s' -> w = OnLock l /\ held l s' = true.

(** The registry and its lock are as they were. *)
Definition same_registry (s s' : state) : Prop :=
  clients s' = clients s /\ clients_lock s' = clients_lock s.

(** Every id in a table is below the table's counter, and so is every
    pending id whose event is set; no key is twice in a table and no two
    registered clients have the same id. *)
Definition well_formed (s : state) : Prop :=
  ids_below s
  /\ (forall pid, In pid (events_set s) -> (pid < next_pending_id s)%Z)
  /\ NoDup (dict_keys (clients s))
  /\ NoDup (pending_ids s)
  /\ NoDup (client_ids s).

(** A run that keeps [well_formed]. *)
Definition keeps_well_formed (s s' : state) : Prop :=
  well_formed s -> well_formed s'.

(** Connection [c] is in the registry. *)
Definition registered (c : conn) (s : state) : Prop :=
  dict_get Nat.eqb c (clients s) <> None.

(** A run that keeps [c] in the registry if it was there. *)
Definition keeps_registered (c : conn) (s s' : state) : Prop :=
  registered c s -> registered c s'.

(** The [running] flag is as it was. *)
Definition same_running (s s' : state) : Prop := running s' = running s.

(** The state after [payload] was sent to each connection of [keys] and the
    connection closed, one after the other. *)
Definition send_close_all (payload : bytes) (keys : list conn) (s : state)
    : state :=
  fold_left
    (fun st c =>
       log (Close c)
         (set_closed (c :: closed st) (log (Sendall c payload (send_ok c st)) st)))
    keys s.

(** An event of a loop that sends [payload] and closes. *)
Definition send_or_close (payload : bytes) (e : event) : Prop :=
  match e with
  | Sendall _ d _ => d = payload
  | Close _ => True
  | _ => False
  end.

(** An event that is a line printed for the operator, or a lock taken or
    released. *)
Definition is_talk (e : event) : Prop :=
  match e with
  | Print _ | Acquire _ | Release _ => True
  | _ => False
  end.

(** A run that changed nothing but the locks and the log, and logged only
    printed lines and lock events. *)
Record talk_only (s s' : state) : Prop := {
  to_clients : clients s' = clients s;
  to_pending : pending s' = pending s;
  to_events : events_set s' = events_set s;
  to_closed : closed s' = closed s;
  to_running : running s' = running s;
  to_uid : next_user_id s' = next_user_id s;
  to_pid : next_pending_id s' = next_pending_id s;
  to_trace : exists tr, trace s' = trace s ++ tr /\ Forall is_talk tr
}.

(** The commands of the operator that change the tables, send, or stop. *)
Definition acting_commands : list str :=
  [lit "accept"; lit "reject"; lit "kick"; lit "broadcast"; lit "stop"].

(** The line [list] prints for a registered client. *)
Definition client_line (info : user) : str :=
  lit "ID:" ++ str_of_int (u_id info) ++ lit " Name:" ++ u_name info
  ++ lit " IP:" ++ host (u_addr info) ++ lit " Port:"
  ++ str_of_int (port (u_addr info)).

End Server.

(* ===================================================================== *)
(** ** The client (unified_client.py) *)
(* ===================================================================== *)

Module Client.
Import Py Server.

(** The handshake the client sends: [f"NAME:{NAME}".encode()], [NAME]
    being the typed line stripped.  [None]: the encoder raised, the client
    prints "Failed to send name" and exits. *)
Definition handshake (typed_name : str) : option bytes :=
  encode_strict (lit "NAME:" ++ strip typed_name).

(** What the client does with the server's answer to the handshake. *)
Inductive start :=
| NoResponse                    (* recv raised: exit 1 *)
| Rejected                      (* "REJECT": exit 0 *)
| Unexpected (response : str)   (* neither REJECT nor MODE: exit 1 *)
| UnknownMode (mode : str)      (* "Unknown mode. Disconnecting.": exit 1 *)
| StartMessaging                (* messaging_receive and messaging_send *)
| StartVoice.                   (* start_voice_mode *)

Definition start_of_response (r : recv_result) : start :=
  match r with
  | RecvTimeout | RecvReset | RecvError => NoResponse
  | RecvData raw =>
    let response := strip (decode_ignore raw) in
    if str_eqb response (lit "REJECT") then Rejected
    else if startswith (lit "MODE:") response then
      let mode := strip (after_colon response) in
      if str_eqb mode (lit "MESSAGING") then StartMessaging
      else if str_eqb mode (lit "VOICE") then StartVoice
      else UnknownMode mode
    else Unexpected response
  end.

(** One turn of [messaging_send] on a typed line; [ok] is whether
    [sendall] returned. *)
Inductive send_step :=
| SendSkip                      (* empty line: continue *)
| SendFailed                    (* encode or sendall raised: break *)
| SendGo (data : bytes)         (* sent, the loop goes on *)
| SendLeave (data : bytes).     (* sent, "You left the chat.", break *)

Definition messaging_send_line (msg : str) (ok : bool) : send_step :=
  match msg with
  | [] => SendSkip
  | _ =>
    match encode_strict msg with
    | None => SendFailed
    | Some data =>
      if ok then
        if str_eqb (lower msg) (lit "leave") then SendLeave data
        else SendGo data
      else SendFailed
    end
  end.

(** One turn of [voice_receive] on what [sock.recv(CHUNK)] gave. *)
Inductive voice_in :=
| VoiceEnd                      (* empty read or exception: break *)
| VoiceUsers (users : str)      (* "[Users currently in call] <users>" *)
| VoiceNotice (text : str)      (* printed as it is *)
| VoiceAudio (data : bytes).    (* written to the output stream *)

Definition voice_receive_chunk (r : recv_result) : voice_in :=
  match r with
  | RecvData data =>
    if (len data =? 0)%nat then VoiceEnd
    else if (len data <? 512)%nat then
      let s := strip (decode_ignore data) in
      if startswith (lit "[USERS]") s
      then VoiceUsers (strip (slice_from 7 s))
      else if startswith (lit "[Server]") s || startswith (lit "[SERVER]") s
              || startswith (lit "[Server]:") s
      then VoiceNotice s
      else VoiceAudio data
    else VoiceAudio data
  | RecvTimeout | RecvReset | RecvError => VoiceEnd
  end.

End Client.

(* ===================================================================== *)
(** ** Concrete runs *)
(* ===================================================================== *)

Module Scenario.
Import Py Server.
Local Open Scope string_scope.

Definition addr_a : address := {| host := lit "10.0.0.1"; port := 50001 |}.
Definition addr_b : address := {| host := lit "10.0.0.2"; port := 50002 |}.
Definition addr_c : address := {| host := lit "10.0.0.3"; port := 50003 |}.

(** A connection sends [raw] as its handshake, the operator accepts the
    pending id it is given, and the handshake thread goes on. *)
Definition enter (c : conn) (addr : address) (raw : bytes) (s : state) : state :=
  match handle_new_connection_until_wait c addr (RecvData raw) s with
  | Done (Some (pid, name)) s1 =>
    let s2 := final (operator_cli_line (Some (lit "accept " ++ str_of_int pid)%list) s1) in
    final (handle_new_connection_after_wait c addr pid name s2)
  | r => final r
  end.

(** alice on connection 1, bob on 2 and carol on 3, admitted in this order
    into a fresh server. *)
Definition one_client (m : mode) : state :=
  enter 1 addr_a "NAME:alice" (init_state m).
Definition two_clients (m : mode) : state :=
  enter 2 addr_b "NAME:bob" (one_client m).
Definition three_clients (m : mode) : state :=
  enter 3 addr_c "NAME:carol" (two_clients m).

(** The same with bob's peer gone: a send to connection 2 raises. *)
Definition three_clients_bob_down (m : mode) : state :=
  set_peer_down [2] (three_clients m).

(** alice has sent her name and waits for the operator. *)
Definition alice_pending (m : mode) : state :=
  final (handle_new_connection_until_wait 1 addr_a (RecvData "NAME:alice")
           (init_state m)).

(** alice and bob are registered; bob sends "leave" and his relay thread
    takes him out of the registry.  Then carol asks to come in. *)
Definition bob_left (m : mode) : state :=
  final (handle_accepted_client 2 addr_b 2 (lit "bob") [RecvData "leave"]
           (two_clients m)).
(** alice, bob and carol are registered; carol sends "leave". *)
Definition carol_left (m : mode) : state :=
  final (handle_accepted_client 3 addr_c 3 (lit "carol") [RecvData "leave"]
           (three_clients m)).

Definition carol_after_bob_left (m : mode) : state :=
  enter 3 addr_c "NAME:carol" (bob_left m).

(** The operator has accepted alice; her handshake thread has not yet woken. *)
Definition alice_accepted (m : mode) : state :=
  final (operator_cli_line (Some (lit "accept 1")) (alice_pending m)).

(** The operator stops the server before that thread wakes. *)
Definition accepted_then_stopped (m : mode) : state :=
  final (operator_cli_line (Some (lit "stop")) (alice_accepted m)).

(** The operator stops the server while alice is still pending. *)
Definition pending_then_stopped (m : mode) : state :=
  final (operator_cli_line (Some (lit "stop")) (alice_pending m)).

(** bob has left, which leaves his thread stuck with [clients_lock]; carol
    has sent her name and the operator has accepted her. *)
Definition carol_accepted_after_bob_left (m : mode) : state :=
  final (operator_cli_line (Some (lit "accept 3"))
           (final (handle_new_connection_until_wait 3 addr_c
                     (RecvData "NAME:carol") (bob_left m)))).

(** alice and bob are registered; carol has sent her name, the operator has
    accepted her, and her thread has woken and taken its pending entry. *)
Definition carol_accepted (m : mode) : state :=
  final (operator_cli_line (Some (lit "accept 3"))
           (final (handle_new_connection_until_wait 3 addr_c
                     (RecvData "NAME:carol") (two_clients m)))).
Definition carol_woken (m : mode) : state :=
  final (handle_new_connection_wake 3 (carol_accepted m)).

(** Before that thread goes on, the operator stops the server, which takes
    alice and bob out of the registry ... *)
Definition carol_woken_then_stopped (m : mode) : state :=
  final (operator_cli_line (Some (lit "stop")) (carol_woken m)).

(** ... and then the thread registers carol. *)
Definition carol_entered_after_stop (m : mode) : state :=
  final (handle_new_connection_decide 3 addr_c (lit "carol")
           (Some {| p_conn := 3; p_name := lit "carol"; p_addr := addr_c;
                    p_decision := Some true |})
           (carol_woken_then_stopped m)).

End Scenario.

(* ===================================================================== *)
(** ** Properties *)
(* ===================================================================== *)

Import Py Server.
Local Open Scope server_scope.

(** *** The builtins on examples *)

Example encode_reject : encode (lit "REJECT") = "REJECT"%string.
Proof. reflexivity. Qed.

Example decode_drops_bad_bytes :
  decode_ignore (String (ascii_of_N 0xFF) "NAME:x") = lit "NAME:x".
Proof. reflexivity. Qed.

Example strip_example : strip (lit "  leave  ") = lit "leave".
Proof. reflexivity. Qed.

Example int_examples :
  int (lit " 12 ") = Some 12%Z /\ int (lit "-3") = Some (-3)%Z
  /\ int (lit "1_0") = Some 10%Z /\ int (lit "x") = None
  /\ int (lit "") = None /\ int (lit "1__0") = None.
Proof. repeat split; reflexivity. Qed.

Example str_of_int_example : str_of_int 42 = lit "42".
Proof. reflexivity. Qed.

Lemma str_eqb_eq (a b : str) : str_eqb a b = true <-> a = b.
Proof.
  revert b; induction a as [|x a IH]; intros [|y b]; simpl; split;
    try congruence; try reflexivity.
  - intros H. apply andb_true_iff in H as [Hx Hab].
    apply N.eqb_eq in Hx. apply IH in Hab. congruence.
  - intros H. injection H as -> ->. rewrite N.eqb_refl. simpl. now apply IH.
Qed.

(** *** The nesting of broadcast_message and _disconnect_conn

    [_disconnect_conn] is only ever reached from the loop of a broadcast
    while [clients_lock] is taken, where it stops at its own [with
    clients_lock]; and [broadcast_message] is reached from
    [_disconnect_conn] inside its [with clients_lock], where it stops
    likewise.  So the nesting never goes deeper, and the depth bound is
    never met. *)

Lemma disconnect_with_locked notify c s :
  clients_lock s = true ->
  disconnect_with notify c s = Blocked (OnLock ClientsLock) s.
Proof.
  intros H. unfold disconnect_with, with_lock, bind, acquire. simpl.
  now rewrite H.
Qed.

Lemma fan_out_locked disconnect payload ex s :
  clients_lock s = true ->
  fan_out disconnect payload ex s = Blocked (OnLock ClientsLock) s.
Proof.
  intros H. unfold fan_out, with_lock, bind, acquire. simpl. now rewrite H.
Qed.

Lemma broadcast_message_at_locked d text ex s :
  clients_lock s = true ->
  broadcast_message_at (S d) text ex s = Blocked (OnLock ClientsLock) s.
Proof. intros H. simpl. now apply fan_out_locked. Qed.

Lemma fan_out_unfold disconnect payload ex s :
  fan_out disconnect payload ex s
  = if clients_lock s then Blocked (OnLock ClientsLock) s
    else
      match for_each (dict_keys (clients s)) (fan_body disconnect payload ex)
              (log (Acquire ClientsLock) (set_lock ClientsLock true s)) with
      | Done _ s' =>
        Done tt (log (Release ClientsLock) (set_lock ClientsLock false s'))
      | Blocked w s' => Blocked w s'
      | OutOfFuel s' => OutOfFuel s'
      end.
Proof.
  unfold fan_out, with_lock, bind, acquire, gets, release, modify, ret.
  cbn [held]. destruct (clients_lock s); [reflexivity|].
  change (clients (log (Acquire ClientsLock) (set_lock ClientsLock true s)))
    with (clients s).
  match goal with |- context [for_each ?k ?b ?st] =>
    destruct (for_each k b st) as [[] ?| |] end; reflexivity.
Qed.

Section FanLoop.
Variables (payload : bytes) (ex : option conn).

Lemma fan_loop_notify n1 n2 keys s :
  clients_lock s = true ->
  for_each keys (fan_body (disconnect_with n1) payload ex) s
  = for_each keys (fan_body (disconnect_with n2) payload ex) s.
Proof.
  revert s; induction keys as [|c keys IH]; intros s H; [reflexivity|].
  simpl. unfold bind, fan_body.
  destruct (is_excluded c ex); simpl.
  - now apply IH.
  - unfold bind, sendall. destruct (send_ok c s); simpl.
    + now apply IH.
    + now rewrite !disconnect_with_locked.
Qed.

Lemma fan_loop_fuel n keys s s' :
  clients_lock s = true ->
  for_each keys (fan_body (disconnect_with n) payload ex) s <> OutOfFuel s'.
Proof.
  revert s; induction keys as [|c keys IH]; intros s H; [discriminate|].
  simpl. unfold bind, fan_body.
  destruct (is_excluded c ex); simpl.
  - now apply IH.
  - unfold bind, sendall. destruct (send_ok c s); simpl.
    + now apply IH.
    + now rewrite disconnect_with_locked.
Qed.

Lemma fan_out_notify n1 n2 s :
  fan_out (disconnect_with n1) payload ex s
  = fan_out (disconnect_with n2) payload ex s.
Proof.
  rewrite !fan_out_unfold. destruct (clients_lock s); [reflexivity|].
  now rewrite (fan_loop_notify n1 n2).
Qed.

Lemma fan_out_fuel n s s' :
  fan_out (disconnect_with n) payload ex s <> OutOfFuel s'.
Proof.
  rewrite fan_out_unfold. destruct (clients_lock s); [discriminate|].
  match goal with |- context [for_each ?k ?b ?st] =>
    pose proof (fun x => @fan_loop_fuel n k st x eq_refl) as F;
    destruct (for_each k b st) eqn:E end; try discriminate.
  intros Heq. injection Heq as <-. now apply (F s0).
Qed.
End FanLoop.

(** Any depth from one on gives the run of depth one, which never ends on
    the depth bound. *)
Lemma broadcast_message_at_depth d text ex s :
  broadcast_message_at (S d) text ex s = broadcast_message text ex s
  /\ forall s', broadcast_message text ex s <> OutOfFuel s'.
Proof.
  split.
  - unfold broadcast_message. simpl. apply fan_out_notify.
  - intros s'. unfold broadcast_message. simpl. apply fan_out_fuel.
Qed.

Lemma broadcast_audio_at_depth d data ex s :
  broadcast_audio_at (S d) data ex s = broadcast_audio data ex s
  /\ forall s', broadcast_audio data ex s <> OutOfFuel s'.
Proof.
  split.
  - unfold broadcast_audio, broadcast_audio_at, _disconnect_conn_at.
    apply fan_out_notify.
  - intros s'. unfold broadcast_audio, broadcast_audio_at, _disconnect_conn_at.
    apply fan_out_fuel.
Qed.

(** Unfolding a run: [run] opens the monad and the primitive effects,
    [proj] reads fields through the updates of the state. *)
Ltac run :=
  cbv beta iota delta
    [bind ret gets modify acquire release with_lock sendall close print
     event_wait event_set out_of_fuel final held].

Ltac proj :=
  cbn [clients next_user_id pending next_pending_id running MODE clients_lock
       pending_lock events_set closed peer_down trace log set_lock set_closed
       set_clients set_pending set_next_user_id set_next_pending_id
       set_running set_events_set].

Lemma _disconnect_conn_at_depth d c s :
  _disconnect_conn_at (S d) c s = _disconnect_conn c s
  /\ forall s', _disconnect_conn c s <> OutOfFuel s'.
Proof.
  unfold _disconnect_conn, _disconnect_conn_at, disconnect_with. run.
  destruct (clients_lock s) eqn:L; [split; [reflexivity|discriminate]|].
  proj.
  destruct (dict_get Nat.eqb c (clients s)) as [u|];
    [|split; [reflexivity|discriminate]].
  rewrite !broadcast_message_at_locked by reflexivity.
  split; [reflexivity|discriminate].
Qed.

(** *** Dictionaries *)

Section DictFacts.
Variables (K V : Type) (eqb : K -> K -> bool).

Lemma dict_del_keys k x (d : dict K V) :
  In x (dict_keys (dict_del eqb k d)) -> In x (dict_keys d).
Proof.
  induction d as [|[k' v] d IH]; simpl; [tauto|].
  destruct (eqb k k'); simpl; tauto.
Qed.

Lemma dict_del_values k x (d : dict K V) :
  In x (dict_values (dict_del eqb k d)) -> In x (dict_values d).
Proof.
  induction d as [|[k' v] d IH]; simpl; [tauto|].
  destruct (eqb k k'); simpl; tauto.
Qed.

Lemma dict_set_keys k v x (d : dict K V) :
  In x (dict_keys (dict_set eqb k v d)) -> x = k \/ In x (dict_keys d).
Proof.
  induction d as [|[k' v'] d IH]; simpl.
  - intuition.
  - destruct (eqb k k'); simpl; intuition.
Qed.

Lemma dict_set_values k v x (d : dict K V) :
  In x (dict_values (dict_set eqb k v d)) -> x = v \/ In x (dict_values d).
Proof.
  induction d as [|[k' v'] d IH]; simpl.
  - intuition.
  - destruct (eqb k k'); simpl; intuition.
Qed.

Hypothesis eqb_eq : forall a b, eqb a b = true <-> a = b.

Lemma dict_get_set k v (d : dict K V) :
  dict_get eqb k (dict_set eqb k v d) = Some v.
Proof.
  assert (R : eqb k k = true) by now apply eqb_eq.
  induction d as [|[k' v'] d IH]; simpl.
  - now rewrite R.
  - destruct (eqb k k') eqn:E; simpl; [now rewrite R|now rewrite E].
Qed.

Lemma dict_get_keys k v (d : dict K V) :
  dict_get eqb k d = Some v -> In k (dict_keys d).
Proof.
  induction d as [|[k' v'] d IH]; simpl; [discriminate|].
  destruct (eqb k k') eqn:E.
  - apply eqb_eq in E. auto.
  - auto.
Qed.

Lemma dict_get_none k (d : dict K V) :
  dict_get eqb k d = None -> ~ In k (dict_keys d).
Proof.
  induction d as [|[k' v'] d IH]; simpl; [tauto|].
  destruct (eqb k k') eqn:E; [discriminate|].
  intros H [->|Hin]; [|now apply IH].
  assert (eqb k k = true) by now apply eqb_eq. congruence.
Qed.

Lemma dict_get_in k v (d : dict K V) :
  dict_get eqb k d = Some v -> In (k, v) d.
Proof.
  induction d as [|[k' v'] d IH]; simpl; [discriminate|].
  destruct (eqb k k') eqn:E.
  - apply eqb_eq in E. intros [= ->]. subst. auto.
  - auto.
Qed.
End DictFacts.

(** *** How runs compose *)

Section Respects.
Variable R : state -> state -> Prop.
Hypothesis HR : frame R.

Lemma respects_ret A (a : A) : respects R (ret a).
Proof. intros s. apply HR. Qed.

Lemma respects_gets A (f : state -> A) : respects R (gets f).
Proof. intros s. apply HR. Qed.

Lemma respects_out_of_fuel A : respects R (@out_of_fuel A).
Proof. intros s. apply HR. Qed.

Lemma respects_event_wait pid : respects R (event_wait pid).
Proof. intros s. unfold event_wait. destruct (mem_pid _ _); apply HR. Qed.

Lemma respects_bind A B (m : M A) (k : A -> M B) :
  respects R m -> (forall a, respects R (k a)) -> respects R (bind m k).
Proof.
  intros Hm Hk s. unfold bind. specialize (Hm s).
  destruct (m s) as [a s1|w s1|s1]; simpl in *; auto.
  eapply (frame_trans HR); [exact Hm|apply Hk].
Qed.

Lemma respects_modify f : (forall s, R s (f s)) -> respects R (modify f).
Proof. intros H s. apply H. Qed.

Lemma respects_acquire l : respects R (acquire l).
Proof.
  intros s. unfold acquire. destruct (held l s); simpl; [apply HR|].
  eapply (frame_trans HR); [apply (frame_lock HR)|apply (frame_log HR)].
Qed.

Lemma respects_release l : respects R (release l).
Proof.
  apply respects_modify. intros s.
  eapply (frame_trans HR); [apply (frame_lock HR)|apply (frame_log HR)].
Qed.

Lemma respects_with_lock A l (body : M A) :
  respects R body -> respects R (with_lock l body).
Proof.
  intros H. unfold with_lock.
  apply respects_bind; [apply respects_acquire|intros _].
  apply respects_bind; [exact H|intros x].
  apply respects_bind; [apply respects_release|intros _].
  apply respects_ret.
Qed.

Lemma respects_sendall c d : respects R (sendall c d).
Proof. intros s. apply (frame_log HR). Qed.

Lemma respects_close c : respects R (close c).
Proof.
  apply respects_modify. intros s.
  eapply (frame_trans HR); [apply (frame_closed HR)|apply (frame_log HR)].
Qed.

Lemma respects_print line : respects R (print line).
Proof. apply respects_modify. intros s. apply (frame_log HR). Qed.

Lemma respects_for_each A (l : list A) body :
  (forall x, respects R (body x)) -> respects R (for_each l body).
Proof.
  intros H. induction l as [|x l IH]; simpl.
  - apply respects_ret.
  - apply respects_bind; auto.
Qed.

Lemma respects_relay_loop turn inputs :
  (forall i, respects R (turn i)) -> respects R (relay_loop turn inputs).
Proof.
  intros H. induction inputs as [|i inputs IH]; simpl.
  - apply respects_bind; [apply respects_gets|].
    intros []; apply respects_ret.
  - apply respects_bind; [apply respects_gets|].
    intros []; [|apply respects_ret].
    apply respects_bind; [apply H|].
    intros []; [apply respects_ret|exact IH].
Qed.

Lemma respects_fan_out disconnect payload ex :
  (forall c, respects R (disconnect c)) ->
  respects R (fan_out disconnect payload ex).
Proof.
  intros H. unfold fan_out. apply respects_with_lock.
  apply respects_bind; [apply respects_gets|intros keys].
  apply respects_for_each. intros c. unfold fan_body.
  destruct (is_excluded c ex); [apply respects_ret|].
  apply respects_bind; [apply respects_sendall|].
  intros []; [apply respects_ret|apply H].
Qed.

(** Removing a client from the registry. *)
Hypothesis R_del_client :
  forall c s, R s (set_clients (dict_del Nat.eqb c (clients s)) s).

Lemma respects_disconnect_with notify c :
  (forall t, respects R (notify t)) -> respects R (disconnect_with notify c).
Proof.
  intros H. unfold disconnect_with. apply respects_with_lock.
  apply respects_bind; [apply respects_gets|].
  intros [u|]; [|apply respects_ret].
  apply respects_bind; [apply respects_modify; intros s; apply R_del_client|intros _].
  apply respects_bind; [apply respects_close|intros _].
  apply respects_bind; [apply respects_print|intros _].
  apply H.
Qed.

Lemma respects_broadcast_message_at d text ex :
  respects R (broadcast_message_at d text ex).
Proof.
  revert text ex. induction d as [|d IH]; intros text ex; simpl.
  - apply respects_out_of_fuel.
  - apply respects_fan_out. intros c. apply respects_disconnect_with.
    intros t. apply IH.
Qed.

Lemma respects_broadcast_message text ex :
  respects R (broadcast_message text ex).
Proof. apply respects_broadcast_message_at. Qed.

Lemma respects__disconnect_conn c : respects R (_disconnect_conn c).
Proof.
  apply respects_disconnect_with. intros t.
  apply respects_broadcast_message_at.
Qed.

Lemma respects_broadcast_audio data ex :
  respects R (broadcast_audio data ex).
Proof. apply respects_fan_out. intros c. apply respects__disconnect_conn. Qed.

Lemma respects_voice_chunk c r : respects R (voice_chunk c r).
Proof.
  destruct r; simpl; try apply respects_ret.
  destruct (len data =? 0)%nat; [apply respects_ret|].
  destruct (_ && _); [apply respects_ret|].
  apply respects_bind; [apply respects_broadcast_audio|intros _].
  apply respects_ret.
Qed.

Lemma respects_messaging_chunk c name r :
  respects R (messaging_chunk c name r).
Proof.
  destruct r; simpl; try apply respects_ret.
  destruct (len data =? 0)%nat; [apply respects_ret|].
  destruct (strip (decode_ignore data)) as [|x m]; [apply respects_ret|].
  destruct (is_leave (x :: m)); [apply respects_ret|].
  apply respects_bind; [apply respects_print|intros _].
  apply respects_bind; [apply respects_broadcast_message|intros _].
  apply respects_ret.
Qed.

Lemma respects_voice_entry c user_id name :
  respects R (voice_entry c user_id name).
Proof.
  unfold voice_entry.
  apply respects_bind;
    [apply respects_with_lock, respects_gets|intros users].
  apply respects_bind; [apply respects_sendall|intros _].
  apply respects_broadcast_message.
Qed.

Lemma respects_messaging_entry c user_id name :
  respects R (messaging_entry c user_id name).
Proof.
  unfold messaging_entry.
  apply respects_bind; [apply respects_broadcast_message|intros _].
  apply respects_bind; [apply respects_sendall|intros _].
  apply respects_ret.
Qed.

Lemma respects_handle_accepted_client c addr user_id name inputs :
  respects R (handle_accepted_client c addr user_id name inputs).
Proof.
  unfold handle_accepted_client.
  apply respects_bind; [apply respects_gets|intros m].
  apply respects_bind; [|intros _; apply respects__disconnect_conn].
  destruct m.
  - apply respects_bind; [apply respects_messaging_entry|intros _].
    apply respects_relay_loop. intros i. apply respects_messaging_chunk.
  - apply respects_bind; [apply respects_voice_entry|intros _].
    apply respects_relay_loop. intros i. apply respects_voice_chunk.
Qed.
End Respects.

(** *** The tables and counters along a run *)

Lemma evolves_refl s : evolves s s.
Proof.
  split; auto using incl_refl; try lia.
  exists []. now rewrite app_nil_r.
Qed.

Lemma evolves_trans a b c : evolves a b -> evolves b c -> evolves a c.
Proof.
  intros [[t1 T1] C1 M1 U1 P1 I1 J1] [[t2 T2] C2 M2 U2 P2 I2 J2]. split.
  - exists (t1 ++ t2). now rewrite T2, T1, app_assoc.
  - eauto using incl_tran.
  - congruence.
  - lia.
  - lia.
  - intros id H. destruct (I2 id H) as [H'|H']; [|right; lia].
    destruct (I1 id H') as [H''|H'']; [now left|right; lia].
  - intros id H. destruct (J2 id H) as [H'|H']; [|right; lia].
    destruct (J1 id H') as [H''|H'']; [now left|right; lia].
Qed.

(** A change that leaves the counters alone and adds no id. *)
Lemma evolves_shrink s s' :
  (exists tr, trace s' = trace s ++ tr) ->
  incl (closed s) (closed s') ->
  MODE s' = MODE s ->
  next_user_id s' = next_user_id s ->
  next_pending_id s' = next_pending_id s ->
  incl (client_ids s') (client_ids s) ->
  incl (pending_ids s') (pending_ids s) ->
  evolves s s'.
Proof.
  intros T C M U P I J. split; auto; try lia; intros id H; left; auto.
Qed.

Ltac shrink :=
  apply evolves_shrink; proj;
  try reflexivity; try apply incl_refl; try apply incl_tl, incl_refl;
  try (exists []; now rewrite app_nil_r); try (eexists; reflexivity).

Lemma evolves_frame : frame evolves.
Proof.
  split.
  - apply evolves_refl.
  - apply evolves_trans.
  - intros e s. shrink.
  - intros l b s. shrink.
  - intros c s. shrink.
Qed.

Lemma evolves_del_client c s :
  evolves s (set_clients (dict_del Nat.eqb c (clients s)) s).
Proof.
  shrink. unfold client_ids. proj. intros id H.
  apply in_map_iff in H as (u & <- & H). apply in_map.
  eapply dict_del_values; eauto.
Qed.

Lemma evolves_del_pending pid s :
  evolves s (set_pending (dict_del Z.eqb pid (pending s)) s).
Proof.
  shrink. unfold pending_ids. proj. intros id H.
  eapply dict_del_keys; eauto.
Qed.

Lemma evolves_create_pending c name addr :
  respects evolves (create_pending c name addr).
Proof.
  intros s. unfold create_pending. run. split; proj; auto using incl_refl; try lia.
  - exists []. now rewrite app_nil_r.
  - unfold pending_ids. proj. intros id H.
    apply dict_set_keys in H as [->|H]; [right; lia|now left].
Qed.

Lemma evolves_register_client c name addr :
  respects evolves (register_client c name addr).
Proof.
  intros s. unfold register_client. run. split; proj; auto using incl_refl; try lia.
  - exists []. now rewrite app_nil_r.
  - unfold client_ids. proj. intros id H.
    apply in_map_iff in H as (u & <- & H).
    apply dict_set_values in H as [->|H]; [right; simpl; lia|].
    left. now apply in_map.
Qed.

Lemma evolves_resolve_pending decision pid :
  respects evolves (resolve_pending decision pid).
Proof.
  intros s. unfold resolve_pending. run.
  destruct (dict_get Z.eqb pid (pending s)) as [info|] eqn:E; cbv beta; proj.
  - shrink. unfold pending_ids. proj. intros id H.
    apply dict_set_keys in H as [->|H]; [|exact H].
    eapply dict_get_keys; eauto using Z.eqb_eq.
  - shrink.
Qed.

Ltac respects_evolves :=
  repeat first
    [ match goal with
      | |- respects _ (match ?x with _ => _ end) => destruct x
      end
    | apply (respects_ret evolves_frame)
    | apply (respects_gets evolves_frame)
    | apply (respects_print evolves_frame)
    | apply (respects_close evolves_frame)
    | apply (respects_sendall evolves_frame)
    | apply (respects_event_wait evolves_frame)
    | apply (respects_broadcast_message evolves_frame evolves_del_client)
    | apply (respects__disconnect_conn evolves_frame evolves_del_client)
    | apply evolves_create_pending
    | apply evolves_register_client
    | apply evolves_resolve_pending
    | apply (respects_with_lock evolves_frame)
    | apply (respects_for_each evolves_frame); intros ?
    | apply (respects_bind evolves_frame); [|intros ?]
    | match goal with
      | |- respects _ (match ?x with _ => _ end) => destruct x
      | |- respects _ (modify _) => apply respects_modify; intros ?
      end ].

Lemma evolves_handle_new_connection_until_wait c addr r :
  respects evolves (handle_new_connection_until_wait c addr r).
Proof. unfold handle_new_connection_until_wait. respects_evolves. Qed.

Lemma evolves_handle_new_connection_after_wait c addr pid name :
  respects evolves (handle_new_connection_after_wait c addr pid name).
Proof.
  unfold handle_new_connection_after_wait. respects_evolves.
  apply evolves_del_pending.
Qed.

Lemma evolves_stop_command : respects evolves stop_command.
Proof.
  unfold stop_command, stop_reject_pending, stop_disconnect_clients.
  respects_evolves; shrink; intros x [].
Qed.

Lemma evolves_operator_cli_line line :
  respects evolves (operator_cli_line line).
Proof.
  unfold operator_cli_line.
  destruct (match line with Some l => strip l | None => lit "stop" end);
    [respects_evolves|].
  destruct (parse_command _) as [action arg].
  repeat match goal with
         | |- respects _ (if ?b then _ else _) => destruct b
         end;
    try (apply (respects_bind evolves_frame);
         [|intros ?; apply (respects_ret evolves_frame)]).
  - unfold pending_command. respects_evolves.
  - unfold resolve_command. respects_evolves.
  - unfold resolve_command. respects_evolves.
  - unfold list_command. respects_evolves.
  - unfold kick_command. respects_evolves.
  - unfold broadcast_command. respects_evolves.
  - apply evolves_stop_command.
  - respects_evolves.
  - respects_evolves.
Qed.

Lemma evolves_handle_new_connection_wake pid :
  respects evolves (handle_new_connection_wake pid).
Proof.
  unfold handle_new_connection_wake. respects_evolves.
  apply evolves_del_pending.
Qed.

Lemma evolves_handle_new_connection_decide c addr name info :
  respects evolves (handle_new_connection_decide c addr name info).
Proof. unfold handle_new_connection_decide. respects_evolves. Qed.

Lemma step_evolves s s' : step s s' -> evolves s s'.
Proof.
  intros [c addr r s0|c addr pid name s0|c addr uid name inputs s0|line s0
         |pid s0|c addr name info s0|c uid name s0|c name r s0|c s0].
  - apply evolves_handle_new_connection_until_wait.
  - apply evolves_handle_new_connection_after_wait.
  - apply (respects_handle_accepted_client evolves_frame evolves_del_client).
  - apply evolves_operator_cli_line.
  - apply evolves_handle_new_connection_wake.
  - apply evolves_handle_new_connection_decide.
  - unfold session_entry. apply (respects_bind evolves_frame);
      [apply (respects_gets evolves_frame)|intros []].
    + apply (respects_messaging_entry evolves_frame evolves_del_client).
    + apply (respects_voice_entry evolves_frame evolves_del_client).
  - unfold session_turn. apply (respects_bind evolves_frame);
      [apply (respects_gets evolves_frame)|intros []].
    + apply (respects_messaging_chunk evolves_frame evolves_del_client).
    + apply (respects_voice_chunk evolves_frame evolves_del_client).
  - apply (respects__disconnect_conn evolves_frame evolves_del_client).
Qed.

Lemma steps_evolves s s' : steps s s' -> evolves s s'.
Proof.
  induction 1 as [s|s1 s2 s3 _ IH Hs].
  - apply evolves_refl.
  - eapply evolves_trans; [exact IH|now apply step_evolves].
Qed.

Lemma steps_trans a b c : steps a b -> steps b c -> steps a c.
Proof.
  intros Hab Hbc. revert Hab. induction Hbc as [s|s1 s2 s3 H12 IH H23]; intros Hab.
  - exact Hab.
  - apply (steps_next (IH Hab) H23).
Qed.

Lemma evolves_ids_below s s' : evolves s s' -> ids_below s -> ids_below s'.
Proof.
  intros E [Hc Hp]. split; intros id H.
  - destruct (ev_clients E id H) as [H'|H']; [|lia].
    pose proof (Hc id H'). pose proof (ev_uid E). lia.
  - destruct (ev_pending E id H) as [H'|H']; [|lia].
    pose proof (Hp id H'). pose proof (ev_pid E). lia.
Qed.

Lemma reachable_ids_below s : reachable s -> ids_below s.
Proof.
  intros [m H]. eapply evolves_ids_below; [apply steps_evolves; exact H|].
  split; intros id [].
Qed.

Ltac proj_in H :=
  cbn [clients next_user_id pending next_pending_id running MODE clients_lock
       pending_lock events_set closed peer_down trace log set_lock set_closed
       set_clients set_pending set_next_user_id set_next_pending_id
       set_running set_events_set] in H.

(** A conjunction of closed equations, each decided by evaluation. *)
Ltac by_computation :=
  cbv zeta;
  repeat match goal with |- _ /\ _ => split end;
  vm_compute; reflexivity.

(** *** Ids are never reused *)

Lemma enter_steps c addr raw s : steps s (Scenario.enter c addr raw s).
Proof.
  unfold Scenario.enter.
  pose proof (step_handshake c addr (RecvData raw) s) as H1.
  destruct (handle_new_connection_until_wait c addr (RecvData raw) s)
    as [[[pid name]|] s1|w s1|s1]; simpl in H1;
    try (eapply steps_next; [apply steps_refl|exact H1]).
  cbv zeta.
  eapply steps_next; [eapply steps_next; [eapply steps_next|]|].
  - apply steps_refl.
  - exact H1.
  - apply step_operator.
  - apply step_admission.
Qed.

Example one_client_registry :
  clients (Scenario.one_client MESSAGING)
  = [(1, {| u_id := 1; u_name := lit "alice"; u_addr := Scenario.addr_a |})].
Proof. vm_compute. reflexivity. Qed.

Example three_clients_ids :
  client_ids (Scenario.three_clients VOICE) = [1; 2; 3]%Z
  /\ next_user_id (Scenario.three_clients VOICE) = 4%Z
  /\ clients_lock (Scenario.three_clients VOICE) = false.
Proof. by_computation. Qed.


(** *** The handshake *)

Example handshake_examples :
  malformed (RecvData "NAME:alice") = false
  /\ malformed (RecvData "  NAME:") = false
  /\ malformed (RecvData "name:alice") = true
  /\ malformed (RecvData "") = true
  /\ malformed RecvTimeout = true.
Proof. repeat split; reflexivity. Qed.

(** C3, as the code has it. A first read that raises (timeout, reset, any
    other error) closes the connection and sends nothing; a first read whose
    text does not start with NAME: sends REJECT and closes the connection.
    In both cases the thread returns and the pending table and its counter
    are as before. *)
Theorem malformed_handshake_is_closed c addr r s :
  malformed r = true ->
  handle_new_connection_until_wait c addr r s
  = Done None
      (match r with
       | RecvData _ =>
         log (Close c)
           (set_closed (c :: closed s)
              (log (Sendall c "REJECT" (send_ok c s)) s))
       | RecvTimeout | RecvReset | RecvError =>
         log (Close c) (set_closed (c :: closed s) s)
       end)
  /\ pending (final (handle_new_connection_until_wait c addr r s)) = pending s
  /\ next_pending_id (final (handle_new_connection_until_wait c addr r s))
     = next_pending_id s.
Proof.
  intros H. destruct r as [raw| | |]; simpl in H |- *.
  - apply negb_true_iff in H. rewrite H. run. proj. auto.
  - run. proj. auto.
  - run. proj. auto.
  - run. proj. auto.
Qed.

Lemma malformed_handshake_is_closed_witness :
  handle_new_connection_until_wait 9 Scenario.addr_a (RecvData "hello")
    (init_state MESSAGING)
  = Done None
      (log (Close 9)
         (set_closed [9] (log (Sendall 9 "REJECT" true) (init_state MESSAGING)))).
Proof.
  assert (B : malformed (RecvData "hello") = true) by (vm_compute; reflexivity).
  exact (proj1 (@malformed_handshake_is_closed 9 Scenario.addr_a
                  (RecvData "hello") (init_state MESSAGING) B)).
Defined.

(** C3 as stated fails: when the first read times out, the connection is
    closed and no REJECT is sent. *)
Lemma timeout_handshake_gets_no_reject :
  let s' := final (handle_new_connection_until_wait 9 Scenario.addr_a
                     RecvTimeout (init_state MESSAGING)) in
  trace s' = [Close 9] /\ ~ In "REJECT"%string (sent_to 9 (trace s')).
Proof. split; [reflexivity|]. simpl. tauto. Qed.

(** C10. Whatever follows NAME: is the name: when the decoded, trimmed text
    of the first read starts with NAME:, the thread makes a pending entry
    under the next pending id with the trimmed remainder as its name and no
    decision, logs it and waits; nothing is sent or closed.  The remainder is
    not looked at, so an empty one gives the name "". *)
Theorem handshake_takes_any_name c addr raw s :
  pending_lock s = false ->
  startswith (lit "NAME:") (strip (decode_ignore raw)) = true ->
  let name := strip (slice_from 5 (strip (decode_ignore raw))) in
  let pid := next_pending_id s in
  let entry := {| p_conn := c; p_name := name; p_addr := addr;
                  p_decision := None |} in
  exists s',
    handle_new_connection_until_wait c addr (RecvData raw) s
    = Done (Some (pid, name)) s'
    /\ dict_get Z.eqb pid (pending s') = Some entry
    /\ pending s' = dict_set Z.eqb pid entry (pending s)
    /\ next_pending_id s' = (pid + 1)%Z
    /\ closed s' = closed s
    /\ exists line,
         trace s' = trace s ++ [Acquire PendingLock; Release PendingLock; Print line].
Proof.
  intros L H name pid entry. unfold handle_new_connection_until_wait.
  rewrite H. unfold create_pending. run. rewrite L. proj.
  eexists. split; [reflexivity|]. proj.
  split; [apply dict_get_set, Z.eqb_eq|].
  repeat split. eexists. rewrite <- !app_assoc. reflexivity.
Qed.

Lemma handshake_takes_any_name_witness :
  exists s',
    handle_new_connection_until_wait 5 Scenario.addr_a (RecvData "NAME:  ")
      (init_state VOICE)
    = Done (Some (1%Z, [])) s'
    /\ dict_get Z.eqb 1%Z (pending s')
       = Some {| p_conn := 5; p_name := []; p_addr := Scenario.addr_a;
                 p_decision := None |}.
Proof.
  assert (P : startswith (lit "NAME:") (strip (decode_ignore "NAME:  ")) = true)
    by (vm_compute; reflexivity).
  assert (N : strip (slice_from 5 (strip (decode_ignore "NAME:  "))) = [])
    by (vm_compute; reflexivity).
  destruct (@handshake_takes_any_name 5 Scenario.addr_a "NAME:  "%string
              (init_state VOICE) eq_refl P) as (s' & H1 & H2 & _).
  rewrite N in H1, H2. exists s'. split; [exact H1|exact H2].
Defined.

(** *** After the wait *)

(** The thread stays at [ev.wait()] as long as the event of its pending id
    is not set. *)
Lemma handshake_waits_for_event c addr pid name s :
  mem_pid pid (events_set s) = false ->
  handle_new_connection_after_wait c addr pid name s = Blocked (OnEvent pid) s.
Proof.
  intros H. unfold handle_new_connection_after_wait. run. now rewrite H.
Qed.

(** C5, as the code has it. A handshake thread that wakes and does not find
    an accepting decision ends without registering a client, its connection
    closed: when its pending entry is still there (the operator rejected it)
    it sends REJECT first; when the entry is gone it sends nothing. *)
Theorem woken_without_accept c addr pid name s :
  pending_lock s = false ->
  mem_pid pid (events_set s) = true ->
  (forall info, dict_get Z.eqb pid (pending s) = Some info ->
                p_decision info <> Some true) ->
  exists s',
    handle_new_connection_after_wait c addr pid name s = Done Terminated s'
    /\ clients s' = clients s
    /\ next_user_id s' = next_user_id s
    /\ pending s' = dict_del Z.eqb pid (pending s)
    /\ In c (closed s')
    /\ trace s'
       = trace s ++ [Acquire PendingLock; Release PendingLock]
         ++ match dict_get Z.eqb pid (pending s) with
            | Some _ =>
              [Sendall c "REJECT" (send_ok c s); Close c;
               Print (lit "[REJECTED] " ++ name ++ lit " from " ++ repr_addr addr)]
            | None => [Close c]
            end.
Proof.
  intros L E D. unfold handle_new_connection_after_wait. run.
  rewrite E, L. proj.
  destruct (dict_get Z.eqb pid (pending s)) as [info|] eqn:G.
  - specialize (D info eq_refl).
    destruct (p_decision info) as [[]|]; [congruence| |];
      (eexists; split; [reflexivity|]; proj; repeat split; auto using in_eq;
       now rewrite <- !app_assoc).
  - eexists; split; [reflexivity|]; proj; repeat split; auto using in_eq.
    now rewrite <- !app_assoc.
Qed.

Example alice_rejected :
  let s := final (operator_cli_line (Some (lit "reject 1"))
                    (Scenario.alice_pending MESSAGING)) in
  exists s',
    handle_new_connection_after_wait 1 Scenario.addr_a 1 (lit "alice") s
    = Done Terminated s'
    /\ sent_to 1 (trace s') = ["REJECT"%string] /\ clients s' = [].
Proof.
  eexists. split; [vm_compute; reflexivity|]. split; vm_compute; reflexivity.
Qed.

Lemma woken_without_accept_witness :
  exists s',
    handle_new_connection_after_wait 1 Scenario.addr_a 1 (lit "alice")
      (Scenario.accepted_then_stopped MESSAGING)
    = Done Terminated s'
    /\ clients s' = [].
Proof.
  assert (L : pending_lock (Scenario.accepted_then_stopped MESSAGING) = false)
    by (vm_compute; reflexivity).
  assert (E : mem_pid 1 (events_set (Scenario.accepted_then_stopped MESSAGING))
              = true) by (vm_compute; reflexivity).
  destruct (@woken_without_accept 1 Scenario.addr_a 1 (lit "alice")
              (Scenario.accepted_then_stopped MESSAGING) L E)
    as (s' & H1 & H2 & _).
  - assert (G : dict_get Z.eqb 1%Z
                  (pending (Scenario.accepted_then_stopped MESSAGING)) = None)
      by (vm_compute; reflexivity).
    rewrite G. discriminate.
  - exists s'. split; [exact H1|]. rewrite H2. vm_compute. reflexivity.
Defined.

(** C5 as stated fails: the operator accepts alice and stops the server
    before her thread wakes; the thread finds its entry gone, and all it
    does is close the connection. *)
Lemma missing_entry_gets_no_reject :
  let s := Scenario.accepted_then_stopped MESSAGING in
  mem_pid 1%Z (events_set s) = true
  /\ dict_get Z.eqb 1%Z (pending s) = None
  /\ exists s',
       handle_new_connection_after_wait 1 Scenario.addr_a 1 (lit "alice") s
       = Done Terminated s'
       /\ trace s' = trace s ++ [Acquire PendingLock; Release PendingLock; Close 1].
Proof.
  split; [vm_compute; reflexivity|]. split; [vm_compute; reflexivity|].
  eexists. split; vm_compute; reflexivity.
Qed.

(** *** accept and reject *)

Lemma parse_command_action cmd action arg :
  parse_command cmd = (action, arg) -> action <> [] -> cmd <> [].
Proof. intros H Ha ->. vm_compute in H. congruence. Qed.

(** C8, as the code has it. An accept or reject command whose pid is not in
    the pending table (it never was, or its handshake thread has already
    taken it out) changes no entry and no event, says so to the operator,
    and returns. *)
Theorem resolve_unknown_pid_is_noop line decision arg pid s :
  parse_command (strip line)
  = ((if decision : bool then lit "accept" else lit "reject"), arg) ->
  int arg = Some pid ->
  pending_lock s = false ->
  dict_get Z.eqb pid (pending s) = None ->
  exists s',
    operator_cli_line (Some line) s = Done Continue s'
    /\ pending s' = pending s
    /\ events_set s' = events_set s
    /\ clients s' = clients s
    /\ pending_lock s' = false
    /\ trace s'
       = trace s ++ [Acquire PendingLock; Print (lit "No such pending pid");
                     Release PendingLock].
Proof.
  intros P I L G. unfold operator_cli_line.
  assert (C : strip line <> []).
  { eapply parse_command_action; [exact P|]. destruct decision; discriminate. }
  destruct (strip line) as [|x cmd] eqn:E; [congruence|].
  rewrite P.
  assert (A : arg <> []) by (intros ->; vm_compute in I; discriminate).
  destruct decision;
    repeat match goal with
           | |- context [str_eqb ?a ?b] =>
             let v := eval vm_compute in (str_eqb a b) in
             change (str_eqb a b) with v
           end; cbv iota;
    unfold resolve_command; (destruct arg as [|y arg]; [congruence|]);
    rewrite I; unfold resolve_pending; run; rewrite L; proj; rewrite G;
    (eexists; split; [reflexivity|]; proj; repeat split;
     now rewrite <- !app_assoc).
Qed.

Lemma resolve_unknown_pid_is_noop_witness :
  exists s',
    operator_cli_line (Some (lit "accept 7")) (Scenario.alice_pending VOICE)
    = Done Continue s'
    /\ pending s' = pending (Scenario.alice_pending VOICE)
    /\ events_set s' = [].
Proof.
  assert (P : parse_command (strip (lit "accept 7")) = (lit "accept", lit "7"))
    by (vm_compute; reflexivity).
  assert (I : int (lit "7") = Some 7%Z) by (vm_compute; reflexivity).
  assert (L : pending_lock (Scenario.alice_pending VOICE) = false)
    by (vm_compute; reflexivity).
  assert (G : dict_get Z.eqb 7%Z (pending (Scenario.alice_pending VOICE)) = None)
    by (vm_compute; reflexivity).
  destruct (@resolve_unknown_pid_is_noop (lit "accept 7") true (lit "7") 7%Z
              (Scenario.alice_pending VOICE) P I L G)
    as (s' & H1 & H2 & H3 & _).
  exists s'. split; [exact H1|]. split; [exact H2|].
  rewrite H3. vm_compute. reflexivity.
Defined.

(** C8 as stated fails for a pid that is resolved and still in the table:
    after [accept 1], and before alice's thread has woken, [reject 1] is not
    refused; it overwrites the decision. *)
Lemma resolved_pid_is_resolved_again :
  let s := Scenario.alice_accepted MESSAGING in
  let s' := final (operator_cli_line (Some (lit "reject 1")) s) in
  option_map p_decision (dict_get Z.eqb 1%Z (pending s)) = Some (Some true)
  /\ mem_pid 1%Z (events_set s) = true
  /\ option_map p_decision (dict_get Z.eqb 1%Z (pending s')) = Some (Some false)
  /\ trace s'
     = trace s ++ [Acquire PendingLock; Print (lit "Rejected pending 1");
                   Release PendingLock].
Proof. by_computation. Qed.

(** *** stop *)

Lemma quiet_frame : frame quiet.
Proof.
  split.
  - intros s. split; auto using incl_refl. exists []. now rewrite app_nil_r.
  - intros a b c [[t1 T1] C1 P1 E1 R1] [[t2 T2] C2 P2 E2 R2]. split;
      try congruence; eauto using incl_tran.
    exists (t1 ++ t2). now rewrite T2, T1, app_assoc.
  - intros e s. split; proj; auto using incl_refl. now exists [e].
  - intros l b s. split; proj; auto using incl_refl.
    exists []. now rewrite app_nil_r.
  - intros c s. split; proj; auto using incl_refl, incl_tl.
    exists []. now rewrite app_nil_r.
Qed.

Lemma quiet_in_trace s s' e : quiet s s' -> In e (trace s) -> In e (trace s').
Proof. intros [[t T] _ _ _ _] H. rewrite T. apply in_or_app. now left. Qed.

(** The loop of "reject all pending": every connection of the table is sent
    REJECT and closed; the table and the events are not touched. *)
Lemma reject_loop (p : dict Z pinfo) s :
  exists s',
    for_each p (fun '(_, pinfo) =>
      _ <- sendall (p_conn pinfo) "REJECT" ;; close (p_conn pinfo)) s
    = Done tt s'
    /\ quiet s s'
    /\ clients s' = clients s
    /\ pending_lock s' = pending_lock s
    /\ forall pid info, In (pid, info) p ->
         In (p_conn info) (closed s')
         /\ exists ok, In (Sendall (p_conn info) "REJECT" ok) (trace s').
Proof.
  revert s. induction p as [|[pid0 info0] p IH]; intros s.
  - exists s. split; [reflexivity|]. split; [apply (frame_refl quiet_frame)|].
    split; [reflexivity|]. split; [reflexivity|]. intros ? ? [].
  - cbn [for_each]. run.
    match goal with |- context [for_each p ?b ?st] =>
      destruct (IH st) as (s' & Hrun & Q & Hc & Hl & Hall) end.
    exists s'. split; [exact Hrun|].
    assert (Q0 : quiet s s').
    { eapply (frame_trans quiet_frame); [|exact Q].
      eapply (frame_trans quiet_frame); [apply (frame_log quiet_frame)|].
      eapply (frame_trans quiet_frame);
        [apply (frame_closed quiet_frame)|apply (frame_log quiet_frame)]. }
    split; [exact Q0|]. split; [exact Hc|]. split; [exact Hl|].
    intros pid info [[= <- <-]|Hin]; [|exact (Hall pid info Hin)].
    split.
    + apply (q_closed Q). proj. now left.
    + exists (send_ok (p_conn info0) s). eapply quiet_in_trace; [exact Q|]. proj.
      apply in_or_app. left. apply in_or_app. right. now left.
Qed.

Lemma bind_done A B (m : M A) (k : A -> M B) s a s1 :
  m s = Done a s1 -> bind m k s = k a s1.
Proof. intros H. unfold bind. now rewrite H. Qed.

Lemma stop_reject_pending_run s :
  pending_lock s = false ->
  exists s',
    stop_reject_pending s = Done tt s'
    /\ running s' = running s /\ pending s' = [] /\ events_set s' = events_set s
    /\ clients s' = clients s /\ pending_lock s' = false
    /\ (exists tr, trace s' = trace s ++ tr)
    /\ forall pid info, In (pid, info) (pending s) ->
         In (p_conn info) (closed s')
         /\ exists ok, In (Sendall (p_conn info) "REJECT" ok) (trace s').
Proof.
  intros L. unfold stop_reject_pending, with_lock.
  unfold acquire at 1. unfold bind at 1. cbn [held]. rewrite L.
  unfold bind at 1. unfold bind at 1. unfold gets at 1. proj.
  destruct (reject_loop (pending s)
              (log (Acquire PendingLock) (set_lock PendingLock true s)))
    as (s1 & Hrun & Q & Hc & Hl & Hall).
  unfold bind at 1. rewrite Hrun. run.
  eexists. split; [reflexivity|]. proj.
  destruct Q as [[t T] C P E R]. cbn in T, C, P, E, R, Hc, Hl.
  repeat split; auto.
  - rewrite T, <- !app_assoc. eexists. reflexivity.
  - now apply (Hall pid info).
  - destruct (Hall pid info H) as [_ [ok Hin]]. exists ok.
    apply in_or_app. now left.
Qed.

Lemma quiet_stop_tail :
  respects quiet (stop_disconnect_clients ;; modify (log CloseServerSock)).
Proof.
  apply (respects_bind quiet_frame).
  - unfold stop_disconnect_clients.
    apply (respects_with_lock quiet_frame).
    apply (respects_bind quiet_frame);
      [apply (respects_gets quiet_frame)|intros keys].
    apply (respects_bind quiet_frame).
    + apply (respects_for_each quiet_frame). intros c.
      apply (respects_bind quiet_frame);
        [apply (respects_sendall quiet_frame)
        |intros _; apply (respects_close quiet_frame)].
    + intros _. apply respects_modify. intros s.
      split; proj; auto using incl_refl. exists []. now rewrite app_nil_r.
  - intros _. apply respects_modify. intros s. apply (frame_log quiet_frame).
Qed.

Lemma operator_stop :
  operator_cli_line (Some (lit "stop")) = (stop_command ;; ret Break).
Proof. reflexivity. Qed.

Lemma final_bind_ret A B (m : M A) (b : B) s :
  final (bind m (fun _ => ret b) s) = final (m s).
Proof. unfold bind. destruct (m s); reflexivity. Qed.

(** C2, as the code has it. On stop, with the pending table free, every
    pending connection is sent REJECT and closed and the table is emptied;
    no decision is written and no event is set, so a handshake thread that
    was waiting for its event is still waiting after the command. *)
Theorem stop_rejects_pending_and_wakes_nobody s :
  pending_lock s = false ->
  let s' := final (operator_cli_line (Some (lit "stop")) s) in
  running s' = false
  /\ pending s' = []
  /\ events_set s' = events_set s
  /\ (forall pid info, In (pid, info) (pending s) ->
        In (p_conn info) (closed s')
        /\ exists ok, In (Sendall (p_conn info) "REJECT" ok) (trace s'))
  /\ (forall c addr pid name,
        mem_pid pid (events_set s) = false ->
        handle_new_connection_after_wait c addr pid name s'
        = Blocked (OnEvent pid) s').
Proof.
  intros L s'. subst s'. rewrite operator_stop, final_bind_ret.
  unfold stop_command.
  erewrite bind_done by reflexivity.
  erewrite bind_done by reflexivity.
  match goal with |- context [bind stop_reject_pending _ ?st] =>
    destruct (@stop_reject_pending_run st L)
      as (s1 & Hrun & Hr & Hp & He & _ & _ & _ & Hall) end.
  erewrite bind_done by exact Hrun.
  pose proof (quiet_stop_tail s1) as [[t T] C P E R].
  cbn in Hr, He.
  assert (Ev : events_set
                 (final ((stop_disconnect_clients ;; modify (log CloseServerSock)) s1))
               = events_set s) by congruence.
  split; [congruence|]. split; [congruence|]. split; [exact Ev|]. split.
  - intros pid info Hin. destruct (Hall pid info Hin) as [Hc [ok Ht]]. split.
    + now apply C.
    + exists ok. rewrite T. apply in_or_app. now left.
  - intros c addr pid name Hm. apply handshake_waits_for_event.
    now rewrite Ev.
Qed.

Lemma stop_rejects_pending_and_wakes_nobody_witness :
  let s' := Scenario.pending_then_stopped VOICE in
  pending s' = [] /\ events_set s' = []
  /\ handle_new_connection_after_wait 1 Scenario.addr_a 1 (lit "alice") s'
     = Blocked (OnEvent 1) s'.
Proof.
  assert (L : pending_lock (Scenario.alice_pending VOICE) = false)
    by (vm_compute; reflexivity).
  assert (E : mem_pid 1 (events_set (Scenario.alice_pending VOICE)) = false)
    by (vm_compute; reflexivity).
  destruct (@stop_rejects_pending_and_wakes_nobody
              (Scenario.alice_pending VOICE) L)
    as (_ & Hp & He & _ & Hw).
  cbv zeta. unfold Scenario.pending_then_stopped.
  split; [exact Hp|]. split; [rewrite He; vm_compute; reflexivity|].
  exact (Hw 1 Scenario.addr_a 1%Z (lit "alice") E).
Defined.

(** C2 as stated fails: alice is pending when the operator stops the server;
    afterwards her entry is gone without a decision having been written, her
    event is not set, and her handshake thread is still at [ev.wait()]. *)
Lemma stop_leaves_waiter_blocked :
  let s := Scenario.alice_pending VOICE in
  let s' := final (operator_cli_line (Some (lit "stop")) s) in
  option_map p_decision (dict_get Z.eqb 1%Z (pending s)) = Some None
  /\ dict_get Z.eqb 1%Z (pending s') = None
  /\ mem_pid 1 (events_set s') = false
  /\ handle_new_connection_after_wait 1 Scenario.addr_a 1 (lit "alice") s'
     = Blocked (OnEvent 1) s'
  /\ sent_to 1 (trace s') = ["REJECT"%string]
  /\ closed s' = [1].
Proof. by_computation. Qed.

(** *** Broadcasts *)

Lemma log_all_spec es s :
  trace (log_all es s) = trace s ++ es
  /\ clients (log_all es s) = clients s
  /\ closed (log_all es s) = closed s
  /\ peer_down (log_all es s) = peer_down s
  /\ clients_lock (log_all es s) = clients_lock s
  /\ running (log_all es s) = running s
  /\ MODE (log_all es s) = MODE s.
Proof.
  revert s. induction es as [|e es IH]; intros s; simpl.
  - rewrite app_nil_r. repeat split.
  - destruct (IH (log e s)) as (T & C & Cl & P & L & R & Mo).
    unfold log_all in *. rewrite T, C, Cl, P, L, R, Mo. proj.
    rewrite <- app_assoc. repeat split.
Qed.

(** A loop of sends that all succeed never calls [_disconnect_conn]. *)
Lemma fan_loop_healthy disconnect payload ex keys s :
  (forall k, In k keys -> is_excluded k ex = false -> send_ok k s = true) ->
  for_each keys (fan_body disconnect payload ex) s
  = Done tt (log_all (deliveries payload ex keys) s).
Proof.
  revert s. induction keys as [|k keys IH]; intros s H; [reflexivity|].
  cbn [for_each]. unfold bind, fan_body at 1, deliveries. cbn [filter].
  destruct (is_excluded k ex) eqn:E; cbn [negb].
  - cbn [ret]. apply IH. intros k' Hin. apply H. now right.
  - unfold bind, sendall. rewrite (H k (or_introl eq_refl) E). cbn [ret map].
    rewrite IH; [reflexivity|].
    intros k' Hin Hex. unfold send_ok. proj. apply H; [now right|exact Hex].
Qed.

Lemma fan_out_healthy disconnect payload ex s :
  clients_lock s = false ->
  (forall k, In k (dict_keys (clients s)) -> is_excluded k ex = false ->
             send_ok k s = true) ->
  fan_out disconnect payload ex s
  = Done tt
      (log (Release ClientsLock)
         (set_lock ClientsLock false
            (log_all (deliveries payload ex (dict_keys (clients s)))
               (log (Acquire ClientsLock) (set_lock ClientsLock true s))))).
Proof.
  intros L H. rewrite fan_out_unfold, L. now rewrite fan_loop_healthy.
Qed.

(** The loop of a broadcast logs sends only, and keeps the lock. *)
Lemma fan_loop_sends notify payload ex keys s :
  clients_lock s = true ->
  exists tr,
    trace (final (for_each keys (fan_body (disconnect_with notify) payload ex) s))
    = trace s ++ tr
    /\ forallb is_send tr = true.
Proof.
  revert s. induction keys as [|k keys IH]; intros s L.
  - exists []. now rewrite app_nil_r.
  - cbn [for_each]. unfold bind, fan_body at 1.
    destruct (is_excluded k ex); cbn [ret].
    + now apply IH.
    + unfold bind, sendall. destruct (send_ok k s); cbn [ret].
      * destruct (IH (log (Sendall k payload true) s) L) as (tr & T & F).
        exists (Sendall k payload true :: tr). rewrite T. proj.
        now rewrite <- app_assoc.
      * rewrite disconnect_with_locked by exact L. cbn [final]. proj.
        now exists [Sendall k payload false].
Qed.

Lemma sends_under_sends l tr rest :
  forallb is_send tr = true ->
  sends_under l true (tr ++ rest) = tr ++ sends_under l true rest.
Proof.
  induction tr as [|e tr IH]; intros H; [reflexivity|].
  cbn [forallb] in H. apply andb_true_iff in H as [He Ht].
  destruct e; try discriminate. cbn. now rewrite IH.
Qed.

(** Every send of a broadcast is made while [clients_lock] is taken: the log
    the broadcast adds is the lock being taken, then sends only, then (when
    no send raised) the lock being released. *)
Lemma broadcast_sends_under_clients_lock text ex s :
  clients_lock s = false ->
  exists tr,
    trace (final (broadcast_message text ex s)) = trace s ++ tr
    /\ sends_under ClientsLock false tr = filter is_send tr.
Proof.
  intros L. unfold broadcast_message. cbn [broadcast_message_at].
  rewrite fan_out_unfold, L.
  set (st := log (Acquire ClientsLock) (set_lock ClientsLock true s)).
  destruct (@fan_loop_sends (fun t => broadcast_message_at 0 t None)
              (encode text) ex (dict_keys (clients s)) st eq_refl)
    as (tr & T & F).
  assert (U : sends_under ClientsLock true tr = tr).
  { rewrite <- (app_nil_r tr) at 1. rewrite sends_under_sends by exact F.
    cbn. apply app_nil_r. }
  assert (V : filter is_send tr = tr) by now apply forallb_filter_id.
  destruct (for_each _ _ st) as [[] s1|w s1|s1]; cbn [final] in T |- *;
    proj; subst st; proj_in T.
  - exists ([Acquire ClientsLock] ++ tr ++ [Release ClientsLock]). split.
    + rewrite T, <- !app_assoc. reflexivity.
    + cbn. rewrite sends_under_sends by exact F. rewrite filter_app. cbn.
      now rewrite V.
  - exists ([Acquire ClientsLock] ++ tr). split.
    + rewrite T, <- !app_assoc. reflexivity.
    + cbn. now rewrite U, V.
  - exists ([Acquire ClientsLock] ++ tr). split.
    + rewrite T, <- !app_assoc. reflexivity.
    + cbn. now rewrite U, V.
Qed.

(** Removing a client that is in the registry never comes back: the call of
    [broadcast_message] inside [with clients_lock] waits for the lock its
    own thread holds.  The client is removed and closed, the lock stays
    taken, and the "has left the session" notice is not sent. *)
Lemma disconnect_registered_client_blocks c u s :
  clients_lock s = false ->
  dict_get Nat.eqb c (clients s) = Some u ->
  exists s',
    _disconnect_conn c s = Blocked (OnLock ClientsLock) s'
    /\ clients_lock s' = true
    /\ clients s' = dict_del Nat.eqb c (clients s)
    /\ exists line, trace s' = trace s ++ [Acquire ClientsLock; Close c; Print line].
Proof.
  intros L G. unfold _disconnect_conn, _disconnect_conn_at, disconnect_with.
  run. rewrite L. proj. rewrite G.
  rewrite broadcast_message_at_locked by reflexivity.
  eexists. split; [reflexivity|]. proj. repeat split.
  eexists. now rewrite <- !app_assoc.
Qed.

(** Once a thread is stuck holding [clients_lock], no broadcast gets
    through. *)
Lemma broadcast_blocked_when_locked text ex s :
  clients_lock s = true ->
  broadcast_message text ex s = Blocked (OnLock ClientsLock) s.
Proof. apply broadcast_message_at_locked. Qed.

Lemma others_healthy c s :
  (forall k, In k (others c s) -> send_ok k s = true) ->
  forall k, In k (dict_keys (clients s)) -> is_excluded k (Some c) = false ->
            send_ok k s = true.
Proof.
  intros H k Hin Hex. apply H. unfold others. apply filter_In.
  split; [exact Hin|]. cbn in Hex. now rewrite Hex.
Qed.

(** A broadcast from a state where the lock is free and every send
    succeeds: each client but the excluded one gets the payload once, in the
    order of the registry. *)
Lemma broadcast_message_healthy text c s :
  clients_lock s = false ->
  (forall k, In k (others c s) -> send_ok k s = true) ->
  exists s',
    broadcast_message text (Some c) s = Done tt s'
    /\ trace s'
       = trace s ++ [Acquire ClientsLock]
         ++ map (fun k => Sendall k (encode text) true) (others c s)
         ++ [Release ClientsLock]
    /\ clients s' = clients s /\ clients_lock s' = false
    /\ closed s' = closed s /\ peer_down s' = peer_down s
    /\ running s' = running s.
Proof.
  intros L H. unfold broadcast_message. cbn [broadcast_message_at].
  rewrite fan_out_healthy; [|exact L|apply others_healthy; exact H].
  eexists. split; [reflexivity|]. proj.
  match goal with |- context [log_all ?es ?st] =>
    destruct (log_all_spec es st) as (T & C & Cl & P & _ & R & _) end.
  rewrite T, C, Cl, P, R. proj. rewrite <- !app_assoc. repeat split.
Qed.

Lemma broadcast_audio_healthy data c s :
  clients_lock s = false ->
  (forall k, In k (others c s) -> send_ok k s = true) ->
  exists s',
    broadcast_audio data (Some c) s = Done tt s'
    /\ trace s'
       = trace s ++ [Acquire ClientsLock]
         ++ map (fun k => Sendall k data true) (others c s)
         ++ [Release ClientsLock].
Proof.
  intros L H. unfold broadcast_audio, broadcast_audio_at.
  rewrite fan_out_healthy; [|exact L|apply others_healthy; exact H].
  eexists. split; [reflexivity|]. proj.
  match goal with |- context [log_all ?es ?st] =>
    destruct (log_all_spec es st) as (T & _) end.
  rewrite T. proj. rewrite <- !app_assoc. reflexivity.
Qed.

(** C1 on the code. bob (connection 2) and alice (connection 1) are
    registered.  A text broadcast that excludes alice sends to bob between
    taking and releasing [clients_lock]: of all the sends in the log, the
    one of the broadcast is made under the lock (the MODE tokens were sent
    after the lock was released).  And removing bob never reaches its
    notification: the thread stops for good inside [_disconnect_conn], the
    lock taken, and alice is sent nothing. *)
Theorem broadcast_sends_while_holding_clients_lock :
  let s := Scenario.two_clients MESSAGING in
  let s' := final (broadcast_message (lit "alice: hi") (Some 1) s) in
  let r := _disconnect_conn 2 s in
  trace s'
  = trace s ++ [Acquire ClientsLock; Sendall 2 "alice: hi" true;
                Release ClientsLock]
  /\ sends_under ClientsLock false (trace s') = [Sendall 2 "alice: hi" true]
  /\ r = Blocked (OnLock ClientsLock) (final r)
  /\ clients_lock (final r) = true
  /\ sent_to 1 (trace (final r)) = sent_to 1 (trace s).
Proof. by_computation. Qed.

(** *** The relay loops *)

Lemma messaging_chunk_blank c name data s :
  len data <> 0 -> strip (decode_ignore data) = [] ->
  messaging_chunk c name (RecvData data) s = Done Continue s.
Proof.
  intros N E. unfold messaging_chunk.
  destruct (Nat.eqb_spec (len data) 0); [contradiction|]. now rewrite E.
Qed.

Lemma messaging_chunk_leave c name data s :
  len data <> 0 -> is_leave (strip (decode_ignore data)) = true ->
  messaging_chunk c name (RecvData data) s = Done Break s.
Proof.
  intros N E. unfold messaging_chunk.
  destruct (Nat.eqb_spec (len data) 0); [contradiction|].
  destruct (strip (decode_ignore data)); [discriminate E|]. now rewrite E.
Qed.

(** With the lock free and every send succeeding, a text that is neither
    blank nor the leave command goes to every other client as
    "<name>: <text>", and to the sender nothing. *)
Lemma messaging_chunk_relays c name data s :
  len data <> 0 ->
  strip (decode_ignore data) <> [] ->
  is_leave (strip (decode_ignore data)) = false ->
  clients_lock s = false ->
  (forall k, In k (others c s) -> send_ok k s = true) ->
  let full_msg := name ++ lit ": " ++ strip (decode_ignore data) in
  exists s',
    messaging_chunk c name (RecvData data) s = Done Continue s'
    /\ trace s'
       = trace s ++ [Print full_msg; Acquire ClientsLock]
         ++ map (fun k => Sendall k (encode full_msg) true) (others c s)
         ++ [Release ClientsLock].
Proof.
  intros N E Lv L H full_msg. unfold messaging_chunk.
  destruct (Nat.eqb_spec (len data) 0); [contradiction|].
  destruct (strip (decode_ignore data)) as [|x m] eqn:Em; [congruence|].
  rewrite Lv. fold full_msg. unfold bind at 1, print, modify.
  destruct (@broadcast_message_healthy full_msg c (log (Print full_msg) s) L H)
    as (s' & Hrun & T & _).
  unfold bind at 1. rewrite Hrun. cbn [ret]. exists s'. split; [reflexivity|].
  rewrite T. proj. now rewrite <- app_assoc.
Qed.

Lemma voice_chunk_empty c s : voice_chunk c (RecvData "") s = Done Break s.
Proof. reflexivity. Qed.

Lemma voice_chunk_leave c data s :
  len data <> 0 -> len data < 64 ->
  is_leave (strip (decode_ignore data)) = true ->
  voice_chunk c (RecvData data) s = Done Break s.
Proof.
  intros N Sh E. unfold voice_chunk.
  destruct (Nat.eqb_spec (len data) 0); [contradiction|].
  destruct (Nat.ltb_spec (len data) 64); [|lia]. now rewrite E.
Qed.

(** With the lock free and every send succeeding, a chunk that is not the
    leave command goes unchanged to every other client. *)
Lemma voice_chunk_forwards c data s :
  len data <> 0 ->
  (len data < 64 -> is_leave (strip (decode_ignore data)) = false) ->
  clients_lock s = false ->
  (forall k, In k (others c s) -> send_ok k s = true) ->
  exists s',
    voice_chunk c (RecvData data) s = Done Continue s'
    /\ trace s'
       = trace s ++ [Acquire ClientsLock]
         ++ map (fun k => Sendall k data true) (others c s)
         ++ [Release ClientsLock].
Proof.
  intros N Lv L H. unfold voice_chunk.
  destruct (Nat.eqb_spec (len data) 0); [contradiction|].
  assert (B : (len data <? 64) && is_leave (strip (decode_ignore data)) = false).
  { destruct (Nat.ltb_spec (len data) 64); [now rewrite Lv|reflexivity]. }
  rewrite B.
  destruct (@broadcast_audio_healthy data c s L H) as (s' & Hrun & T).
  unfold bind. rewrite Hrun. cbn [ret]. now exists s'.
Qed.

(** C6 on the code. alice, bob and carol are registered and bob's peer is
    gone.  alice's text "hello" is sent to bob first; that send raises,
    [_disconnect_conn] is called with [clients_lock] taken and never
    returns: the relay thread stops there and carol is never sent
    "alice: hello".  And with all peers well: once carol has left, her
    thread is stuck in [_disconnect_conn] with the lock taken, and alice's
    "hello" reaches nobody; bob is still registered and is sent nothing. *)
Theorem text_relay_stops_at_failed_send :
  let s := Scenario.three_clients_bob_down MESSAGING in
  let r := messaging_chunk 1 (lit "alice") (RecvData "hello") s in
  let s2 := Scenario.carol_left MESSAGING in
  let r2 := messaging_chunk 1 (lit "alice") (RecvData "hello") s2 in
  dict_keys (clients s) = [1; 2; 3]
  /\ clients_lock s = false
  /\ r = Blocked (OnLock ClientsLock) (final r)
  /\ trace (final r)
     = trace s ++ [Print (lit "alice: hello"); Acquire ClientsLock;
                   Sendall 2 "alice: hello" false]
  /\ sent_to 3 (trace (final r)) = sent_to 3 (trace s)
  /\ dict_keys (clients s2) = [1; 2]
  /\ peer_down s2 = []
  /\ r2 = Blocked (OnLock ClientsLock) (final r2)
  /\ trace (final r2) = trace s2 ++ [Print (lit "alice: hello")].
Proof. by_computation. Qed.

(** C7 on the code. The same in VOICE mode: alice's chunk is sent to bob,
    whose peer is gone; the send raises and the relay thread stops for good
    in [_disconnect_conn]; carol never gets the chunk.  And with all peers
    well: once carol has left, her thread is stuck with the lock taken, and
    alice's chunk is forwarded to nobody; bob is still registered. *)
Theorem audio_relay_stops_at_failed_send :
  let s := Scenario.three_clients_bob_down VOICE in
  let r := voice_chunk 1 (RecvData "pcm-audio-bytes") s in
  let s2 := Scenario.carol_left VOICE in
  let r2 := voice_chunk 1 (RecvData "pcm-audio-bytes") s2 in
  dict_keys (clients s) = [1; 2; 3]
  /\ clients_lock s = false
  /\ r = Blocked (OnLock ClientsLock) (final r)
  /\ trace (final r)
     = trace s ++ [Acquire ClientsLock; Sendall 2 "pcm-audio-bytes" false]
  /\ sent_to 3 (trace (final r)) = sent_to 3 (trace s)
  /\ dict_keys (clients s2) = [1; 2]
  /\ peer_down s2 = []
  /\ r2 = Blocked (OnLock ClientsLock) s2.
Proof. by_computation. Qed.

(** *** Entering a voice call *)




(** *** No run meets the depth bound *)

Lemma within_depth_ret A (a : A) : within_depth (ret a).
Proof. intros s s'. discriminate. Qed.

Lemma within_depth_gets A (f : state -> A) : within_depth (gets f).
Proof. intros s s'. discriminate. Qed.

Lemma within_depth_modify f : within_depth (modify f).
Proof. intros s s'. discriminate. Qed.

Lemma within_depth_acquire l : within_depth (acquire l).
Proof. intros s s'. unfold acquire. destruct (held l s); discriminate. Qed.

Lemma within_depth_sendall c d : within_depth (sendall c d).
Proof. intros s s'. discriminate. Qed.

Lemma within_depth_event_wait pid : within_depth (event_wait pid).
Proof. intros s s'. unfold event_wait. destruct (mem_pid _ _); discriminate. Qed.

Lemma within_depth_bind A B (m : M A) (k : A -> M B) :
  within_depth m -> (forall a, within_depth (k a)) -> within_depth (bind m k).
Proof.
  intros Hm Hk s s'. unfold bind. specialize (Hm s).
  destruct (m s) as [a s1|w s1|s1].
  - apply Hk.
  - discriminate.
  - now destruct (Hm s1).
Qed.

Lemma within_depth_with_lock A l (body : M A) :
  within_depth body -> within_depth (with_lock l body).
Proof.
  intros H. unfold with_lock.
  apply within_depth_bind; [apply within_depth_acquire|intros _].
  apply within_depth_bind; [exact H|intros x].
  apply within_depth_bind; [apply within_depth_modify|intros _].
  apply within_depth_ret.
Qed.

Lemma within_depth_for_each A (l : list A) body :
  (forall x, within_depth (body x)) -> within_depth (for_each l body).
Proof.
  intros H. induction l as [|x l IH]; cbn [for_each].
  - apply within_depth_ret.
  - apply within_depth_bind; auto.
Qed.

Lemma within_depth_relay_loop turn inputs :
  (forall i, within_depth (turn i)) -> within_depth (relay_loop turn inputs).
Proof.
  intros H. induction inputs as [|i inputs IH]; cbn [relay_loop].
  - apply within_depth_bind; [apply within_depth_gets|].
    intros []; apply within_depth_ret.
  - apply within_depth_bind; [apply within_depth_gets|].
    intros []; [|apply within_depth_ret].
    apply within_depth_bind; [apply H|].
    intros []; [apply within_depth_ret|exact IH].
Qed.

Lemma within_depth_broadcast_message text ex :
  within_depth (broadcast_message text ex).
Proof. intros s s'. apply (broadcast_message_at_depth 0 text ex s). Qed.

Lemma within_depth_broadcast_audio data ex :
  within_depth (broadcast_audio data ex).
Proof. intros s s'. apply (broadcast_audio_at_depth 0 data ex s). Qed.

Lemma within_depth__disconnect_conn c : within_depth (_disconnect_conn c).
Proof. intros s s'. apply (_disconnect_conn_at_depth 0 c s). Qed.

Ltac within_depth_auto :=
  repeat first
    [ match goal with
      | |- within_depth (match ?x with _ => _ end) => destruct x
      end
    | apply within_depth_ret
    | apply within_depth_gets
    | apply within_depth_sendall
    | apply within_depth_event_wait
    | apply within_depth_broadcast_message
    | apply within_depth_broadcast_audio
    | apply within_depth__disconnect_conn
    | apply within_depth_with_lock
    | apply within_depth_for_each; intros ?
    | apply within_depth_relay_loop; intros ?
    | apply within_depth_bind; [|intros ?]
    | match goal with
      | |- within_depth (modify _) => apply within_depth_modify
      | |- within_depth (print _) => apply within_depth_modify
      | |- within_depth (close _) => apply within_depth_modify
      | |- within_depth (event_set _) => apply within_depth_modify
      end ].

Lemma within_depth_handle_accepted_client c addr user_id name inputs :
  within_depth (handle_accepted_client c addr user_id name inputs).
Proof.
  unfold handle_accepted_client, voice_entry, messaging_entry.
  within_depth_auto; unfold voice_chunk, messaging_chunk; within_depth_auto.
Qed.

Lemma within_depth_handle_new_connection_until_wait c addr r :
  within_depth (handle_new_connection_until_wait c addr r).
Proof.
  unfold handle_new_connection_until_wait, create_pending. within_depth_auto.
Qed.

Lemma within_depth_handle_new_connection_after_wait c addr pid name :
  within_depth (handle_new_connection_after_wait c addr pid name).
Proof.
  unfold handle_new_connection_after_wait, register_client. within_depth_auto.
Qed.

Lemma within_depth_operator_cli_line line :
  within_depth (operator_cli_line line).
Proof.
  unfold operator_cli_line.
  destruct (match line with Some l => strip l | None => lit "stop" end);
    [within_depth_auto|].
  destruct (parse_command _) as [action arg].
  repeat match goal with
         | |- within_depth (if ?b then _ else _) => destruct b
         end;
    unfold pending_command, resolve_command, resolve_pending, list_command,
      kick_command, broadcast_command, stop_command, stop_reject_pending,
      stop_disconnect_clients;
    within_depth_auto.
Qed.

(* ===================================================================== *)
(** ** Further properties of the server *)
(* ===================================================================== *)

(** *** The loop of a broadcast, send by send *)

Lemma sent_to_app c tr1 tr2 :
  sent_to c (tr1 ++ tr2) = sent_to c tr1 ++ sent_to c tr2.
Proof.
  induction tr1 as [|e tr1 IH]; [reflexivity|].
  destruct e; cbn; try exact IH.
  destruct (Nat.eqb c c0); cbn; now rewrite IH.
Qed.

Lemma send_ok_log c e s : send_ok c (log e s) = send_ok c s.
Proof. reflexivity. Qed.

(** The loop stops at the first send that raises: the connections before it
    have the payload, the one that raised is neither removed nor closed, the
    ones after it get nothing. *)
Lemma fan_loop_fails notify payload ex pre k post s :
  clients_lock s = true ->
  (forall p, In p pre -> is_excluded p ex = false -> send_ok p s = true) ->
  is_excluded k ex = false ->
  send_ok k s = false ->
  for_each (pre ++ k :: post) (fan_body (disconnect_with notify) payload ex) s
  = Blocked (OnLock ClientsLock)
      (log (Sendall k payload false) (log_all (deliveries payload ex pre) s)).
Proof.
  revert s. induction pre as [|p pre IH]; intros s L H Ek Fk.
  - cbn [app for_each]. unfold bind, fan_body at 1. rewrite Ek.
    unfold bind, sendall. rewrite Fk.
    now rewrite disconnect_with_locked by exact L.
  - cbn [app for_each]. unfold bind, fan_body at 1, deliveries. cbn [filter].
    destruct (is_excluded p ex) eqn:Ep; cbn [negb ret].
    + apply IH; auto. intros q Hq. apply H. now right.
    + unfold bind, sendall. rewrite (H p (or_introl eq_refl) Ep). cbn [ret map].
      rewrite IH; auto.
      intros q Hq Eq. rewrite send_ok_log. apply H; [now right|exact Eq].
Qed.

Lemma fan_out_fails notify payload ex pre k post s :
  clients_lock s = false ->
  dict_keys (clients s) = pre ++ k :: post ->
  (forall p, In p pre -> is_excluded p ex = false -> send_ok p s = true) ->
  is_excluded k ex = false ->
  send_ok k s = false ->
  exists s',
    fan_out (disconnect_with notify) payload ex s = Blocked (OnLock ClientsLock) s'
    /\ trace s'
       = trace s ++ [Acquire ClientsLock] ++ deliveries payload ex pre
         ++ [Sendall k payload false]
    /\ clients s' = clients s
    /\ clients_lock s' = true
    /\ closed s' = closed s.
Proof.
  intros L K H Ek Fk. rewrite fan_out_unfold, L, K.
  rewrite fan_loop_fails; auto.
  eexists. split; [reflexivity|]. proj.
  match goal with |- context [log_all ?es ?st] =>
    destruct (log_all_spec es st) as (T & C & Cl & _ & Lk & _) end.
  rewrite T, C, Cl, Lk. proj. rewrite <- !app_assoc. repeat split.
Qed.

(** X1. A broadcast stops at the first send that raises.  With the lock
    free, the registry keys being [pre ++ k :: post], the sends to [pre]
    succeeding and the send to [k] raising, [broadcast_message] and
    [broadcast_audio] deliver to [pre], try [k], and then wait for ever for
    [clients_lock]: [k] stays registered and open, [post] is sent nothing,
    and the lock stays taken. *)
Theorem broadcast_stops_at_first_failed_send text data ex pre k post s :
  clients_lock s = false ->
  dict_keys (clients s) = pre ++ k :: post ->
  (forall p, In p pre -> is_excluded p ex = false -> send_ok p s = true) ->
  is_excluded k ex = false ->
  send_ok k s = false ->
  (exists s',
     broadcast_message text ex s = Blocked (OnLock ClientsLock) s'
     /\ trace s'
        = trace s ++ [Acquire ClientsLock] ++ deliveries (encode text) ex pre
          ++ [Sendall k (encode text) false]
     /\ clients s' = clients s /\ clients_lock s' = true
     /\ closed s' = closed s)
  /\ (exists s',
        broadcast_audio data ex s = Blocked (OnLock ClientsLock) s'
        /\ trace s'
           = trace s ++ [Acquire ClientsLock] ++ deliveries data ex pre
             ++ [Sendall k data false]
        /\ clients s' = clients s /\ clients_lock s' = true
        /\ closed s' = closed s).
Proof.
  intros L K H Ek Fk. split.
  - unfold broadcast_message. cbn [broadcast_message_at].
    eapply fan_out_fails; eauto.
  - unfold broadcast_audio, broadcast_audio_at, _disconnect_conn_at.
    eapply fan_out_fails; eauto.
Qed.

Lemma broadcast_stops_at_first_failed_send_witness :
  exists s',
    broadcast_message (lit "hi") (Some 1)
      (Scenario.three_clients_bob_down MESSAGING)
    = Blocked (OnLock ClientsLock) s'
    /\ clients s' = clients (Scenario.three_clients_bob_down MESSAGING)
    /\ clients_lock s' = true.
Proof.
  assert (L : clients_lock (Scenario.three_clients_bob_down MESSAGING) = false)
    by (vm_compute; reflexivity).
  assert (K : dict_keys (clients (Scenario.three_clients_bob_down MESSAGING))
              = [1] ++ 2 :: [3]) by (vm_compute; reflexivity).
  assert (F : send_ok 2 (Scenario.three_clients_bob_down MESSAGING) = false)
    by (vm_compute; reflexivity).
  destruct (@broadcast_stops_at_first_failed_send (lit "hi") "x"%string
              (Some 1) [1] 2 [3] (Scenario.three_clients_bob_down MESSAGING)
              L K)
    as [(s' & R & _ & C & Lk & _) _].
  - intros p [<-|[]] E. discriminate E.
  - reflexivity.
  - exact F.
  - exists s'. split; [exact R|]. split; [exact C|exact Lk].
Defined.

(** What a loop of successful sends gives one connection. *)
Lemma sent_to_deliveries payload ex keys k :
  NoDup keys ->
  sent_to k (deliveries payload ex keys)
  = if mem_conn k keys && negb (is_excluded k ex) then [payload] else [].
Proof.
  unfold deliveries, mem_conn.
  induction keys as [|q keys IH]; intros N; [reflexivity|].
  inversion N as [|? ? Hq N']; subst. cbn [filter existsb].
  destruct (Nat.eqb_spec k q) as [->|Hkq].
  - cbn [orb andb].
    assert (Z : sent_to q (map (fun k => Sendall k payload true)
                             (filter (fun k => negb (is_excluded k ex)) keys))
                = []).
    { rewrite IH by exact N'.
      assert (M : existsb (Nat.eqb q) keys = false).
      { apply not_true_is_false. intros M. apply existsb_exists in M.
        destruct M as (x & Hx & E). apply Nat.eqb_eq in E. now subst. }
      now rewrite M. }
    destruct (is_excluded q ex); cbn [negb map sent_to].
    + exact Z.
    + rewrite Nat.eqb_refl. now rewrite Z.
  - cbn [orb]. destruct (is_excluded q ex); cbn [negb map sent_to].
    + now apply IH.
    + destruct (Nat.eqb_spec k q); [contradiction|]. now apply IH.
Qed.

(** X2. A broadcast whose sends all succeed reaches every registered
    connection but the excluded one exactly once and nobody else.  With the
    lock free and no key twice in the registry, [broadcast_message] and
    [broadcast_audio] return, the lock is free again, the registry and the
    closed connections are as before, and what the call sent to a connection
    [k] is the payload once when [k] is registered and not excluded, and
    nothing otherwise. *)
Theorem broadcast_reaches_each_client_once text data ex s :
  clients_lock s = false ->
  NoDup (dict_keys (clients s)) ->
  (forall k, In k (dict_keys (clients s)) -> is_excluded k ex = false ->
             send_ok k s = true) ->
  (exists s',
     broadcast_message text ex s = Done tt s'
     /\ clients s' = clients s /\ clients_lock s' = false
     /\ closed s' = closed s
     /\ forall k,
          sent_to k (trace s')
          = sent_to k (trace s)
            ++ if mem_conn k (dict_keys (clients s)) && negb (is_excluded k ex)
               then [encode text] else [])
  /\ (exists s',
        broadcast_audio data ex s = Done tt s'
        /\ clients s' = clients s /\ clients_lock s' = false
        /\ closed s' = closed s
        /\ forall k,
             sent_to k (trace s')
             = sent_to k (trace s)
               ++ if mem_conn k (dict_keys (clients s)) && negb (is_excluded k ex)
                  then [data] else []).
Proof.
  intros L N H.
  assert (G : forall disconnect payload,
    exists s',
      fan_out disconnect payload ex s = Done tt s'
      /\ clients s' = clients s /\ clients_lock s' = false
      /\ closed s' = closed s
      /\ forall k,
           sent_to k (trace s')
           = sent_to k (trace s)
             ++ if mem_conn k (dict_keys (clients s)) && negb (is_excluded k ex)
                then [payload] else []).
  { intros disconnect payload. rewrite fan_out_healthy by assumption.
    eexists. split; [reflexivity|]. proj.
    match goal with |- context [log_all ?es ?st] =>
      destruct (log_all_spec es st) as (T & C & Cl & _) end.
    rewrite T, C, Cl. proj. repeat split. intros k.
    rewrite !sent_to_app. cbn [sent_to]. rewrite !app_nil_r.
    now rewrite sent_to_deliveries by exact N. }
  split.
  - unfold broadcast_message. cbn [broadcast_message_at]. apply G.
  - unfold broadcast_audio, broadcast_audio_at. apply G.
Qed.

Lemma broadcast_reaches_each_client_once_witness :
  exists s',
    broadcast_message (lit "hi") (Some 1) (Scenario.three_clients MESSAGING)
    = Done tt s'
    /\ clients s' = clients (Scenario.three_clients MESSAGING).
Proof.
  assert (L : clients_lock (Scenario.three_clients MESSAGING) = false)
    by (vm_compute; reflexivity).
  assert (K : dict_keys (clients (Scenario.three_clients MESSAGING)) = [1; 2; 3])
    by (vm_compute; reflexivity).
  assert (N : NoDup (dict_keys (clients (Scenario.three_clients MESSAGING)))).
  { rewrite K. repeat constructor; cbn; intuition discriminate. }
  assert (H : forall k,
             In k (dict_keys (clients (Scenario.three_clients MESSAGING))) ->
             is_excluded k (Some 1) = false ->
             send_ok k (Scenario.three_clients MESSAGING) = true).
  { rewrite K. intros k [<-|[<-|[<-|[]]]] _; vm_compute; reflexivity. }
  destruct (@broadcast_reaches_each_client_once (lit "hi") "x"%string (Some 1)
              (Scenario.three_clients MESSAGING) L N H)
    as [(s' & R & C & _) _].
  exists s'. split; [exact R|exact C].
Defined.

(** *** No echo *)

Lemma fan_loop_no_echo notify payload c keys s :
  clients_lock s = true ->
  sent_to c (trace (final (for_each keys
                             (fan_body (disconnect_with notify) payload (Some c))
                             s)))
  = sent_to c (trace s).
Proof.
  revert s. induction keys as [|k keys IH]; intros s L; [reflexivity|].
  cbn [for_each]. unfold bind, fan_body at 1. cbn [is_excluded].
  destruct (Nat.eqb_spec k c) as [->|Hk]; cbn [ret].
  - now apply IH.
  - unfold bind, sendall. destruct (send_ok k s); cbn [ret].
    + rewrite IH by exact L. proj. rewrite sent_to_app. cbn [sent_to].
      destruct (Nat.eqb_spec c k); [congruence|]. apply app_nil_r.
    + rewrite disconnect_with_locked by exact L. cbn [final]. proj.
      rewrite sent_to_app. cbn [sent_to].
      destruct (Nat.eqb_spec c k); [congruence|]. apply app_nil_r.
Qed.

Lemma fan_out_no_echo notify payload c s :
  sent_to c (trace (final (fan_out (disconnect_with notify) payload (Some c) s)))
  = sent_to c (trace s).
Proof.
  rewrite fan_out_unfold. destruct (clients_lock s); [reflexivity|].
  match goal with |- context [for_each ?k ?b ?st] =>
    pose proof (@fan_loop_no_echo notify payload c k st eq_refl) as E;
    destruct (for_each k b st) as [[] s1|w s1|s1] end;
    cbn [final] in *; proj; proj_in E;
    rewrite ?sent_to_app in *; cbn [sent_to] in *;
    rewrite ?app_nil_r in *; exact E.
Qed.

Lemma messaging_chunk_no_echo c name r s :
  sent_to c (trace (final (messaging_chunk c name r s))) = sent_to c (trace s).
Proof.
  destruct r as [data| | |]; try reflexivity. unfold messaging_chunk.
  destruct (len data =? 0)%nat; [reflexivity|].
  destruct (strip (decode_ignore data)) as [|x m]; [reflexivity|].
  destruct (is_leave (x :: m)); [reflexivity|].
  unfold bind at 1, print, modify. rewrite final_bind_ret.
  unfold broadcast_message. cbn [broadcast_message_at].
  rewrite fan_out_no_echo. proj. rewrite sent_to_app. apply app_nil_r.
Qed.

Lemma voice_chunk_no_echo c r s :
  sent_to c (trace (final (voice_chunk c r s))) = sent_to c (trace s).
Proof.
  destruct r as [data| | |]; try reflexivity. unfold voice_chunk.
  destruct (len data =? 0)%nat; [reflexivity|].
  destruct (_ && _); [reflexivity|].
  rewrite final_bind_ret. unfold broadcast_audio, broadcast_audio_at.
  apply fan_out_no_echo.
Qed.

(** What every turn keeps, the loop keeps. *)
Lemma relay_loop_keeps X (Q : state -> X) turn inputs s :
  (forall i st, Q (final (turn i st)) = Q st) ->
  Q (final (relay_loop turn inputs s)) = Q s.
Proof.
  intros H. revert s. induction inputs as [|i inputs IH]; intros s;
    cbn [relay_loop]; unfold bind at 1, gets; destruct (running s);
    try reflexivity.
  unfold bind. specialize (H i s).
  destruct (turn i s) as [[] s1|w s1|s1]; cbn [final] in *; try exact H.
  now rewrite IH.
Qed.

(** X3. The relay never echoes: whatever a client sends, in whatever state
    the server is, the relay loop of its session sends nothing to the
    client's own connection, in MESSAGING and in VOICE mode. *)
Theorem relay_never_echoes c name inputs s :
  sent_to c (trace (final (relay_loop (messaging_chunk c name) inputs s)))
  = sent_to c (trace s)
  /\ sent_to c (trace (final (relay_loop (voice_chunk c) inputs s)))
     = sent_to c (trace s).
Proof.
  split.
  - apply (relay_loop_keeps (fun st => sent_to c (trace st))).
    intros i st. apply messaging_chunk_no_echo.
  - apply (relay_loop_keeps (fun st => sent_to c (trace st))).
    intros i st. apply voice_chunk_no_echo.
Qed.

(** *** After leave *)

(** A turn that ends the loop ends it: what comes after is not read. *)
Lemma relay_loop_break turn pre i post s :
  (forall st, turn i st = Done Break st) ->
  relay_loop turn (pre ++ i :: post) s = relay_loop turn (pre ++ [i]) s.
Proof.
  intros H. revert s. induction pre as [|p pre IH]; intros s;
    cbn [app relay_loop]; unfold bind at 1 3, gets; destruct (running s);
    try reflexivity.
  - unfold bind. now rewrite H.
  - unfold bind. destruct (turn p s) as [[] s1|w s1|s1]; try reflexivity.
    apply IH.
Qed.

Lemma bind_ext A B (m : M A) (k1 k2 : A -> M B) s :
  (forall a st, k1 a st = k2 a st) -> bind m k1 s = bind m k2 s.
Proof. intros H. unfold bind. destruct (m s); auto. Qed.

Lemma bind_ext_l A B (m1 m2 : M A) (k : A -> M B) s :
  (forall st, m1 st = m2 st) -> bind m1 k s = bind m2 k s.
Proof. intros H. unfold bind. now rewrite H. Qed.

(** X4. Nothing a client sends after its leave command is relayed: a session
    whose input holds a chunk that reads as "leave" (trimmed, in any case; in
    VOICE mode also shorter than 64 bytes) runs exactly as if the input ended
    with that chunk. *)
Theorem nothing_is_relayed_after_leave c addr user_id name pre data post s :
  len data <> 0 ->
  len data < 64 ->
  is_leave (strip (decode_ignore data)) = true ->
  handle_accepted_client c addr user_id name (pre ++ RecvData data :: post) s
  = handle_accepted_client c addr user_id name (pre ++ [RecvData data]) s.
Proof.
  intros N Sh Lv. unfold handle_accepted_client.
  apply bind_ext. intros m s1. apply bind_ext_l. intros s2.
  destruct m; apply bind_ext; intros _ s3; apply relay_loop_break; intros st.
  - now apply messaging_chunk_leave.
  - now apply voice_chunk_leave.
Qed.

Lemma nothing_is_relayed_after_leave_witness :
  handle_accepted_client 1 Scenario.addr_a 1 (lit "alice")
    ([RecvData "hi"] ++ RecvData " Leave " :: [RecvData "more"])
    (Scenario.two_clients MESSAGING)
  = handle_accepted_client 1 Scenario.addr_a 1 (lit "alice")
      ([RecvData "hi"] ++ [RecvData " Leave "])
      (Scenario.two_clients MESSAGING).
Proof.
  assert (N : len " Leave "%string <> 0) by (vm_compute; discriminate).
  assert (Sh : len " Leave "%string < 64) by (vm_compute; lia).
  assert (Lv : is_leave (strip (decode_ignore " Leave ")) = true)
    by (vm_compute; reflexivity).
  exact (@nothing_is_relayed_after_leave 1 Scenario.addr_a 1%Z (lit "alice")
           [RecvData "hi"] " Leave "%string [RecvData "more"]
           (Scenario.two_clients MESSAGING) N Sh Lv).
Defined.

(** *** A relay thread never returns *)

Lemma bind_done_inv A B (m : M A) (k : A -> M B) s b s' :
  bind m k s = Done b s' -> exists a s1, m s = Done a s1 /\ k a s1 = Done b s'.
Proof.
  unfold bind. destruct (m s) as [a s1|w s1|s1]; try discriminate. eauto.
Qed.

Lemma bind_blocked_inv A B (m : M A) (k : A -> M B) s w s' :
  bind m k s = Blocked w s' ->
  m s = Blocked w s' \/ exists a s1, m s = Done a s1 /\ k a s1 = Blocked w s'.
Proof.
  unfold bind. destruct (m s) as [a s1|w1 s1|s1]; intros H.
  - right. exists a, s1. auto.
  - injection H as -> ->. now left.
  - discriminate.
Qed.

Lemma same_registry_refl s : same_registry s s.
Proof. split; reflexivity. Qed.

Lemma same_registry_trans a b c :
  same_registry a b -> same_registry b c -> same_registry a c.
Proof. intros [A1 A2] [B1 B2]. split; congruence. Qed.

Lemma on_done_bind P A B (m : M A) (k : A -> M B) :
  (forall a b c, P a b -> P b c -> P a c) ->
  on_done P m -> (forall a, on_done P (k a)) -> on_done P (bind m k).
Proof.
  intros T Hm Hk s b s' H. apply bind_done_inv in H as (a & s1 & H1 & H2).
  eapply T; [eapply Hm; eauto|eapply Hk; eauto].
Qed.

Lemma on_done_relay_loop P turn inputs :
  (forall s, P s s) -> (forall a b c, P a b -> P b c -> P a c) ->
  (forall i, on_done P (turn i)) -> on_done P (relay_loop turn inputs).
Proof.
  intros R T H. induction inputs as [|i inputs IH]; intros s a s' E;
    cbn [relay_loop] in E; unfold bind at 1, gets in E; destruct (running s);
    try (injection E as _ <-; apply R).
  apply bind_done_inv in E as (ctl & s1 & E1 & E2).
  destruct ctl.
  - injection E2 as _ <-. eapply H; eauto.
  - eapply T; [eapply H; eauto|eapply IH; eauto].
Qed.

(** A loop of a broadcast that comes to its end has kept the registry and
    the lock. *)
Lemma fan_loop_done notify payload ex keys s a s' :
  clients_lock s = true ->
  for_each keys (fan_body (disconnect_with notify) payload ex) s = Done a s' ->
  clients s' = clients s /\ clients_lock s' = true.
Proof.
  revert s. induction keys as [|k keys IH]; intros s L E.
  - injection E as _ <-. auto.
  - cbn [for_each] in E. unfold bind, fan_body at 1 in E.
    destruct (is_excluded k ex); cbn [ret] in E; [now apply IH|].
    unfold bind, sendall in E. destruct (send_ok k s); cbn [ret] in E.
    + apply IH in E; [exact E|exact L].
    + rewrite disconnect_with_locked in E by exact L. discriminate.
Qed.

Lemma fan_out_done notify payload ex :
  on_done same_registry (fan_out (disconnect_with notify) payload ex).
Proof.
  intros s a s' E. rewrite fan_out_unfold in E.
  destruct (clients_lock s) eqn:L; [discriminate|].
  match type of E with context [for_each ?k ?b ?st] =>
    pose proof (fun x y => @fan_loop_done notify payload ex k st x y eq_refl) as F;
    destruct (for_each k b st) as [[] s1|w s1|s1]; try discriminate end.
  injection E as E. subst s'. destruct (F tt s1 eq_refl) as [C _].
  split; proj; [exact C|now rewrite L].
Qed.

Lemma broadcast_message_done text ex :
  on_done same_registry (broadcast_message text ex).
Proof. unfold broadcast_message. cbn [broadcast_message_at]. apply fan_out_done. Qed.

Lemma broadcast_audio_done data ex :
  on_done same_registry (broadcast_audio data ex).
Proof. unfold broadcast_audio, broadcast_audio_at. apply fan_out_done. Qed.

Lemma messaging_chunk_done c name r :
  on_done same_registry (messaging_chunk c name r).
Proof.
  intros s a s' E. destruct r as [data| | |];
    try (injection E as _ <-; apply same_registry_refl).
  unfold messaging_chunk in E.
  destruct (len data =? 0)%nat; [injection E as _ <-; apply same_registry_refl|].
  destruct (strip (decode_ignore data)) as [|x m];
    [injection E as _ <-; apply same_registry_refl|].
  destruct (is_leave (x :: m)); [injection E as _ <-; apply same_registry_refl|].
  apply bind_done_inv in E as ([] & s1 & E1 & E2).
  apply bind_done_inv in E2 as ([] & s2 & E2 & E3).
  injection E1 as <-. injection E3 as _ <-.
  apply broadcast_message_done in E2. destruct E2 as [C L]. split; proj_in C;
    proj_in L; assumption.
Qed.

Lemma voice_chunk_done c r : on_done same_registry (voice_chunk c r).
Proof.
  intros s a s' E. destruct r as [data| | |];
    try (injection E as _ <-; apply same_registry_refl).
  unfold voice_chunk in E.
  destruct (len data =? 0)%nat; [injection E as _ <-; apply same_registry_refl|].
  destruct (_ && _); [injection E as _ <-; apply same_registry_refl|].
  apply bind_done_inv in E as ([] & s1 & E1 & E2). injection E2 as _ <-.
  now apply broadcast_audio_done in E1.
Qed.

Lemma messaging_entry_done c user_id name :
  on_done same_registry (messaging_entry c user_id name).
Proof.
  intros s a s' E. unfold messaging_entry in E.
  apply bind_done_inv in E as ([] & s1 & E1 & E2).
  apply bind_done_inv in E2 as (ok & s2 & E2 & E3).
  injection E2 as _ <-. injection E3 as _ <-.
  apply broadcast_message_done in E1. destruct E1 as [C L]. split; proj;
    assumption.
Qed.

Lemma voice_entry_done c user_id name :
  on_done same_registry (voice_entry c user_id name).
Proof.
  intros s a s' E. unfold voice_entry in E.
  apply bind_done_inv in E as (users & s1 & E1 & E2).
  apply bind_done_inv in E2 as (ok & s2 & E2 & E3).
  injection E2 as _ <-.
  apply broadcast_message_done in E3. destruct E3 as [C L].
  proj_in C. proj_in L.
  revert E1. unfold with_lock. run. destruct (clients_lock s) eqn:Ls;
    [discriminate|]. intros [= _ <-]. proj_in C. proj_in L.
  split; [exact C|]. now rewrite L, Ls.
Qed.

Lemma blocks_on_bind l A B (m : M A) (k : A -> M B) :
  blocks_on l m -> (forall a, blocks_on l (k a)) -> blocks_on l (bind m k).
Proof.
  intros Hm Hk s w s' H. apply bind_blocked_inv in H as [H|(a & s1 & _ & H)].
  - eapply Hm; eauto.
  - eapply Hk; eauto.
Qed.

Lemma blocks_on_returns l A (m : M A) :
  (forall s, exists a s', m s = Done a s') -> blocks_on l m.
Proof. intros H s w s' E. destruct (H s) as (a & s1 & R). congruence. Qed.

Lemma blocks_on_acquire l : blocks_on l (acquire l).
Proof.
  intros s w s'. unfold acquire. destruct (held l s) eqn:E; [|discriminate].
  intros [= <- <-]. auto.
Qed.

Lemma blocks_on_with_lock l A (body : M A) :
  blocks_on l body -> blocks_on l (with_lock l body).
Proof.
  intros H. unfold with_lock.
  apply blocks_on_bind; [apply blocks_on_acquire|intros _].
  apply blocks_on_bind; [exact H|intros x].
  apply blocks_on_bind; [|intros _]; apply blocks_on_returns; intros s;
    eexists; eexists; reflexivity.
Qed.

Lemma blocks_on_for_each l A (xs : list A) body :
  (forall x, blocks_on l (body x)) -> blocks_on l (for_each xs body).
Proof.
  intros H. induction xs as [|x xs IH]; cbn [for_each].
  - apply blocks_on_returns. intros s. eexists; eexists; reflexivity.
  - apply blocks_on_bind; auto.
Qed.

Lemma blocks_on_relay_loop l turn inputs :
  (forall i, blocks_on l (turn i)) -> blocks_on l (relay_loop turn inputs).
Proof.
  intros H. induction inputs as [|i inputs IH]; cbn [relay_loop];
    (apply blocks_on_bind;
     [apply blocks_on_returns; intros s; eexists; eexists; reflexivity|]);
    intros []; try (apply blocks_on_returns; intros s; eexists; eexists;
                    reflexivity).
  apply blocks_on_bind; [apply H|].
  intros []; [|exact IH].
  apply blocks_on_returns. intros s. eexists; eexists; reflexivity.
Qed.

Ltac blocks_on_leaf :=
  apply blocks_on_returns; intros ?; eexists; eexists; reflexivity.

Lemma blocks_on_fan_out disconnect payload ex :
  (forall c, blocks_on ClientsLock (disconnect c)) ->
  blocks_on ClientsLock (fan_out disconnect payload ex).
Proof.
  intros H. unfold fan_out. apply blocks_on_with_lock.
  apply blocks_on_bind; [blocks_on_leaf|intros keys].
  apply blocks_on_for_each. intros c. unfold fan_body.
  destruct (is_excluded c ex); [blocks_on_leaf|].
  apply blocks_on_bind; [blocks_on_leaf|].
  intros []; [blocks_on_leaf|apply H].
Qed.

Lemma blocks_on_disconnect_with notify c :
  (forall t, blocks_on ClientsLock (notify t)) ->
  blocks_on ClientsLock (disconnect_with notify c).
Proof.
  intros H. unfold disconnect_with. apply blocks_on_with_lock.
  apply blocks_on_bind; [blocks_on_leaf|].
  intros [u|]; [|blocks_on_leaf].
  apply blocks_on_bind; [blocks_on_leaf|intros _].
  apply blocks_on_bind; [blocks_on_leaf|intros _].
  apply blocks_on_bind; [blocks_on_leaf|intros _].
  apply H.
Qed.

Lemma blocks_on_broadcast_message_at d text ex :
  blocks_on ClientsLock (broadcast_message_at d text ex).
Proof.
  revert text ex. induction d as [|d IH]; intros text ex; cbn.
  - intros s w s'. discriminate.
  - apply blocks_on_fan_out. intros c. apply blocks_on_disconnect_with.
    intros t. apply IH.
Qed.

Lemma blocks_on__disconnect_conn c : blocks_on ClientsLock (_disconnect_conn c).
Proof.
  apply blocks_on_disconnect_with. intros t.
  apply blocks_on_broadcast_message_at.
Qed.

Lemma blocks_on_handle_accepted_client c addr user_id name inputs :
  blocks_on ClientsLock (handle_accepted_client c addr user_id name inputs).
Proof.
  assert (BM : forall t e, blocks_on ClientsLock (broadcast_message t e))
    by (intros; apply blocks_on_broadcast_message_at).
  assert (BA : forall d e, blocks_on ClientsLock (broadcast_audio d e))
    by (intros; apply blocks_on_fan_out; intros; apply blocks_on__disconnect_conn).
  unfold handle_accepted_client.
  apply blocks_on_bind; [blocks_on_leaf|intros m].
  apply blocks_on_bind; [|intros _; apply blocks_on__disconnect_conn].
  destruct m.
  - apply blocks_on_bind.
    + unfold messaging_entry. apply blocks_on_bind; [apply BM|intros _].
      apply blocks_on_bind; [blocks_on_leaf|intros _; blocks_on_leaf].
    + intros _. apply blocks_on_relay_loop. intros [data| | |];
        try blocks_on_leaf. unfold messaging_chunk.
      destruct (len data =? 0)%nat; [blocks_on_leaf|].
      destruct (strip (decode_ignore data)); [blocks_on_leaf|].
      destruct (is_leave _); [blocks_on_leaf|].
      apply blocks_on_bind; [blocks_on_leaf|intros _].
      apply blocks_on_bind; [apply BM|intros _; blocks_on_leaf].
  - apply blocks_on_bind.
    + unfold voice_entry.
      apply blocks_on_bind; [apply blocks_on_with_lock; blocks_on_leaf|intros us].
      apply blocks_on_bind; [blocks_on_leaf|intros _; apply BM].
    + intros _. apply blocks_on_relay_loop. intros [data| | |];
        try blocks_on_leaf. unfold voice_chunk.
      destruct (len data =? 0)%nat; [blocks_on_leaf|].
      destruct (_ && _); [blocks_on_leaf|].
      apply blocks_on_bind; [apply BA|intros _; blocks_on_leaf].
Qed.

Lemma blocks_on_relay_loop_among l others n turn inputs :
  (forall i, blocks_on l (turn i)) ->
  blocks_on l (relay_loop_among others n turn inputs).
Proof.
  intros H. revert n. induction inputs as [|i inputs IH]; intros n;
    cbn [relay_loop_among];
    (apply blocks_on_bind; [blocks_on_leaf|]);
    intros []; try blocks_on_leaf.
  apply blocks_on_bind; [blocks_on_leaf|intros _].
  apply blocks_on_bind; [apply H|].
  intros []; [blocks_on_leaf|apply IH].
Qed.

Lemma blocks_on_messaging_chunk c name r :
  blocks_on ClientsLock (messaging_chunk c name r).
Proof.
  destruct r as [data| | |]; try blocks_on_leaf. unfold messaging_chunk.
  destruct (len data =? 0)%nat; [blocks_on_leaf|].
  destruct (strip (decode_ignore data)); [blocks_on_leaf|].
  destruct (is_leave _); [blocks_on_leaf|].
  apply blocks_on_bind; [blocks_on_leaf|intros _].
  apply blocks_on_bind;
    [apply blocks_on_broadcast_message_at|intros _; blocks_on_leaf].
Qed.

Lemma blocks_on_voice_chunk c r : blocks_on ClientsLock (voice_chunk c r).
Proof.
  destruct r as [data| | |]; try blocks_on_leaf. unfold voice_chunk.
  destruct (len data =? 0)%nat; [blocks_on_leaf|].
  destruct (_ && _); [blocks_on_leaf|].
  apply blocks_on_bind; [|intros _; blocks_on_leaf].
  apply blocks_on_fan_out. intros k. apply blocks_on__disconnect_conn.
Qed.

Lemma blocks_on_messaging_entry c user_id name :
  blocks_on ClientsLock (messaging_entry c user_id name).
Proof.
  unfold messaging_entry.
  apply blocks_on_bind; [apply blocks_on_broadcast_message_at|intros _].
  apply blocks_on_bind; [blocks_on_leaf|intros _; blocks_on_leaf].
Qed.

Lemma blocks_on_voice_entry c user_id name :
  blocks_on ClientsLock (voice_entry c user_id name).
Proof.
  unfold voice_entry.
  apply blocks_on_bind; [apply blocks_on_with_lock; blocks_on_leaf|intros us].
  apply blocks_on_bind;
    [blocks_on_leaf|intros _; apply blocks_on_broadcast_message_at].
Qed.

Lemma blocks_on_handle_accepted_client_among others at_end c addr user_id
    name inputs :
  blocks_on ClientsLock
    (handle_accepted_client_among others at_end c addr user_id name inputs).
Proof.
  unfold handle_accepted_client_among.
  apply blocks_on_bind; [blocks_on_leaf|intros m].
  apply blocks_on_bind;
    [|intros _; apply blocks_on_bind;
                  [blocks_on_leaf|intros _; apply blocks_on__disconnect_conn]].
  destruct m.
  - apply blocks_on_bind; [apply blocks_on_messaging_entry|intros _].
    apply blocks_on_bind; [blocks_on_leaf|intros _].
    apply blocks_on_relay_loop_among. intros i.
    apply blocks_on_messaging_chunk.
  - apply blocks_on_bind; [apply blocks_on_voice_entry|intros _].
    apply blocks_on_bind; [blocks_on_leaf|intros _].
    apply blocks_on_relay_loop_among. intros i. apply blocks_on_voice_chunk.
Qed.

Lemma within_depth_relay_loop_among others n turn inputs :
  (forall i, within_depth (turn i)) ->
  within_depth (relay_loop_among others n turn inputs).
Proof.
  intros H. revert n. induction inputs as [|i inputs IH]; intros n;
    cbn [relay_loop_among].
  - apply within_depth_bind; [apply within_depth_gets|].
    intros []; apply within_depth_ret.
  - apply within_depth_bind; [apply within_depth_gets|].
    intros []; [|apply within_depth_ret].
    apply within_depth_bind; [apply within_depth_modify|intros _].
    apply within_depth_bind; [apply H|].
    intros []; [apply within_depth_ret|apply IH].
Qed.

Lemma within_depth_handle_accepted_client_among others at_end c addr user_id
    name inputs :
  within_depth
    (handle_accepted_client_among others at_end c addr user_id name inputs).
Proof.
  unfold handle_accepted_client_among.
  apply within_depth_bind; [apply within_depth_gets|intros m].
  apply within_depth_bind;
    [|intros _; apply within_depth_bind;
                  [apply within_depth_modify
                  |intros _; apply within_depth__disconnect_conn]].
  destruct m.
  - apply within_depth_bind;
      [unfold messaging_entry; within_depth_auto|intros _].
    apply within_depth_bind; [apply within_depth_modify|intros _].
    apply within_depth_relay_loop_among. intros i.
    unfold messaging_chunk. within_depth_auto.
  - apply within_depth_bind; [unfold voice_entry; within_depth_auto|intros _].
    apply within_depth_bind; [apply within_depth_modify|intros _].
    apply within_depth_relay_loop_among. intros i.
    unfold voice_chunk. within_depth_auto.
Qed.

Lemma keeps_registered_refl c s : keeps_registered c s s.
Proof. intros H. exact H. Qed.

Lemma keeps_registered_trans c a b d :
  keeps_registered c a b -> keeps_registered c b d -> keeps_registered c a d.
Proof. unfold keeps_registered. auto. Qed.

Lemma same_registry_keeps c s s' : same_registry s s' -> keeps_registered c s s'.
Proof. intros [C _] H. unfold registered in *. now rewrite C. Qed.

Lemma on_done_weaken (P Q : state -> state -> Prop) A (m : M A) :
  (forall s s', P s s' -> Q s s') -> on_done P m -> on_done Q m.
Proof. intros H Hm s a s' E. apply H. eapply Hm; eauto. Qed.

Lemma on_done_modify (P : state -> state -> Prop) f :
  (forall s, P s (f s)) -> on_done P (modify f).
Proof. intros H s a s' [= _ <-]. apply H. Qed.

Lemma on_done_relay_loop_among P others n turn inputs :
  (forall s, P s s) -> (forall a b c, P a b -> P b c -> P a c) ->
  (forall k s, P s (others k s)) ->
  (forall i, on_done P (turn i)) ->
  on_done P (relay_loop_among others n turn inputs).
Proof.
  intros R T O H. revert n. induction inputs as [|i inputs IH]; intros n s a s' E;
    cbn [relay_loop_among] in E; unfold bind at 1, gets in E;
    destruct (running s); try (injection E as _ <-; apply R).
  apply bind_done_inv in E as ([] & s0 & E0 & E). injection E0 as <-.
  apply bind_done_inv in E as (ctl & s1 & E1 & E2).
  apply (T _ (others n s)); [apply O|].
  destruct ctl.
  - injection E2 as _ <-. eapply H; eauto.
  - eapply T; [eapply H; eauto|eapply IH; eauto].
Qed.

(** [_disconnect_conn] returns only for a connection that is not in the
    registry, with the lock free. *)
Lemma disconnect_returns c s a s' :
  _disconnect_conn c s = Done a s' ->
  clients_lock s = false /\ dict_get Nat.eqb c (clients s) = None
  /\ clients s' = clients s /\ clients_lock s' = false.
Proof.
  intros E. destruct (clients_lock s) eqn:L.
  - unfold _disconnect_conn, _disconnect_conn_at in E.
    rewrite disconnect_with_locked in E by exact L. discriminate.
  - destruct (dict_get Nat.eqb c (clients s)) as [u|] eqn:G.
    + destruct (@disconnect_registered_client_blocks c u s L G)
        as (s3 & B & _). congruence.
    + revert E. unfold _disconnect_conn, _disconnect_conn_at, disconnect_with.
      run. rewrite L. proj. rewrite G. intros [= _ <-]. proj. auto.
Qed.

Lemma bind_gets A B (f : state -> A) (k : A -> M B) s :
  bind (gets f) k s = k (f s) s.
Proof. reflexivity. Qed.

Lemma bind_modify B (f : state -> state) (k : unit -> M B) s :
  bind (modify f) k s = k tt (f s).
Proof. reflexivity. Qed.

Lemma relay_loop_among_alone turn inputs n s :
  relay_loop_among (fun _ st => st) n turn inputs s = relay_loop turn inputs s.
Proof.
  revert n s. induction inputs as [|i inputs IH]; intros n s;
    cbn [relay_loop_among relay_loop]; rewrite !bind_gets;
    destruct (running s); try reflexivity.
  rewrite bind_modify. apply bind_ext. intros [] s'; [reflexivity|apply IH].
Qed.

Lemma among_alone c addr user_id name inputs s :
  handle_accepted_client_among (fun _ st => st) (fun st => st) c addr user_id
    name inputs s
  = handle_accepted_client c addr user_id name inputs s.
Proof.
  unfold handle_accepted_client_among, handle_accepted_client.
  rewrite !bind_gets.
  assert (E : forall (entry : M unit) turn st,
             (entry ;; modify (fun x => x) ;;
              relay_loop_among (fun _ x => x) 1 turn inputs) st
             = (entry ;; relay_loop turn inputs) st).
  { intros entry turn st. apply bind_ext. intros [] s'.
    rewrite bind_modify. apply relay_loop_among_alone. }
  destruct (MODE s);
    (etransitivity;
     [apply bind_ext_l; intros st; apply E
     |apply bind_ext; intros [] s'; apply bind_modify]).
Qed.

(** X5. When the relay thread of a client returns.  With the other threads
    running while it waits (between its entry and its loop, during each
    [recv], before its [finally]), [handle_accepted_client] either stops for
    good waiting for [clients_lock], which is taken in the state it stops
    in, or returns with the client not in the registry and the lock free.
    It returns only if another thread took the client out of the registry
    meanwhile (as [stop] does when it clears the registry): when the client
    is registered at the start and the others leave it registered, the
    thread never returns.  Run alone, it is the function of the source. *)
Theorem relay_thread_returns_only_unregistered others at_end c addr user_id
    name inputs s :
  (forall w s',
     handle_accepted_client_among others at_end c addr user_id name inputs s
     = Blocked w s' ->
     w = OnLock ClientsLock /\ clients_lock s' = true)
  /\ (forall s',
        handle_accepted_client_among others at_end c addr user_id name inputs s
        = Done tt s' ->
        ~ registered c s' /\ clients_lock s' = false)
  /\ (registered c s ->
      (forall n st, registered c st -> registered c (others n st)) ->
      (forall st, registered c st -> registered c (at_end st)) ->
      exists s',
        handle_accepted_client_among others at_end c addr user_id name inputs s
        = Blocked (OnLock ClientsLock) s'
        /\ clients_lock s' = true)
  /\ handle_accepted_client_among (fun _ st => st) (fun st => st) c addr
       user_id name inputs s
     = handle_accepted_client c addr user_id name inputs s.
Proof.
  assert (B : forall w s',
             handle_accepted_client_among others at_end c addr user_id name
               inputs s = Blocked w s' ->
             w = OnLock ClientsLock /\ clients_lock s' = true).
  { intros w s' E.
    exact (@blocks_on_handle_accepted_client_among others at_end c addr
             user_id name inputs s w s' E). }
  split; [exact B|]. split; [|split; [|apply among_alone]].
  - intros s' E. unfold handle_accepted_client_among in E.
    apply bind_done_inv in E as (m & s0 & _ & E).
    apply bind_done_inv in E as ([] & s1 & _ & E).
    apply bind_done_inv in E as ([] & s2 & _ & E).
    apply disconnect_returns in E as (_ & G & C & L).
    split; [|exact L]. unfold registered. rewrite C. tauto.
  - intros G Ho He.
    destruct (handle_accepted_client_among others at_end c addr user_id name
                inputs s) as [[] s'|w s'|s'] eqn:E.
    + exfalso. unfold handle_accepted_client_among in E.
      apply bind_done_inv in E as (m & s0 & E0 & E). injection E0 as <- <-.
      apply bind_done_inv in E as ([] & s1 & E1 & E).
      apply bind_done_inv in E as ([] & s2 & E2 & E).
      injection E2 as <-.
      assert (K : keeps_registered c s s1).
      { assert (T := @keeps_registered_trans c).
        assert (KO : forall k st, keeps_registered c st (others k st))
          by (intros k st; exact (Ho k st)).
        destruct (MODE s);
          apply bind_done_inv in E1 as ([] & sa & Ea & Eb);
          apply bind_done_inv in Eb as ([] & sb & Eb & Ec);
          injection Eb as <-.
        - apply (T s sa s1);
            [exact (@same_registry_keeps c s sa
                      (@messaging_entry_done c user_id name s tt sa Ea))|].
          apply (T sa (others 0 sa) s1); [apply KO|].
          exact (@on_done_relay_loop_among (keeps_registered c) others 1
                   (messaging_chunk c name) inputs
                   (@keeps_registered_refl c) T KO
                   (fun i => @on_done_weaken same_registry
                               (keeps_registered c) _ _
                               (@same_registry_keeps c)
                               (@messaging_chunk_done c name i))
                   (others 0 sa) tt s1 Ec).
        - apply (T s sa s1);
            [exact (@same_registry_keeps c s sa
                      (@voice_entry_done c user_id name s tt sa Ea))|].
          apply (T sa (others 0 sa) s1); [apply KO|].
          exact (@on_done_relay_loop_among (keeps_registered c) others 1
                   (voice_chunk c) inputs
                   (@keeps_registered_refl c) T KO
                   (fun i => @on_done_weaken same_registry
                               (keeps_registered c) _ _
                               (@same_registry_keeps c)
                               (@voice_chunk_done c i))
                   (others 0 sa) tt s1 Ec). }
      apply disconnect_returns in E as (_ & N & _).
      exact (He s1 (K G) N).
    + destruct (B w s' eq_refl) as [-> L]. now exists s'.
    + exfalso.
      exact (@within_depth_handle_accepted_client_among others at_end c addr
               user_id name inputs s s' E).
Qed.

Lemma handshake_keeps_registry c addr r s :
  clients (final (handle_new_connection_until_wait c addr r s)) = clients s.
Proof.
  unfold handle_new_connection_until_wait, create_pending.
  destruct r as [raw| | |]; try (run; reflexivity).
  destruct (startswith _ _); run; [|reflexivity].
  destruct (pending_lock s); reflexivity.
Qed.

(** bob's session with other threads at work: while he is connected, carol
    sends her handshake; he says hello and leaves.  His thread never
    returns.  But when the operator stops the server before the thread
    reaches its [finally], the thread finds bob gone and returns. *)
Lemma relay_thread_returns_only_unregistered_witness :
  (exists s',
     handle_accepted_client_among
       (fun _ st => final (handle_new_connection_until_wait 3 Scenario.addr_c
                             (RecvData "NAME:carol") st))
       (fun st => st)
       2 Scenario.addr_b 2 (lit "bob") [RecvData "hello"; RecvData "leave"]
       (Scenario.two_clients MESSAGING)
     = Blocked (OnLock ClientsLock) s'
     /\ clients_lock s' = true)
  /\ (exists s',
        handle_accepted_client_among (fun _ st => st)
          (fun st => final (operator_cli_line (Some (lit "stop")) st))
          2 Scenario.addr_b 2 (lit "bob") [RecvData "hello"]
          (Scenario.two_clients MESSAGING)
        = Done tt s'
        /\ ~ registered 2 s' /\ clients_lock s' = false).
Proof.
  split.
  - apply relay_thread_returns_only_unregistered.
    + assert (G : dict_get Nat.eqb 2 (clients (Scenario.two_clients MESSAGING))
                  = Some {| u_id := 2; u_name := lit "bob";
                            u_addr := Scenario.addr_b |})
        by (vm_compute; reflexivity).
      unfold registered. rewrite G. discriminate.
    + intros n st H. unfold registered. now rewrite handshake_keeps_registry.
    + auto.
  - assert (E : handle_accepted_client_among (fun _ st => st)
                  (fun st => final (operator_cli_line (Some (lit "stop")) st))
                  2 Scenario.addr_b 2 (lit "bob") [RecvData "hello"]
                  (Scenario.two_clients MESSAGING)
                = Done tt
                    (final
                       (handle_accepted_client_among (fun _ st => st)
                          (fun st =>
                             final (operator_cli_line (Some (lit "stop")) st))
                          2 Scenario.addr_b 2 (lit "bob") [RecvData "hello"]
                          (Scenario.two_clients MESSAGING))))
      by (vm_compute; reflexivity).
    eexists. split; [exact E|].
    exact (proj1 (proj2 (@relay_thread_returns_only_unregistered _ _ _ _ _ _ _ _))
             _ E).
Defined.

(** *** Removing a client *)

(** X6. [_disconnect_conn] with the lock free.  For a connection that is not
    registered it returns and changes nothing: nothing is closed, nothing is
    sent.  For a registered one it takes the client out of the registry and
    closes the connection, and then never returns: the lock stays taken and
    no client is sent a notice. *)
Theorem disconnect_present_or_absent c s :
  clients_lock s = false ->
  match dict_get Nat.eqb c (clients s) with
  | Some u =>
    exists s',
      _disconnect_conn c s = Blocked (OnLock ClientsLock) s'
      /\ clients s' = dict_del Nat.eqb c (clients s)
      /\ closed s' = c :: closed s
      /\ clients_lock s' = true
      /\ forall k, sent_to k (trace s') = sent_to k (trace s)
  | None =>
    exists s',
      _disconnect_conn c s = Done tt s'
      /\ clients s' = clients s
      /\ closed s' = closed s
      /\ clients_lock s' = false
      /\ trace s' = trace s ++ [Acquire ClientsLock; Release ClientsLock]
  end.
Proof.
  intros L. unfold _disconnect_conn, _disconnect_conn_at, disconnect_with.
  run. rewrite L. proj.
  destruct (dict_get Nat.eqb c (clients s)) as [u|].
  - rewrite broadcast_message_at_locked by reflexivity.
    eexists. split; [reflexivity|]. proj. repeat split.
    intros k. rewrite !sent_to_app. cbn [sent_to]. now rewrite !app_nil_r.
  - eexists. split; [reflexivity|]. proj. repeat split.
    now rewrite <- app_assoc.
Qed.

Lemma disconnect_present_or_absent_witness :
  (exists s',
     _disconnect_conn 2 (Scenario.two_clients VOICE)
     = Blocked (OnLock ClientsLock) s'
     /\ clients_lock s' = true)
  /\ (exists s',
        _disconnect_conn 9 (Scenario.two_clients VOICE) = Done tt s'
        /\ clients s' = clients (Scenario.two_clients VOICE)).
Proof.
  assert (L : clients_lock (Scenario.two_clients VOICE) = false)
    by (vm_compute; reflexivity).
  assert (G2 : dict_get Nat.eqb 2 (clients (Scenario.two_clients VOICE))
               = Some {| u_id := 2; u_name := lit "bob";
                         u_addr := Scenario.addr_b |})
    by (vm_compute; reflexivity).
  assert (G9 : dict_get Nat.eqb 9 (clients (Scenario.two_clients VOICE)) = None)
    by (vm_compute; reflexivity).
  pose proof (@disconnect_present_or_absent 2 (Scenario.two_clients VOICE) L)
    as P2.
  pose proof (@disconnect_present_or_absent 9 (Scenario.two_clients VOICE) L)
    as P9.
  rewrite G2 in P2. rewrite G9 in P9.
  destruct P2 as (s2 & R2 & _ & _ & L2 & _).
  destruct P9 as (s9 & R9 & C9 & _).
  split; [exists s2|exists s9]; auto.
Defined.

(** *** Admission *)

Lemma dict_get_set_nat c (u : user) d :
  dict_get Nat.eqb c (dict_set Nat.eqb c u d) = Some u.
Proof. apply dict_get_set. apply Nat.eqb_eq. Qed.

(** X7. An accepted connection becomes a client.  When the handshake thread
    wakes with both locks free, its pending entry holding an accepting
    decision, and the send to its connection succeeding, it removes the
    entry, registers the connection under the next user id with the name of
    the handshake, advances the counter by one, sends the token
    "MODE:<mode>" and starts the relay thread with that id. *)
Theorem accepted_connection_is_registered c addr pid name info s :
  pending_lock s = false ->
  clients_lock s = false ->
  mem_pid pid (events_set s) = true ->
  dict_get Z.eqb pid (pending s) = Some info ->
  p_decision info = Some true ->
  send_ok c s = true ->
  let u := {| u_id := next_user_id s; u_name := name; u_addr := addr |} in
  exists s',
    handle_new_connection_after_wait c addr pid name s
    = Done (Relay (next_user_id s)) s'
    /\ clients s' = dict_set Nat.eqb c u (clients s)
    /\ dict_get Nat.eqb c (clients s') = Some u
    /\ next_user_id s' = (next_user_id s + 1)%Z
    /\ pending s' = dict_del Z.eqb pid (pending s)
    /\ closed s' = closed s
    /\ sent_to c (trace s')
       = sent_to c (trace s) ++ [encode (lit "MODE:" ++ mode_name (MODE s))].
Proof.
  intros Lp Lc E G D Ok u. unfold handle_new_connection_after_wait,
    register_client. run. rewrite E, Lp. proj. rewrite G, D. proj.
  rewrite Lc. proj.
  change (send_ok c _) with (send_ok c s). rewrite Ok.
  eexists. split; [reflexivity|]. proj. repeat split.
  - apply dict_get_set_nat.
  - rewrite !sent_to_app. cbn [sent_to]. rewrite Nat.eqb_refl.
    now rewrite !app_nil_r.
Qed.

Lemma accepted_connection_is_registered_witness :
  exists s',
    handle_new_connection_after_wait 1 Scenario.addr_a 1 (lit "alice")
      (Scenario.alice_accepted VOICE)
    = Done (Relay (next_user_id (Scenario.alice_accepted VOICE))) s'
    /\ next_user_id s' = (next_user_id (Scenario.alice_accepted VOICE) + 1)%Z.
Proof.
  assert (Lp : pending_lock (Scenario.alice_accepted VOICE) = false)
    by (vm_compute; reflexivity).
  assert (Lc : clients_lock (Scenario.alice_accepted VOICE) = false)
    by (vm_compute; reflexivity).
  assert (E : mem_pid 1 (events_set (Scenario.alice_accepted VOICE)) = true)
    by (vm_compute; reflexivity).
  assert (G : dict_get Z.eqb 1%Z (pending (Scenario.alice_accepted VOICE))
              = Some {| p_conn := 1; p_name := lit "alice";
                        p_addr := Scenario.addr_a; p_decision := Some true |})
    by (vm_compute; reflexivity).
  assert (Ok : send_ok 1 (Scenario.alice_accepted VOICE) = true)
    by (vm_compute; reflexivity).
  destruct (@accepted_connection_is_registered 1 Scenario.addr_a 1%Z
              (lit "alice") _ (Scenario.alice_accepted VOICE) Lp Lc E G
              eq_refl Ok)
    as (s' & R & _ & _ & N & _).
  exists s'. split; [exact R|exact N].
Defined.

(** [_disconnect_conn] leaves the user id counter alone, and closes the
    connection it removes. *)
Lemma disconnect_closes c s :
  next_user_id (final (_disconnect_conn c s)) = next_user_id s
  /\ (clients_lock s = false ->
      dict_get Nat.eqb c (clients s) <> None ->
      closed (final (_disconnect_conn c s)) = c :: closed s).
Proof.
  unfold _disconnect_conn, _disconnect_conn_at, disconnect_with. run.
  destruct (clients_lock s); [split; [reflexivity|discriminate]|]. proj.
  destruct (dict_get Nat.eqb c (clients s)) as [u|].
  - rewrite broadcast_message_at_locked by reflexivity. cbn. auto.
  - cbn. split; [reflexivity|congruence].
Qed.

(** X8. How an accepted connection gets stuck.  The handshake thread wakes
    with an accepting decision.  If [clients_lock] is taken (some thread is
    stuck holding it), the thread stops at the registration: the pending
    entry is gone, nobody is registered, and the peer is sent neither a mode
    nor REJECT.  If the lock is free and the send of the mode raises, the
    client is registered, taken out again and closed, its user id is used
    up, and the thread stops for good holding the lock. *)
Theorem accepted_connection_gets_stuck c addr pid name info s :
  pending_lock s = false ->
  mem_pid pid (events_set s) = true ->
  dict_get Z.eqb pid (pending s) = Some info ->
  p_decision info = Some true ->
  (clients_lock s = true ->
   exists s',
     handle_new_connection_after_wait c addr pid name s
     = Blocked (OnLock ClientsLock) s'
     /\ clients s' = clients s
     /\ pending s' = dict_del Z.eqb pid (pending s)
     /\ closed s' = closed s
     /\ sent_to c (trace s') = sent_to c (trace s))
  /\ (clients_lock s = false -> send_ok c s = false ->
      exists s',
        handle_new_connection_after_wait c addr pid name s
        = Blocked (OnLock ClientsLock) s'
        /\ clients s'
           = dict_del Nat.eqb c
               (dict_set Nat.eqb c
                  {| u_id := next_user_id s; u_name := name; u_addr := addr |}
                  (clients s))
        /\ next_user_id s' = (next_user_id s + 1)%Z
        /\ closed s' = c :: closed s
        /\ clients_lock s' = true).
Proof.
  intros Lp E G D. split.
  - intros Lc. unfold handle_new_connection_after_wait. run.
    rewrite E, Lp. proj. rewrite G, D. proj. rewrite Lc.
    eexists. split; [reflexivity|]. proj. repeat split.
    rewrite !sent_to_app. cbn [sent_to]. now rewrite !app_nil_r.
  - intros Lc Bad. unfold handle_new_connection_after_wait, register_client.
    run. rewrite E, Lp. proj. rewrite G, D. proj. rewrite Lc. proj.
    change (send_ok c _) with (send_ok c s). rewrite Bad.
    match goal with |- context [_disconnect_conn c ?st] =>
      destruct (@disconnect_registered_client_blocks c
                  {| u_id := next_user_id s; u_name := name; u_addr := addr |}
                  st eq_refl (dict_get_set_nat c _ _))
        as (s3 & R & L3 & C3 & line & T3);
      pose proof (@disconnect_closes c st) as Cl end.
    rewrite R in *. cbn [final] in Cl. destruct Cl as [Cn Cc].
    proj_in Cn. proj_in C3.
    exists s3. split; [reflexivity|]. split; [exact C3|].
    split; [exact Cn|]. split; [|exact L3].
    rewrite Cc; [reflexivity|reflexivity|].
    proj. rewrite dict_get_set_nat. discriminate.
Qed.

Lemma accepted_connection_gets_stuck_witness :
  exists s',
    handle_new_connection_after_wait 3 Scenario.addr_c 3 (lit "carol")
      (Scenario.carol_accepted_after_bob_left MESSAGING)
    = Blocked (OnLock ClientsLock) s'
    /\ clients s' = clients (Scenario.carol_accepted_after_bob_left MESSAGING).
Proof.
  assert (Lp : pending_lock (Scenario.carol_accepted_after_bob_left MESSAGING)
               = false) by (vm_compute; reflexivity).
  assert (Lc : clients_lock (Scenario.carol_accepted_after_bob_left MESSAGING)
               = true) by (vm_compute; reflexivity).
  assert (E : mem_pid 3 (events_set
                           (Scenario.carol_accepted_after_bob_left MESSAGING))
              = true) by (vm_compute; reflexivity).
  assert (G : dict_get Z.eqb 3%Z
                (pending (Scenario.carol_accepted_after_bob_left MESSAGING))
              = Some {| p_conn := 3; p_name := lit "carol";
                        p_addr := Scenario.addr_c; p_decision := Some true |})
    by (vm_compute; reflexivity).
  destruct (proj1 (@accepted_connection_gets_stuck 3 Scenario.addr_c 3%Z
                     (lit "carol") _
                     (Scenario.carol_accepted_after_bob_left MESSAGING)
                     Lp E G eq_refl) Lc)
    as (s' & R & C & _).
  exists s'. split; [exact R|exact C].
Defined.

(** *** Well-formed states *)

Section DictNoDup.
Variables (K V : Type) (eqb : K -> K -> bool).
Hypothesis eqb_eq : forall a b, eqb a b = true <-> a = b.

Lemma dict_set_nodup k v (d : dict K V) :
  NoDup (dict_keys d) -> NoDup (dict_keys (dict_set eqb k v d)).
Proof.
  induction d as [|[k' v'] d IH]; cbn; intros N.
  - constructor; [intros []|constructor].
  - inversion N as [|? ? Hk N']; subst.
    destruct (eqb k k') eqn:E; cbn.
    + apply eqb_eq in E. subst. now constructor.
    + constructor; [|now apply IH].
      intros Hin. apply dict_set_keys in Hin as [->|Hin]; [|contradiction].
      assert (eqb k k = true) by now apply eqb_eq. congruence.
Qed.

Lemma dict_del_nodup k (d : dict K V) :
  NoDup (dict_keys d) -> NoDup (dict_keys (dict_del eqb k d)).
Proof.
  induction d as [|[k' v'] d IH]; cbn; intros N; [constructor|].
  inversion N as [|? ? Hk N']; subst.
  destruct (eqb k k'); cbn; [exact N'|].
  constructor; [|now apply IH].
  intros Hin. apply dict_del_keys in Hin. contradiction.
Qed.

Lemma dict_set_values_nodup X (f : V -> X) k v (d : dict K V) :
  NoDup (map f (dict_values d)) ->
  ~ In (f v) (map f (dict_values d)) ->
  NoDup (map f (dict_values (dict_set eqb k v d))).
Proof.
  induction d as [|[k' v'] d IH]; cbn; intros N F.
  - constructor; [intros []|constructor].
  - inversion N as [|? ? Hk N']; subst.
    destruct (eqb k k') eqn:E; cbn.
    + constructor; [tauto|exact N'].
    + constructor; [|apply IH; tauto].
      intros Hin. apply in_map_iff in Hin as (x & Hx & Hin).
      apply dict_set_values in Hin as [->|Hin]; [now apply F; left|].
      apply Hk. rewrite <- Hx. now apply in_map.
Qed.

Lemma dict_del_values_nodup X (f : V -> X) k (d : dict K V) :
  NoDup (map f (dict_values d)) ->
  NoDup (map f (dict_values (dict_del eqb k d))).
Proof.
  induction d as [|[k' v'] d IH]; cbn; intros N; [constructor|].
  inversion N as [|? ? Hk N']; subst.
  destruct (eqb k k'); cbn; [exact N'|].
  constructor; [|now apply IH].
  intros Hin. apply in_map_iff in Hin as (x & Hx & Hin).
  apply dict_del_values in Hin. apply Hk. rewrite <- Hx. now apply in_map.
Qed.
End DictNoDup.

Lemma keeps_well_formed_frame : frame keeps_well_formed.
Proof.
  split.
  - intros s H. exact H.
  - intros a b c Hab Hbc H. auto.
  - intros e s H. exact H.
  - intros l b s H. exact H.
  - intros c s H. exact H.
Qed.

Ltac wf_split :=
  split; [split|split; [|split; [|split]]]; proj; auto.

Lemma wf_del_client c s :
  keeps_well_formed s (set_clients (dict_del Nat.eqb c (clients s)) s).
Proof.
  intros [[Ic Ip] [Ev [Nc [Np Ni]]]]. wf_split.
  - intros id H. apply Ic. unfold client_ids in *. proj_in H.
    apply in_map_iff in H as (u & <- & H). apply in_map.
    eapply dict_del_values; eauto.
  - now apply dict_del_nodup.
  - unfold client_ids. proj. now apply dict_del_values_nodup.
Qed.

Lemma wf_del_pending pid s :
  keeps_well_formed s (set_pending (dict_del Z.eqb pid (pending s)) s).
Proof.
  intros [[Ic Ip] [Ev [Nc [Np Ni]]]]. wf_split.
  - intros id H. apply Ip. unfold pending_ids in *. proj_in H.
    eapply dict_del_keys; eauto.
  - unfold pending_ids. proj. now apply dict_del_nodup.
Qed.

Lemma wf_create_pending c name addr :
  respects keeps_well_formed (create_pending c name addr).
Proof.
  intros s [[Ic Ip] [Ev [Nc [Np Ni]]]]. unfold create_pending. run.
  wf_split.
  - unfold pending_ids. proj. intros id H.
    apply dict_set_keys in H as [->|H]; [lia|].
    specialize (Ip id H). lia.
  - intros p H. specialize (Ev p H). lia.
  - unfold pending_ids. proj. apply dict_set_nodup; auto using Z.eqb_eq.
Qed.

Lemma wf_register_client c name addr :
  respects keeps_well_formed (register_client c name addr).
Proof.
  intros s [[Ic Ip] [Ev [Nc [Np Ni]]]]. unfold register_client. run.
  wf_split.
  - unfold client_ids. proj. intros id H.
    apply in_map_iff in H as (u & <- & H).
    apply dict_set_values in H as [->|H]; [cbn; lia|].
    assert (Hu : In (u_id u) (client_ids s)) by now apply in_map.
    specialize (Ic _ Hu). lia.
  - apply dict_set_nodup; auto using Nat.eqb_eq.
  - unfold client_ids. proj. apply dict_set_values_nodup; auto.
    cbn. intros H. specialize (Ic _ H). lia.
Qed.

Lemma wf_resolve_pending decision pid :
  respects keeps_well_formed (resolve_pending decision pid).
Proof.
  intros s [[Ic Ip] [Ev [Nc [Np Ni]]]]. unfold resolve_pending. run.
  destruct (dict_get Z.eqb pid (pending s)) as [info|] eqn:G; cbv beta; proj;
    cbn [final].
  - assert (Hk : In pid (pending_ids s))
      by (eapply dict_get_keys; eauto using Z.eqb_eq).
    wf_split.
    + unfold pending_ids. proj. intros id H.
      apply dict_set_keys in H as [->|H]; auto.
    + intros p [<-|H]; auto.
    + unfold pending_ids. proj. apply dict_set_nodup; auto using Z.eqb_eq.
  - wf_split.
Qed.

Lemma wf_clear_pending s : keeps_well_formed s (set_pending [] s).
Proof.
  intros [[Ic Ip] [Ev [Nc [Np Ni]]]]. wf_split.
  - intros id [].
  - constructor.
Qed.

Lemma wf_clear_clients s : keeps_well_formed s (set_clients [] s).
Proof.
  intros [[Ic Ip] [Ev [Nc [Np Ni]]]]. wf_split.
  - intros id [].
  - constructor.
  - constructor.
Qed.

Lemma wf_set_running b s : keeps_well_formed s (set_running b s).
Proof. intros [[Ic Ip] [Ev [Nc [Np Ni]]]]. wf_split. Qed.

Ltac respects_wf :=
  repeat first
    [ match goal with
      | |- respects _ (match ?x with _ => _ end) => destruct x
      end
    | apply (respects_ret keeps_well_formed_frame)
    | apply (respects_gets keeps_well_formed_frame)
    | apply (respects_print keeps_well_formed_frame)
    | apply (respects_close keeps_well_formed_frame)
    | apply (respects_sendall keeps_well_formed_frame)
    | apply (respects_event_wait keeps_well_formed_frame)
    | apply (respects_broadcast_message keeps_well_formed_frame wf_del_client)
    | apply (respects__disconnect_conn keeps_well_formed_frame wf_del_client)
    | apply wf_create_pending
    | apply wf_register_client
    | apply wf_resolve_pending
    | apply (respects_with_lock keeps_well_formed_frame)
    | apply (respects_for_each keeps_well_formed_frame); intros ?
    | apply (respects_bind keeps_well_formed_frame); [|intros ?]
    | match goal with
      | |- respects _ (modify (set_pending [])) =>
        apply respects_modify; intros ?; apply wf_clear_pending
      | |- respects _ (modify (set_clients [])) =>
        apply respects_modify; intros ?; apply wf_clear_clients
      | |- respects _ (modify (set_running _)) =>
        apply respects_modify; intros ?; apply wf_set_running
      | |- respects _ (modify (log _)) =>
        apply respects_modify; intros ?;
        apply (frame_log keeps_well_formed_frame)
      | |- respects _ (modify _) => apply respects_modify; intros ?
      end ].

Lemma wf_handle_new_connection_until_wait c addr r :
  respects keeps_well_formed (handle_new_connection_until_wait c addr r).
Proof. unfold handle_new_connection_until_wait. respects_wf. Qed.

Lemma wf_handle_new_connection_after_wait c addr pid name :
  respects keeps_well_formed (handle_new_connection_after_wait c addr pid name).
Proof.
  unfold handle_new_connection_after_wait. respects_wf.
  apply wf_del_pending.
Qed.

Lemma wf_operator_cli_line line :
  respects keeps_well_formed (operator_cli_line line).
Proof.
  unfold operator_cli_line.
  destruct (match line with Some l => strip l | None => lit "stop" end);
    [respects_wf|].
  destruct (parse_command _) as [action arg].
  repeat match goal with
         | |- respects _ (if ?b then _ else _) => destruct b
         end;
    try (apply (respects_bind keeps_well_formed_frame);
         [|intros ?; apply (respects_ret keeps_well_formed_frame)]).
  - unfold pending_command. respects_wf.
  - unfold resolve_command. respects_wf.
  - unfold resolve_command. respects_wf.
  - unfold list_command. respects_wf.
  - unfold kick_command. respects_wf.
  - unfold broadcast_command. respects_wf.
  - unfold stop_command, stop_reject_pending, stop_disconnect_clients.
    respects_wf.
  - respects_wf.
  - respects_wf.
Qed.

Lemma wf_handle_new_connection_wake pid :
  respects keeps_well_formed (handle_new_connection_wake pid).
Proof.
  unfold handle_new_connection_wake. respects_wf. apply wf_del_pending.
Qed.

Lemma wf_handle_new_connection_decide c addr name info :
  respects keeps_well_formed (handle_new_connection_decide c addr name info).
Proof. unfold handle_new_connection_decide. respects_wf. Qed.

Lemma step_well_formed s s' : step s s' -> well_formed s -> well_formed s'.
Proof.
  intros [c addr r s0|c addr pid name s0|c addr uid name inputs s0|line s0
         |pid s0|c addr name info s0|c uid name s0|c name r s0|c s0].
  - apply wf_handle_new_connection_until_wait.
  - apply wf_handle_new_connection_after_wait.
  - apply (respects_handle_accepted_client keeps_well_formed_frame wf_del_client).
  - apply wf_operator_cli_line.
  - apply wf_handle_new_connection_wake.
  - apply wf_handle_new_connection_decide.
  - unfold session_entry. apply (respects_bind keeps_well_formed_frame);
      [apply (respects_gets keeps_well_formed_frame)|intros []].
    + apply (respects_messaging_entry keeps_well_formed_frame wf_del_client).
    + apply (respects_voice_entry keeps_well_formed_frame wf_del_client).
  - unfold session_turn. apply (respects_bind keeps_well_formed_frame);
      [apply (respects_gets keeps_well_formed_frame)|intros []].
    + apply (respects_messaging_chunk keeps_well_formed_frame wf_del_client).
    + apply (respects_voice_chunk keeps_well_formed_frame wf_del_client).
  - apply (respects__disconnect_conn keeps_well_formed_frame wf_del_client).
Qed.

Lemma init_well_formed m : well_formed (init_state m).
Proof.
  split; [split; intros id []|]. split; [intros id []|].
  repeat split; constructor.
Qed.

Lemma steps_well_formed s s' : steps s s' -> well_formed s -> well_formed s'.
Proof.
  induction 1 as [|s1 s2 s3 _ IH Hs]; intros W; [exact W|].
  eapply step_well_formed; eauto.
Qed.

Lemma reachable_well_formed s : reachable s -> well_formed s.
Proof.
  intros [m H]. eapply steps_well_formed; [exact H|apply init_well_formed].
Qed.

Lemma mem_pid_false pid l : ~ In pid l -> mem_pid pid l = false.
Proof.
  intros H. unfold mem_pid. destruct (existsb (Z.eqb pid) l) eqn:E; [|reflexivity].
  apply existsb_exists in E as (x & Hin & Hx). apply Z.eqb_eq in Hx. now subst.
Qed.

Lemma two_clients_reachable m : reachable (Scenario.two_clients m).
Proof.
  exists m. apply (@steps_trans _ (Scenario.one_client m)).
  - unfold Scenario.one_client. apply enter_steps.
  - unfold Scenario.two_clients. apply enter_steps.
Qed.

Lemma nodup_map_inj X Y (f : X -> Y) (l : list X) a b :
  NoDup (map f l) -> In a l -> In b l -> f a = f b -> a = b.
Proof.
  induction l as [|x l IH]; cbn; intros N Ha Hb E; [contradiction|].
  inversion N as [|? ? Hx N']; subst.
  destruct Ha as [->|Ha], Hb as [->|Hb]; auto.
  - exfalso. apply Hx. rewrite E. now apply in_map.
  - exfalso. apply Hx. rewrite <- E. now apply in_map.
Qed.

(** *** Admission needs the operator *)

(** X9. A connection is never admitted by its handshake alone.  From any
    state the server can be in, with the pending table free, the handshake
    thread of a new connection registers nobody and never starts a relay;
    when the handshake is well formed the thread stops at the wait for the
    event of the pending id it was given, having sent nothing to the
    connection and not closed it. *)
Theorem no_admission_without_decision c addr r s :
  reachable s ->
  pending_lock s = false ->
  clients (final (handle_new_connection c addr r s)) = clients s
  /\ (forall uid s', handle_new_connection c addr r s <> Done (Relay uid) s')
  /\ (malformed r = false ->
      exists s',
        handle_new_connection c addr r s
        = Blocked (OnEvent (next_pending_id s)) s'
        /\ closed s' = closed s
        /\ sent_to c (trace s') = sent_to c (trace s)).
Proof.
  intros R L.
  destruct (reachable_well_formed R) as (_ & Ev & _).
  assert (E : mem_pid (next_pending_id s) (events_set s) = false).
  { apply mem_pid_false. intros H. specialize (Ev _ H). lia. }
  unfold handle_new_connection, handle_new_connection_until_wait.
  destruct r as [raw| | |]; cbn [malformed].
  - destruct (startswith (lit "NAME:") (strip (decode_ignore raw))) eqn:P.
    + unfold create_pending. run. rewrite L. proj.
      rewrite handshake_waits_for_event by (proj; exact E).
      cbn [final]. proj. split; [reflexivity|]. split; [discriminate|].
      intros _. eexists. split; [reflexivity|]. proj. split; [reflexivity|].
      rewrite !sent_to_app. cbn [sent_to]. now rewrite !app_nil_r.
    + run. proj. split; [reflexivity|]. split; [discriminate|discriminate].
  - run. proj. split; [reflexivity|]. split; [discriminate|discriminate].
  - run. proj. split; [reflexivity|]. split; [discriminate|discriminate].
  - run. proj. split; [reflexivity|]. split; [discriminate|discriminate].
Qed.

Lemma no_admission_without_decision_witness :
  clients (final (handle_new_connection 3 Scenario.addr_c (RecvData "NAME:carol")
                    (Scenario.two_clients VOICE)))
  = clients (Scenario.two_clients VOICE)
  /\ exists s',
       handle_new_connection 3 Scenario.addr_c (RecvData "NAME:carol")
         (Scenario.two_clients VOICE)
       = Blocked (OnEvent 3) s'.
Proof.
  assert (L : pending_lock (Scenario.two_clients VOICE) = false)
    by (vm_compute; reflexivity).
  assert (P : malformed (RecvData "NAME:carol") = false)
    by (vm_compute; reflexivity).
  assert (N : next_pending_id (Scenario.two_clients VOICE) = 3%Z)
    by (vm_compute; reflexivity).
  destruct (@no_admission_without_decision 3 Scenario.addr_c
              (RecvData "NAME:carol") (Scenario.two_clients VOICE)
              (two_clients_reachable VOICE) L) as (H1 & _ & H3).
  split; [exact H1|].
  destruct (H3 P) as (s' & H & _). rewrite N in H. exists s'. exact H.
Defined.

(** X10. In every state the server can be in, a user id names at most one
    registered connection, and a pending id at most one pending entry: the
    ids in the registry are pairwise distinct, and so are the pending ids. *)
Theorem user_id_names_one_client s c1 c2 u1 u2 :
  reachable s ->
  dict_get Nat.eqb c1 (clients s) = Some u1 ->
  dict_get Nat.eqb c2 (clients s) = Some u2 ->
  u_id u1 = u_id u2 ->
  c1 = c2 /\ u1 = u2 /\ NoDup (client_ids s) /\ NoDup (pending_ids s).
Proof.
  intros R G1 G2 E.
  destruct (reachable_well_formed R) as (_ & _ & _ & Np & Ni).
  apply dict_get_in in G1; [|apply Nat.eqb_eq].
  apply dict_get_in in G2; [|apply Nat.eqb_eq].
  assert (H : (c1, u1) = (c2, u2)).
  { apply (@nodup_map_inj _ _ (fun p : conn * user => u_id (snd p))
             (clients s)); auto.
    unfold client_ids, dict_values in Ni. now rewrite map_map in Ni. }
  injection H as -> ->. auto.
Qed.

Lemma user_id_names_one_client_witness :
  NoDup (client_ids (Scenario.two_clients MESSAGING))
  /\ NoDup (pending_ids (Scenario.two_clients MESSAGING)).
Proof.
  assert (G : dict_get Nat.eqb 2 (clients (Scenario.two_clients MESSAGING))
              = Some {| u_id := 2; u_name := lit "bob";
                        u_addr := Scenario.addr_b |})
    by (vm_compute; reflexivity).
  exact (proj2 (proj2 (@user_id_names_one_client
                         (Scenario.two_clients MESSAGING) 2 2 _ _
                         (two_clients_reachable MESSAGING) G G eq_refl))).
Defined.

(** *** The operator's commands *)

Ltac decide_action :=
  repeat match goal with
         | |- context [str_eqb ?a ?b] =>
           let v := eval vm_compute in (str_eqb a b) in
           change (str_eqb a b) with v
         end;
  cbv iota.

Ltac open_command P :=
  unfold operator_cli_line;
  match goal with
  | |- context [strip ?line] =>
    let C := fresh "C" in
    assert (C : strip line <> [])
      by (eapply parse_command_action; [exact P|discriminate]);
    destruct (strip line) eqn:?; [congruence|]
  end;
  rewrite P; decide_action.

Lemma operator_kick line arg :
  parse_command (strip line) = (lit "kick", arg) ->
  operator_cli_line (Some line) = (kick_command arg ;; ret Continue).
Proof. intros P. open_command P. reflexivity. Qed.

Lemma operator_broadcast line arg :
  parse_command (strip line) = (lit "broadcast", arg) ->
  operator_cli_line (Some line) = (broadcast_command arg ;; ret Continue).
Proof. intros P. open_command P. reflexivity. Qed.

Lemma operator_list line arg :
  parse_command (strip line) = (lit "list", arg) ->
  operator_cli_line (Some line) = (list_command ;; ret Continue).
Proof. intros P. open_command P. reflexivity. Qed.

Lemma operator_pending line arg :
  parse_command (strip line) = (lit "pending", arg) ->
  operator_cli_line (Some line) = (pending_command ;; ret Continue).
Proof. intros P. open_command P. reflexivity. Qed.

Lemma operator_resolve line decision arg :
  parse_command (strip line)
  = ((if decision : bool then lit "accept" else lit "reject"), arg) ->
  operator_cli_line (Some line) = (resolve_command decision arg ;; ret Continue).
Proof. intros P. destruct decision; open_command P; reflexivity. Qed.

Lemma operator_stop_line line arg :
  parse_command (strip line) = (lit "stop", arg) ->
  operator_cli_line (Some line) = (stop_command ;; ret Break).
Proof. intros P. open_command P. reflexivity. Qed.

Lemma int_empty : int [] = None.
Proof. reflexivity. Qed.

Lemma find_unknown_id uid (d : dict conn user) :
  ~ In uid (map u_id (dict_values d)) ->
  find (fun '(_, info) => Z.eqb (u_id info) uid) d = None.
Proof.
  induction d as [|[c u] d IH]; cbn; intros H; [reflexivity|].
  destruct (Z.eqb (u_id u) uid) eqn:E.
  - apply Z.eqb_eq in E. tauto.
  - apply IH. tauto.
Qed.

Lemma find_registered_id c u (d : dict conn user) :
  NoDup (map u_id (dict_values d)) ->
  In (c, u) d ->
  find (fun '(_, info) => Z.eqb (u_id info) (u_id u)) d = Some (c, u).
Proof.
  induction d as [|[c' u'] d IH]; cbn; intros N Hin; [contradiction|].
  inversion N as [|? ? Hx N']; subst.
  destruct (Z.eqb (u_id u') (u_id u)) eqn:E.
  - destruct Hin as [H|H]; [now rewrite H|].
    exfalso. apply Hx. apply Z.eqb_eq in E. rewrite E.
    change (u_id u) with (u_id (snd (c, u))).
    unfold dict_values. rewrite map_map. now apply (in_map (fun p => u_id (snd p))).
  - destruct Hin as [H|H]; [|now apply IH].
    injection H as -> ->. rewrite Z.eqb_refl in E. discriminate.
Qed.

(** X11. [kick <id>] with an id that no registered client has: the operator
    is told "No such user id" and the command returns; nothing is sent, and
    the registry, the closed connections and the lock are as before. *)
Theorem kick_unknown_id line arg uid s :
  parse_command (strip line) = (lit "kick", arg) ->
  int arg = Some uid ->
  clients_lock s = false ->
  ~ In uid (client_ids s) ->
  exists s',
    operator_cli_line (Some line) s = Done Continue s'
    /\ trace s'
       = trace s ++ [Acquire ClientsLock; Release ClientsLock;
                     Print (lit "No such user id")]
    /\ clients s' = clients s
    /\ closed s' = closed s
    /\ clients_lock s' = false.
Proof.
  intros P I L U. rewrite (@operator_kick _ _ P). unfold kick_command.
  destruct arg as [|y arg]; [rewrite int_empty in I; discriminate|].
  rewrite I. run. rewrite L. proj.
  rewrite (@find_unknown_id _ _ U).
  eexists. split; [reflexivity|]. proj. rewrite <- !app_assoc. repeat split.
Qed.

Lemma kick_unknown_id_witness :
  exists s',
    operator_cli_line (Some (lit "kick 7")) (Scenario.two_clients MESSAGING)
    = Done Continue s'
    /\ clients s' = clients (Scenario.two_clients MESSAGING).
Proof.
  assert (P : parse_command (strip (lit "kick 7")) = (lit "kick", lit "7"))
    by (vm_compute; reflexivity).
  assert (I : int (lit "7") = Some 7%Z) by (vm_compute; reflexivity).
  assert (L : clients_lock (Scenario.two_clients MESSAGING) = false)
    by (vm_compute; reflexivity).
  assert (C : client_ids (Scenario.two_clients MESSAGING) = [1; 2]%Z)
    by (vm_compute; reflexivity).
  destruct (@kick_unknown_id (lit "kick 7") (lit "7") 7%Z
              (Scenario.two_clients MESSAGING) P I L)
    as (s' & H1 & _ & H2 & _).
  - rewrite C. cbn. intuition discriminate.
  - exists s'. split; [exact H1|exact H2].
Defined.

(** X12. [kick <id>] with the id of a registered client never removes the
    client.  The command sends the kick notice while it holds
    [clients_lock] and then calls [_disconnect_conn], which waits for that
    same lock: the operator's thread stops there for good, the lock stays
    taken, and the client is still in the registry with its connection
    open. *)
Theorem kick_blocks_the_operator line arg c u s :
  reachable s ->
  parse_command (strip line) = (lit "kick", arg) ->
  int arg = Some (u_id u) ->
  clients_lock s = false ->
  dict_get Nat.eqb c (clients s) = Some u ->
  exists s',
    operator_cli_line (Some line) s = Blocked (OnLock ClientsLock) s'
    /\ trace s'
       = trace s ++ [Acquire ClientsLock;
                     Sendall c (encode (lit "[Server]: You were kicked by admin."))
                       (send_ok c s)]
    /\ clients s' = clients s
    /\ closed s' = closed s
    /\ clients_lock s' = true.
Proof.
  intros R P I L G. rewrite (@operator_kick _ _ P). unfold kick_command.
  destruct arg as [|y arg]; [rewrite int_empty in I; discriminate|].
  rewrite I. run. rewrite L. proj.
  destruct (reachable_well_formed R) as (_ & _ & _ & _ & Ni).
  rewrite (@find_registered_id c u (clients s) Ni)
    by (eapply dict_get_in; [apply Nat.eqb_eq|exact G]).
  unfold _disconnect_conn, _disconnect_conn_at.
  rewrite disconnect_with_locked by reflexivity.
  eexists. split; [reflexivity|]. proj. rewrite <- !app_assoc. repeat split.
Qed.

Lemma kick_blocks_the_operator_witness :
  exists s',
    operator_cli_line (Some (lit "kick 2")) (Scenario.two_clients MESSAGING)
    = Blocked (OnLock ClientsLock) s'
    /\ clients s' = clients (Scenario.two_clients MESSAGING)
    /\ closed s' = closed (Scenario.two_clients MESSAGING).
Proof.
  assert (P : parse_command (strip (lit "kick 2")) = (lit "kick", lit "2"))
    by (vm_compute; reflexivity).
  assert (L : clients_lock (Scenario.two_clients MESSAGING) = false)
    by (vm_compute; reflexivity).
  assert (G : dict_get Nat.eqb 2 (clients (Scenario.two_clients MESSAGING))
              = Some {| u_id := 2; u_name := lit "bob";
                        u_addr := Scenario.addr_b |})
    by (vm_compute; reflexivity).
  assert (I : int (lit "2")
              = Some (u_id {| u_id := 2; u_name := lit "bob";
                              u_addr := Scenario.addr_b |}))
    by (vm_compute; reflexivity).
  destruct (@kick_blocks_the_operator (lit "kick 2") (lit "2") 2 _
              (Scenario.two_clients MESSAGING)
              (two_clients_reachable MESSAGING) P I L G)
    as (s' & H1 & _ & H2 & H3 & _).
  exists s'. split; [exact H1|]. split; [exact H2|exact H3].
Defined.

(** *** stop, and the end of the operator's loop *)

Lemma for_each_map A B (f : A -> B) body1 body2 (l : list A) s :
  (forall x st, body1 x st = body2 (f x) st) ->
  for_each l body1 s = for_each (map f l) body2 s.
Proof.
  intros H. revert s. induction l as [|x l IH]; intros s; [reflexivity|].
  cbn [for_each map]. unfold bind. rewrite H.
  destruct (body2 (f x) s); auto.
Qed.

Lemma send_close_loop payload keys s :
  for_each keys (fun c => _ <- sendall c payload ;; close c) s
  = Done tt (send_close_all payload keys s).
Proof.
  revert s. induction keys as [|k keys IH]; intros s; [reflexivity|].
  cbn [for_each]. run. unfold send_close_all. cbn [fold_left].
  apply IH.
Qed.

Lemma send_close_all_spec payload keys s :
  let s' := send_close_all payload keys s in
  clients s' = clients s /\ pending s' = pending s
  /\ events_set s' = events_set s /\ running s' = running s
  /\ clients_lock s' = clients_lock s /\ pending_lock s' = pending_lock s
  /\ incl (closed s) (closed s')
  /\ (forall c, In c keys -> In c (closed s'))
  /\ exists tr,
       trace s' = trace s ++ tr
       /\ Forall (send_or_close payload) tr
       /\ forall c, In c keys -> exists ok, In (Sendall c payload ok) tr.
Proof.
  revert s. induction keys as [|k keys IH]; intros s; cbv zeta.
  - unfold send_close_all. cbn [fold_left].
    repeat split; auto using incl_refl; try contradiction.
    exists []. rewrite app_nil_r. repeat split; [constructor|contradiction].
  - unfold send_close_all. cbn [fold_left].
    match goal with |- context [fold_left _ keys ?st] =>
      destruct (IH st) as (C & P & E & R & Lc & Lp & I & Cl & tr & T & F & S)
    end.
    unfold send_close_all in *. proj_in C. proj_in P. proj_in E. proj_in R.
    proj_in Lc. proj_in Lp. proj_in I. proj_in T.
    repeat split; auto.
    + intros x Hx. apply I. now right.
    + intros c [<-|Hc]; [apply I; now left|now apply Cl].
    + exists ([Sendall k payload (send_ok k s); Close k] ++ tr).
      split; [rewrite T, <- !app_assoc; reflexivity|]. split.
      * repeat constructor. exact F.
      * intros c [<-|Hc].
        -- exists (send_ok k s). now left.
        -- destruct (S c Hc) as [ok Hin]. exists ok. right. now right.
Qed.

Lemma same_running_frame : frame same_running.
Proof.
  split; unfold same_running.
  - reflexivity.
  - intros a b c H1 H2. congruence.
  - reflexivity.
  - reflexivity.
  - reflexivity.
Qed.

Lemma same_running_del_client c s :
  same_running s (set_clients (dict_del Nat.eqb c (clients s)) s).
Proof. reflexivity. Qed.

Ltac respects_running :=
  unfold event_set;
  repeat first
    [ match goal with
      | |- respects _ (match ?x with _ => _ end) => destruct x
      end
    | apply (respects_ret same_running_frame)
    | apply (respects_gets same_running_frame)
    | apply (respects_print same_running_frame)
    | apply (respects_close same_running_frame)
    | apply (respects_sendall same_running_frame)
    | apply (respects_event_wait same_running_frame)
    | apply (respects_broadcast_message same_running_frame
               same_running_del_client)
    | apply (respects__disconnect_conn same_running_frame
               same_running_del_client)
    | apply (respects_with_lock same_running_frame)
    | apply (respects_for_each same_running_frame); intros ?
    | apply (respects_bind same_running_frame); [|intros ?]
    | match goal with
      | |- respects _ (modify _) =>
        apply respects_modify; intros ?; reflexivity
      end ].

Lemma same_running_stop_tail :
  respects same_running
    (stop_reject_pending ;; stop_disconnect_clients ;; modify (log CloseServerSock)).
Proof.
  unfold stop_reject_pending, stop_disconnect_clients. respects_running.
Qed.

Lemma done_continue A (m : M A) s ctl s' :
  (m ;; ret Continue) s = Done ctl s' -> ctl = Continue /\ final (m s) = s'.
Proof.
  unfold bind, ret. destruct (m s); intros H; try discriminate.
  injection H as <- <-. auto.
Qed.

(** One turn of the operator's loop that returns has left [running] alone
    when the loop goes on, and has set it to [False] when the loop ends. *)
Lemma operator_cli_line_running line s ctl s' :
  operator_cli_line line s = Done ctl s' ->
  match ctl with
  | Continue => running s' = running s
  | Break => running s' = false
  end.
Proof.
  unfold operator_cli_line.
  destruct (match line with Some l => strip l | None => lit "stop" end);
    [intros [= <- <-]; reflexivity|].
  destruct (parse_command _) as [action arg].
  repeat match goal with
         | |- (if ?b then _ else _) _ = _ -> _ => destruct b
         end;
    intros H;
    try (apply done_continue in H as [-> <-];
         match goal with |- running (final (?m s)) = _ =>
           cut (respects same_running m); [intros Hr; exact (Hr s)|]
         end).
  - unfold pending_command. respects_running.
  - unfold resolve_command, resolve_pending. respects_running.
  - unfold resolve_command, resolve_pending. respects_running.
  - unfold list_command. respects_running.
  - unfold kick_command. respects_running.
  - unfold broadcast_command. respects_running.
  - apply bind_done_inv in H as (a & s1 & H & [= <- <-]).
    unfold stop_command in H.
    erewrite bind_done in H by reflexivity.
    erewrite bind_done in H by reflexivity.
    match type of H with _ ?st = _ =>
      pose proof (same_running_stop_tail st) as Hr
    end.
    rewrite H in Hr. exact Hr.
  - respects_running.
  - respects_running.
Qed.

Lemma operator_eof : operator_cli_line None = (stop_command ;; ret Break).
Proof. reflexivity. Qed.

Lemma operator_loop_returns_stopped lines s s' :
  operator_loop lines s = Done tt s' -> running s' = false.
Proof.
  revert s. induction lines as [|l lines IH]; intros s; cbn [operator_loop];
    unfold bind at 1, gets at 1.
  - destruct (running s) eqn:R; [|intros [= <-]; exact R].
    unfold bind.
    destruct (operator_cli_line None s) as [ctl s1|w s1|s1] eqn:E;
      try discriminate.
    intros [= <-].
    assert (ctl = Break) as ->.
    { rewrite operator_eof in E.
      apply bind_done_inv in E as (a & s2 & _ & [= <- _]). reflexivity. }
    exact (operator_cli_line_running _ _ E).
  - destruct (running s) eqn:R; [|intros [= <-]; exact R].
    unfold bind at 1.
    destruct (operator_cli_line (Some l) s) as [ctl s1|w s1|s1] eqn:E;
      try discriminate.
    destruct ctl.
    + intros [= <-]. exact (operator_cli_line_running _ _ E).
    + apply IH.
Qed.

(** X13. The operator's loop returns only once the server is stopped:
    whatever lines the operator types, when [operator_cli] returns the
    [running] flag is [False].  Every command but [stop] (which the end of
    the input also stands for) leaves the flag alone and goes on with the
    loop: one turn of the loop that ends it has set the flag to [False],
    one that does not has left the flag as it was. *)
Theorem operator_cli_returns_stopped lines s s' :
  operator_cli lines s = Done tt s' ->
  running s' = false
  /\ forall line st ctl st',
       operator_cli_line line st = Done ctl st' ->
       match ctl with
       | Continue => running st' = running st
       | Break => running st' = false
       end.
Proof.
  unfold operator_cli. intros H.
  erewrite bind_done in H by reflexivity.
  split; [exact (operator_loop_returns_stopped _ _ H)|].
  intros line st ctl st'. apply operator_cli_line_running.
Qed.

Lemma operator_cli_returns_stopped_witness :
  running (final (operator_cli [lit "list"; lit "help"; lit "stop"; lit "list"]
                    (init_state MESSAGING))) = false.
Proof.
  assert (E : operator_cli [lit "list"; lit "help"; lit "stop"; lit "list"]
                (init_state MESSAGING)
              = Done tt
                  (final (operator_cli
                            [lit "list"; lit "help"; lit "stop"; lit "list"]
                            (init_state MESSAGING))))
    by (vm_compute; reflexivity).
  exact (proj1 (@operator_cli_returns_stopped _ _ _ E)).
Defined.

Lemma with_lock_free A l (body : M A) s a s1 :
  held l s = false ->
  body (log (Acquire l) (set_lock l true s)) = Done a s1 ->
  with_lock l body s = Done a (log (Release l) (set_lock l false s1)).
Proof.
  intros L H. unfold with_lock, bind, acquire. rewrite L, H. reflexivity.
Qed.

Lemma with_lock_held A l (body : M A) s :
  held l s = true -> with_lock l body s = Blocked (OnLock l) s.
Proof. intros L. unfold with_lock, bind, acquire. now rewrite L. Qed.

Lemma stop_reject_pending_eq s :
  pending_lock s = false ->
  stop_reject_pending s
  = Done tt
      (log (Release PendingLock)
         (set_lock PendingLock false
            (set_pending []
               (send_close_all "REJECT"%string
                  (map (fun x => p_conn (snd x)) (pending s))
                  (log (Acquire PendingLock) (set_lock PendingLock true s)))))).
Proof.
  intros L. unfold stop_reject_pending. apply with_lock_free; [exact L|].
  erewrite bind_done by reflexivity.
  erewrite bind_done; [reflexivity|].
  rewrite (@for_each_map _ _ (fun x : Z * pinfo => p_conn (snd x)) _
             (fun c => _ <- sendall c "REJECT" ;; close c)).
  - apply send_close_loop.
  - intros [pid info] st. reflexivity.
Qed.

Lemma stop_disconnect_clients_eq s :
  clients_lock s = false ->
  stop_disconnect_clients s
  = Done tt
      (log (Release ClientsLock)
         (set_lock ClientsLock false
            (set_clients []
               (send_close_all (encode (lit "[Server]: Server shutting down."))
                  (dict_keys (clients s))
                  (log (Acquire ClientsLock) (set_lock ClientsLock true s)))))).
Proof.
  intros L. unfold stop_disconnect_clients. apply with_lock_free; [exact L|].
  erewrite bind_done by reflexivity.
  erewrite bind_done; [reflexivity|].
  apply send_close_loop.
Qed.

Lemma operator_stops line :
  (forall l, line = Some l ->
             exists arg, parse_command (strip l) = (lit "stop", arg)) ->
  operator_cli_line line = (stop_command ;; ret Break).
Proof.
  intros H. destruct line as [l|]; [|apply operator_eof].
  destruct (H l eq_refl) as [arg P]. exact (operator_stop_line _ P).
Qed.

Lemma stop_command_free s :
  pending_lock s = false ->
  clients_lock s = false ->
  exists s',
    stop_command s = Done tt s'
    /\ running s' = false /\ clients s' = [] /\ pending s' = []
    /\ clients_lock s' = false /\ pending_lock s' = false
    /\ (forall c, In c (dict_keys (clients s)) ->
          In c (closed s')
          /\ exists ok,
               In (Sendall c (encode (lit "[Server]: Server shutting down.")) ok)
                  (trace s'))
    /\ exists tr, trace s' = trace s ++ tr ++ [CloseServerSock].
Proof.
  intros Lp Lc.
  pose (s0 := set_running false (log (Print (lit "Stopping server...")) s)).
  assert (E1 := @stop_reject_pending_eq s0 Lp).
  destruct (send_close_all_spec "REJECT"%string
              (map (fun x => p_conn (snd x)) (pending s0))
              (log (Acquire PendingLock) (set_lock PendingLock true s0)))
    as (C1 & _ & _ & R1 & Lc1 & _ & _ & _ & tr1 & T1 & _).
  remember (send_close_all "REJECT"%string _ _) as s1 eqn:Hs1 in *.
  clear Hs1. subst s0. proj_in C1. proj_in R1. proj_in Lc1. proj_in T1.
  match type of E1 with _ = Done tt ?st => set (s1' := st) in * end.
  assert (Lc' : clients_lock s1' = false)
    by (subst s1'; proj; congruence).
  assert (E2 := @stop_disconnect_clients_eq s1' Lc').
  destruct (send_close_all_spec
              (encode (lit "[Server]: Server shutting down."))
              (dict_keys (clients s1'))
              (log (Acquire ClientsLock) (set_lock ClientsLock true s1')))
    as (_ & P2 & _ & R2 & _ & Lp2 & _ & Cl2 & tr2 & T2 & _ & S2).
  remember (send_close_all (encode _) _ _) as s2 eqn:Hs2 in *.
  clear Hs2. subst s1'. proj_in P2. proj_in R2. proj_in Lp2. proj_in T2.
  proj_in Cl2. proj_in S2. rewrite C1 in Cl2, S2.
  eexists. split.
  - unfold stop_command.
    erewrite bind_done by reflexivity.
    erewrite bind_done by reflexivity.
    erewrite bind_done by exact E1.
    erewrite bind_done by exact E2.
    reflexivity.
  - proj. split; [congruence|]. split; [reflexivity|]. split; [exact P2|].
    split; [reflexivity|]. split; [exact Lp2|]. split.
    + intros c Hc. split; [now apply Cl2|].
      destruct (S2 c Hc) as [ok Hin]. exists ok. rewrite T2.
      apply in_or_app. left. apply in_or_app. left. apply in_or_app. now right.
    + exists ([Print (lit "Stopping server..."); Acquire PendingLock] ++ tr1
              ++ [Release PendingLock; Acquire ClientsLock] ++ tr2
              ++ [Release ClientsLock]).
      rewrite T2, T1. rewrite <- !app_assoc. reflexivity.
Qed.

(** X14. [stop] (or the end of the operator's input) with both locks free:
    the command returns and ends the loop; [running] is [False]; every
    registered connection has been sent the shutdown notice and closed; the
    registry and the pending table are empty; both locks are free again;
    and the last thing done is closing the listening socket. *)
Theorem stop_disconnects_everyone line s :
  (forall l, line = Some l ->
             exists arg, parse_command (strip l) = (lit "stop", arg)) ->
  pending_lock s = false ->
  clients_lock s = false ->
  exists s',
    operator_cli_line line s = Done Break s'
    /\ running s' = false /\ clients s' = [] /\ pending s' = []
    /\ clients_lock s' = false /\ pending_lock s' = false
    /\ (forall c, In c (dict_keys (clients s)) ->
          In c (closed s')
          /\ exists ok,
               In (Sendall c (encode (lit "[Server]: Server shutting down.")) ok)
                  (trace s'))
    /\ exists tr, trace s' = trace s ++ tr ++ [CloseServerSock].
Proof.
  intros P Lp Lc. rewrite (operator_stops P).
  destruct (@stop_command_free s Lp Lc) as (s' & E & H).
  exists s'. split; [|exact H].
  erewrite bind_done by exact E. reflexivity.
Qed.

Lemma stop_disconnects_everyone_witness :
  exists s',
    operator_cli_line (Some (lit "STOP now")) (Scenario.two_clients VOICE)
    = Done Break s'
    /\ clients s' = [] /\ In 2 (closed s').
Proof.
  assert (Lp : pending_lock (Scenario.two_clients VOICE) = false)
    by (vm_compute; reflexivity).
  assert (Lc : clients_lock (Scenario.two_clients VOICE) = false)
    by (vm_compute; reflexivity).
  assert (K : In 2 (dict_keys (clients (Scenario.two_clients VOICE)))).
  { assert (E : dict_keys (clients (Scenario.two_clients VOICE)) = [1; 2])
      by (vm_compute; reflexivity).
    rewrite E. right. now left. }
  destruct (@stop_disconnects_everyone (Some (lit "STOP now"))
              (Scenario.two_clients VOICE)) as (s' & H1 & _ & H2 & _ & _ & _ & H3 & _).
  - intros l [= <-]. exists (lit "now"). vm_compute. reflexivity.
  - exact Lp.
  - exact Lc.
  - exists s'. split; [exact H1|]. split; [exact H2|]. exact (proj1 (H3 2 K)).
Defined.

(** X15. [stop] once a thread is stuck holding [clients_lock] (which is
    what any client leaving causes): the pending connections are still
    rejected and [running] set to [False], but the command then waits for
    [clients_lock] for good.  No registered client is told of the shutdown
    or closed by it, the registry keeps its entries, and the listening
    socket is never closed. *)
Theorem stop_hangs_when_registry_is_stuck line s :
  (forall l, line = Some l ->
             exists arg, parse_command (strip l) = (lit "stop", arg)) ->
  pending_lock s = false ->
  clients_lock s = true ->
  exists s',
    operator_cli_line line s = Blocked (OnLock ClientsLock) s'
    /\ running s' = false /\ pending s' = [] /\ clients s' = clients s
    /\ exists tr,
         trace s' = trace s ++ tr
         /\ ~ In CloseServerSock tr
         /\ forall c d ok, In (Sendall c d ok) tr -> d = "REJECT"%string.
Proof.
  intros P Lp Lc. rewrite (operator_stops P).
  pose (s0 := set_running false (log (Print (lit "Stopping server...")) s)).
  assert (E1 := @stop_reject_pending_eq s0 Lp).
  destruct (send_close_all_spec "REJECT"%string
              (map (fun x => p_conn (snd x)) (pending s0))
              (log (Acquire PendingLock) (set_lock PendingLock true s0)))
    as (C1 & _ & _ & R1 & Lc1 & _ & _ & _ & tr1 & T1 & F1 & _).
  remember (send_close_all "REJECT"%string _ _) as s1 eqn:Hs1 in *.
  clear Hs1. subst s0. proj_in C1. proj_in R1. proj_in Lc1. proj_in T1.
  match type of E1 with _ = Done tt ?st => set (s1' := st) in * end.
  assert (Lc' : held ClientsLock s1' = true)
    by (subst s1'; cbn [held]; proj; congruence).
  assert (E : stop_command s = Blocked (OnLock ClientsLock) s1').
  { unfold stop_command.
    erewrite bind_done by reflexivity.
    erewrite bind_done by reflexivity.
    erewrite bind_done by exact E1.
    unfold stop_disconnect_clients, bind at 1.
    rewrite (@with_lock_held _ _ _ _ Lc'). reflexivity. }
  exists s1'. split; [unfold bind; now rewrite E|].
  subst s1'. proj. split; [exact R1|]. split; [reflexivity|].
  split; [exact C1|].
  exists ([Print (lit "Stopping server..."); Acquire PendingLock] ++ tr1
          ++ [Release PendingLock]).
  split; [rewrite T1, <- !app_assoc; reflexivity|].
  assert (F : Forall (fun e => e <> CloseServerSock
                               /\ forall c d ok, e = Sendall c d ok ->
                                                 d = "REJECT"%string)
                tr1).
  { eapply Forall_impl; [|exact F1]. intros e He.
    destruct e; cbn in He; try contradiction.
    - split; [discriminate|]. intros ? ? ? [= _ <- _]. exact He.
    - split; [discriminate|]. discriminate. }
  rewrite Forall_forall in F. split.
  - intros H. cbn in H. destruct H as [H|[H|H]]; try discriminate.
    apply in_app_or in H as [H|[H|[]]]; [|discriminate].
    now apply (F _ H).
  - intros c d ok H. cbn in H. destruct H as [H|[H|H]]; try discriminate.
    apply in_app_or in H as [H|[H|[]]]; [|discriminate].
    exact (proj2 (F _ H) c d ok eq_refl).
Qed.

Lemma stop_hangs_when_registry_is_stuck_witness :
  exists s',
    operator_cli_line (Some (lit "stop")) (Scenario.bob_left MESSAGING)
    = Blocked (OnLock ClientsLock) s'
    /\ clients s' = clients (Scenario.bob_left MESSAGING).
Proof.
  assert (Lp : pending_lock (Scenario.bob_left MESSAGING) = false)
    by (vm_compute; reflexivity).
  assert (Lc : clients_lock (Scenario.bob_left MESSAGING) = true)
    by (vm_compute; reflexivity).
  destruct (@stop_hangs_when_registry_is_stuck (Some (lit "stop"))
              (Scenario.bob_left MESSAGING))
    as (s' & H1 & _ & _ & H2 & _).
  - intros l [= <-]. exists []. vm_compute. reflexivity.
  - exact Lp.
  - exact Lc.
  - exists s'. split; [exact H1|exact H2].
Defined.

(** *** Commands that only print *)

Lemma for_each_print A (l : list A) body (f : A -> str) s :
  (forall x st, body x st = print (f x) st) ->
  for_each l body s = Done tt (log_all (map (fun x => Print (f x)) l) s).
Proof.
  intros H. revert s. induction l as [|x l IH]; intros s; [reflexivity|].
  cbn [for_each map]. unfold bind. rewrite H. unfold print, modify.
  rewrite IH. reflexivity.
Qed.

(** X16. [list], with the registry free, prints one line per registered
    client, in the order of the registry, giving the client's id, name,
    host and port, or "No connected clients." when the registry is empty;
    the registry is not changed and the lock is free again. *)
Theorem list_shows_every_client line arg s :
  parse_command (strip line) = (lit "list", arg) ->
  clients_lock s = false ->
  exists s',
    operator_cli_line (Some line) s = Done Continue s'
    /\ trace s'
       = trace s ++ [Acquire ClientsLock]
         ++ match clients s with
            | [] => [Print (lit "No connected clients.")]
            | cl => map (fun x => Print (client_line (snd x))) cl
            end
         ++ [Release ClientsLock]
    /\ clients s' = clients s
    /\ clients_lock s' = false.
Proof.
  intros P L. rewrite (@operator_list _ _ P). unfold list_command.
  destruct (clients s) as [|x cl] eqn:C.
  - run. rewrite L. proj. rewrite C.
    eexists. split; [reflexivity|]. proj. rewrite C, <- !app_assoc.
    repeat split.
  - erewrite bind_done.
    2:{ apply with_lock_free; [exact L|].
        erewrite bind_done by reflexivity. proj. rewrite C.
        apply (@for_each_print _ _ _ (fun x => client_line (snd x))).
        intros [c info] st. reflexivity. }
    eexists. split; [reflexivity|]. proj.
    match goal with |- context [log_all ?es ?st] =>
      destruct (log_all_spec es st) as (T & Cl & _) end.
    rewrite T, Cl. proj. rewrite C, <- !app_assoc. repeat split.
Qed.

Lemma list_shows_every_client_witness :
  exists s',
    operator_cli_line (Some (lit "list")) (Scenario.two_clients MESSAGING)
    = Done Continue s'
    /\ trace s'
       = trace (Scenario.two_clients MESSAGING)
         ++ [Acquire ClientsLock;
             Print (lit "ID:1 Name:alice IP:10.0.0.1 Port:50001");
             Print (lit "ID:2 Name:bob IP:10.0.0.2 Port:50002");
             Release ClientsLock].
Proof.
  assert (P : parse_command (strip (lit "list")) = (lit "list", []))
    by (vm_compute; reflexivity).
  assert (L : clients_lock (Scenario.two_clients MESSAGING) = false)
    by (vm_compute; reflexivity).
  assert (C : [Acquire ClientsLock]
              ++ match clients (Scenario.two_clients MESSAGING) with
                 | [] => [Print (lit "No connected clients.")]
                 | cl => map (fun x => Print (client_line (snd x))) cl
                 end
              ++ [Release ClientsLock]
              = [Acquire ClientsLock;
                 Print (lit "ID:1 Name:alice IP:10.0.0.1 Port:50001");
                 Print (lit "ID:2 Name:bob IP:10.0.0.2 Port:50002");
                 Release ClientsLock])
    by (vm_compute; reflexivity).
  destruct (@list_shows_every_client (lit "list") []
              (Scenario.two_clients MESSAGING) P L) as (s' & H1 & H2 & _).
  exists s'. split; [exact H1|]. rewrite H2, C. reflexivity.
Defined.

Lemma talk_only_refl s : talk_only s s.
Proof.
  split; auto. exists []. rewrite app_nil_r. split; [reflexivity|constructor].
Qed.

Lemma talk_only_trans a b c : talk_only a b -> talk_only b c -> talk_only a c.
Proof.
  intros [C1 P1 E1 Cl1 R1 U1 I1 (t1 & T1 & F1)]
         [C2 P2 E2 Cl2 R2 U2 I2 (t2 & T2 & F2)].
  split; try congruence.
  exists (t1 ++ t2). split; [now rewrite T2, T1, app_assoc|].
  apply Forall_app. auto.
Qed.

Lemma talk_only_log e s : is_talk e -> talk_only s (log e s).
Proof.
  intros H. split; auto. exists [e]. split; [reflexivity|].
  constructor; [exact H|constructor].
Qed.

Lemma talk_only_lock l b s : talk_only s (set_lock l b s).
Proof.
  split; destruct l; auto; exists []; rewrite app_nil_r;
    (split; [reflexivity|constructor]).
Qed.

Lemma talk_only_bind A B (m : M A) (k : A -> M B) :
  respects talk_only m -> (forall a, respects talk_only (k a)) ->
  respects talk_only (bind m k).
Proof.
  intros Hm Hk s. unfold bind. specialize (Hm s).
  destruct (m s) as [a s1|w s1|s1]; cbn [final] in *; auto.
  eapply talk_only_trans; [exact Hm|apply Hk].
Qed.

Lemma talk_only_print line : respects talk_only (print line).
Proof. intros s. now apply talk_only_log. Qed.

Lemma talk_only_with_lock A l (body : M A) :
  respects talk_only body -> respects talk_only (with_lock l body).
Proof.
  intros H. unfold with_lock. apply talk_only_bind.
  - intros s. unfold acquire. destruct (held l s); cbn [final];
      [apply talk_only_refl|].
    eapply talk_only_trans; [apply talk_only_lock|now apply talk_only_log].
  - intros _. apply talk_only_bind; [exact H|intros x].
    apply talk_only_bind; [|intros _ s; apply talk_only_refl].
    intros s. unfold release, modify. cbn [final].
    eapply talk_only_trans; [apply talk_only_lock|now apply talk_only_log].
Qed.

Lemma talk_only_for_each A (l : list A) body :
  (forall x, respects talk_only (body x)) ->
  respects talk_only (for_each l body).
Proof.
  intros H. induction l as [|x l IH]; cbn [for_each].
  - intros s. apply talk_only_refl.
  - apply talk_only_bind; auto.
Qed.

Lemma existsb_acting action :
  existsb (str_eqb action) acting_commands = false ->
  str_eqb action (lit "accept") = false
  /\ str_eqb action (lit "reject") = false
  /\ str_eqb action (lit "kick") = false
  /\ str_eqb action (lit "broadcast") = false
  /\ str_eqb action (lit "stop") = false.
Proof.
  unfold acting_commands. cbn [existsb]. intros H.
  repeat (apply orb_false_iff in H as [? H]). auto.
Qed.

(** X17. A line of the operator that is none of accept, reject, kick,
    broadcast and stop ([pending], [list], [help], a blank line, an unknown
    word) only prints: whatever the state, the registry, the pending table,
    the events, the closed connections, the counters and [running] are as
    before, and all that is logged is printed lines and lock events, so
    nothing is sent to anybody. *)
Theorem other_commands_only_print line s :
  existsb (str_eqb (fst (parse_command (strip line)))) acting_commands = false ->
  talk_only s (final (operator_cli_line (Some line) s)).
Proof.
  intros H. apply existsb_acting in H as (H1 & H2 & H3 & H4 & H5).
  unfold operator_cli_line.
  destruct (strip line) as [|x cmd]; [apply talk_only_refl|].
  destruct (parse_command (x :: cmd)) as [action arg]. cbn [fst] in *.
  rewrite H1, H2, H3, H4, H5.
  revert s.
  change (respects talk_only
    (if str_eqb action (lit "pending") then pending_command ;; ret Continue
     else if str_eqb action (lit "list") then list_command ;; ret Continue
     else if str_eqb action (lit "help") then print help_text ;; ret Continue
     else print (lit "Unknown command. Type 'help' for commands.") ;;
          ret Continue)).
  repeat match goal with
         | |- respects _ (if ?b then _ else _) => destruct b
         end;
    (apply talk_only_bind; [|intros _ s; apply talk_only_refl]).
  - unfold pending_command. apply talk_only_with_lock.
    apply talk_only_bind; [intros s; apply talk_only_refl|intros p].
    destruct p; [apply talk_only_print|].
    apply talk_only_for_each. intros [pid info]. apply talk_only_print.
  - unfold list_command. apply talk_only_with_lock.
    apply talk_only_bind; [intros s; apply talk_only_refl|intros cl].
    destruct cl; [apply talk_only_print|].
    apply talk_only_for_each. intros [c info]. apply talk_only_print.
  - apply talk_only_print.
  - apply talk_only_print.
Qed.

Lemma other_commands_only_print_witness :
  pending (final (operator_cli_line (Some (lit "pending"))
                    (Scenario.alice_pending VOICE)))
  = pending (Scenario.alice_pending VOICE).
Proof.
  assert (H : existsb (str_eqb (fst (parse_command (strip (lit "pending")))))
                acting_commands = false) by (vm_compute; reflexivity).
  exact (to_pending (@other_commands_only_print (lit "pending")
                       (Scenario.alice_pending VOICE) H)).
Defined.

(** *** Ids in print and back *)

Lemma lit_string c s : lit (String c s) = N_of_ascii c :: lit s.
Proof. reflexivity. Qed.

Lemma digits_step acc b c t :
  is_digit c = true ->
  digits acc b (c :: t) = digits (acc * 10 + Z.of_N (c - 0x30)) true t.
Proof. intros H. cbn [digits]. now rewrite H. Qed.

Ltac digit_case IH d' D :=
  rewrite lit_string, digits_step by reflexivity;
  rewrite <- (IH (D d'));
  f_equal; cbn [DecimalPos.Unsigned.of_lu];
  match goal with |- context [N_of_ascii ?c] =>
    let v := eval vm_compute in (N_of_ascii c) in
    change (N_of_ascii c) with v
  end;
  lia.

Lemma digits_of_uint d d' :
  digits (Z.of_N (DecimalPos.Unsigned.of_lu d')) true
    (lit (NilEmpty.string_of_uint d))
  = Some (Z.of_N (DecimalPos.Unsigned.of_lu (Decimal.revapp d d'))).
Proof.
  revert d'.
  induction d as [|d IH|d IH|d IH|d IH|d IH|d IH|d IH|d IH|d IH|d IH];
    intros d'; cbn [NilEmpty.string_of_uint Decimal.revapp]; [reflexivity|..].
  - digit_case IH d' Decimal.D0.
  - digit_case IH d' Decimal.D1.
  - digit_case IH d' Decimal.D2.
  - digit_case IH d' Decimal.D3.
  - digit_case IH d' Decimal.D4.
  - digit_case IH d' Decimal.D5.
  - digit_case IH d' Decimal.D6.
  - digit_case IH d' Decimal.D7.
  - digit_case IH d' Decimal.D8.
  - digit_case IH d' Decimal.D9.
Qed.

Ltac digit0_case D :=
  rewrite lit_string, digits_step by reflexivity;
  match goal with |- digits ?acc true _ = _ =>
    change acc with (Z.of_N (DecimalPos.Unsigned.of_lu (D Decimal.Nil)))
  end;
  rewrite digits_of_uint, DecimalPos.Unsigned.of_uint_alt; reflexivity.

Lemma digits0_of_uint d :
  d <> Decimal.Nil ->
  digits 0 false (lit (NilEmpty.string_of_uint d))
  = Some (Z.of_N (Pos.of_uint d)).
Proof.
  intros H. destruct d; [congruence|..]; cbn [NilEmpty.string_of_uint].
  - digit0_case Decimal.D0.
  - digit0_case Decimal.D1.
  - digit0_case Decimal.D2.
  - digit0_case Decimal.D3.
  - digit0_case Decimal.D4.
  - digit0_case Decimal.D5.
  - digit0_case Decimal.D6.
  - digit0_case Decimal.D7.
  - digit0_case Decimal.D8.
  - digit0_case Decimal.D9.
Qed.

Lemma lstrip_nonspace c t : isspace c = false -> lstrip (c :: t) = c :: t.
Proof. intros H. cbn [lstrip]. now rewrite H. Qed.

Lemma strip_ends c p x q :
  isspace c = false -> isspace x = false ->
  strip (c :: p ++ rev (x :: q)) = c :: p ++ rev (x :: q).
Proof.
  intros Hc Hx. unfold strip, rstrip. rewrite lstrip_nonspace by exact Hc.
  replace (rev (c :: p ++ rev (x :: q))) with (x :: q ++ rev (c :: p)).
  - rewrite lstrip_nonspace by exact Hx.
    change (x :: q ++ rev (c :: p)) with ((x :: q) ++ rev (c :: p)).
    now rewrite rev_app_distr, rev_involutive.
  - change (c :: p ++ rev (x :: q)) with ((c :: p) ++ rev (x :: q)).
    now rewrite rev_app_distr, rev_involutive.
Qed.

Lemma strip_nonspace s :
  Forall (fun c => isspace c = false) s -> strip s = s.
Proof.
  intros F. destruct s as [|c t]; [reflexivity|].
  inversion F as [|? ? Hc Ft]; subst.
  destruct (rev t) as [|x q] eqn:E.
  - apply (f_equal (@rev N)) in E. rewrite rev_involutive in E. subst t.
    unfold strip, rstrip. rewrite lstrip_nonspace by exact Hc.
    cbn [rev app]. now rewrite lstrip_nonspace by exact Hc.
  - assert (Hx : isspace x = false).
    { rewrite Forall_forall in Ft. apply Ft. apply in_rev. rewrite E. now left. }
    apply (f_equal (@rev N)) in E. rewrite rev_involutive in E. subst t.
    exact (@strip_ends c [] x q Hc Hx).
Qed.

Lemma uint_nonspace d :
  Forall (fun c => isspace c = false) (lit (NilEmpty.string_of_uint d)).
Proof.
  induction d; cbn [NilEmpty.string_of_uint]; [constructor|..];
    rewrite lit_string; (constructor; [reflexivity|assumption]).
Qed.

Lemma int_of_uint d :
  d <> Decimal.Nil ->
  int (lit (NilEmpty.string_of_uint d)) = Some (Z.of_N (Pos.of_uint d))
  /\ int (lit (String "-" (NilEmpty.string_of_uint d)))
     = Some (- Z.of_N (Pos.of_uint d))%Z.
Proof.
  intros H. pose proof (digits0_of_uint H) as D. split.
  - unfold int. rewrite strip_nonspace by apply uint_nonspace.
    destruct d; [congruence|..]; exact D.
  - unfold int. rewrite strip_nonspace
      by (rewrite lit_string; constructor; [reflexivity|apply uint_nonspace]).
    rewrite lit_string.
    change (option_map Z.opp (digits 0 false (lit (NilEmpty.string_of_uint d)))
            = Some (- Z.of_N (Pos.of_uint d))%Z).
    now rewrite D.
Qed.

Lemma to_uint_string p :
  NilZero.string_of_uint (Pos.to_uint p)
  = NilEmpty.string_of_uint (Pos.to_uint p).
Proof.
  pose proof (DecimalPos.Unsigned.to_uint_nonnil p) as H.
  destruct (Pos.to_uint p); [congruence|..]; reflexivity.
Qed.

Lemma int_str_of_int z : int (str_of_int z) = Some z.
Proof.
  unfold str_of_int. destruct z as [|p|p]; [reflexivity|..].
  - cbn [Z.to_int NilZero.string_of_int]. rewrite to_uint_string.
    rewrite (proj1 (int_of_uint (DecimalPos.Unsigned.to_uint_nonnil p))).
    now rewrite DecimalPos.Unsigned.of_to.
  - cbn [Z.to_int NilZero.string_of_int]. rewrite to_uint_string.
    rewrite (proj2 (int_of_uint (DecimalPos.Unsigned.to_uint_nonnil p))).
    now rewrite DecimalPos.Unsigned.of_to.
Qed.

Lemma str_of_int_nonspace z :
  Forall (fun c => isspace c = false) (str_of_int z).
Proof.
  unfold str_of_int. destruct z as [|p|p].
  - repeat constructor.
  - cbn [Z.to_int NilZero.string_of_int]. rewrite to_uint_string.
    apply uint_nonspace.
  - cbn [Z.to_int NilZero.string_of_int]. rewrite to_uint_string, lit_string.
    constructor; [reflexivity|apply uint_nonspace].
Qed.

Lemma str_of_int_nonempty z : str_of_int z <> [].
Proof.
  unfold str_of_int. destruct z as [|p|p]; [discriminate| |].
  - cbn [Z.to_int NilZero.string_of_int]. rewrite to_uint_string.
    pose proof (DecimalPos.Unsigned.to_uint_nonnil p) as H.
    destruct (Pos.to_uint p); [congruence|..]; discriminate.
  - cbn [Z.to_int NilZero.string_of_int]. rewrite lit_string. discriminate.
Qed.

Lemma split_once_app a b :
  Forall (fun c => (c =? 0x20)%N = false) a ->
  split_once (a ++ 0x20%N :: b) = (a, Some b).
Proof.
  induction 1 as [|c a Hc _ IH]; [reflexivity|].
  cbn [app split_once]. now rewrite Hc, IH.
Qed.

Lemma strip_word_and_id c p z :
  isspace c = false ->
  strip (c :: p ++ str_of_int z) = c :: p ++ str_of_int z.
Proof.
  intros Hc. pose proof (str_of_int_nonspace z) as F.
  pose proof (@str_of_int_nonempty z) as Ne.
  destruct (rev (str_of_int z)) as [|x q] eqn:E.
  - apply (f_equal (@rev N)) in E. rewrite rev_involutive in E. contradiction.
  - assert (Hx : isspace x = false).
    { rewrite Forall_forall in F. apply F, in_rev. rewrite E. now left. }
    apply (f_equal (@rev N)) in E. rewrite rev_involutive in E. rewrite E.
    now apply strip_ends.
Qed.

Lemma parse_typed_id word z :
  In word [lit "accept"; lit "reject"; lit "kick"] ->
  parse_command (strip (word ++ lit " " ++ str_of_int z))
  = (word, str_of_int z).
Proof.
  intros [<-|[<-|[<-|[]]]];
    match goal with |- context [strip (lit ?w ++ lit " " ++ ?q)] =>
      let v := eval vm_compute in (lit w ++ lit " ") in
      let vw := eval vm_compute in (lit w) in
      match v with
      | ?c :: ?p =>
        change (lit w ++ lit " " ++ q) with (c :: p ++ q);
        rewrite strip_word_and_id by reflexivity;
        change (c :: p ++ q) with (vw ++ 0x20%N :: q)
      end
    end;
    unfold parse_command;
    (rewrite split_once_app by (repeat constructor));
    rewrite strip_nonspace by apply str_of_int_nonspace; reflexivity.
Qed.

(** X18. An id in print reads back as itself, within the limit CPython puts
    on the digits of such conversions: for an integer [i] whose decimal form
    has at most 4300 digits, [str(i)] does not raise and [int(str(i))] is
    [i].  So when the operator types [accept], [reject] or [kick], a space,
    and an id the way the server prints it ("[PENDING pid]", the ids of
    [list]), the command is that word and its argument reads as that
    id. *)
Theorem typed_id_reaches_the_command word z :
  In word [lit "accept"; lit "reject"; lit "kick"] ->
  (count_digits (str_of_int z) <= max_str_digits)%nat ->
  str_of_int_strict z = Some (str_of_int z)
  /\ int_strict (str_of_int z) = Some z
  /\ exists arg,
       parse_command (strip (word ++ lit " " ++ str_of_int z)) = (word, arg)
       /\ int_strict arg = Some z
       /\ int arg = Some z.
Proof.
  intros H Le.
  assert (F : (max_str_digits <? count_digits (str_of_int z))%nat = false)
    by now apply Nat.ltb_ge.
  assert (I : int_strict (str_of_int z) = Some z).
  { unfold int_strict. rewrite F. apply int_str_of_int. }
  split; [unfold str_of_int_strict; now rewrite F|]. split; [exact I|].
  exists (str_of_int z). split; [now apply parse_typed_id|].
  split; [exact I|apply int_str_of_int].
Qed.

Lemma typed_id_reaches_the_command_witness :
  str_of_int_strict 42 = Some (lit "42")
  /\ int_strict (lit "42") = Some 42%Z
  /\ exists arg,
       parse_command (strip (lit "kick" ++ lit " " ++ lit "42"))
       = (lit "kick", arg)
       /\ int_strict arg = Some 42%Z
       /\ int arg = Some 42%Z.
Proof.
  assert (S : str_of_int 42 = lit "42") by (vm_compute; reflexivity).
  assert (Le : (count_digits (str_of_int 42) <= max_str_digits)%nat).
  { rewrite S. apply Nat.leb_le. vm_compute. reflexivity. }
  rewrite <- S.
  apply (@typed_id_reaches_the_command (lit "kick") 42%Z);
    [right; right; now left|exact Le].
Defined.

(** *** From the handshake to the registry *)

Lemma dict_del_set_set (V : Type) k (v1 v2 : V) (d : dict Z V) :
  ~ In k (dict_keys d) ->
  dict_del Z.eqb k (dict_set Z.eqb k v2 (dict_set Z.eqb k v1 d)) = d.
Proof.
  induction d as [|[k' v'] d IH];
    cbn [dict_set dict_del dict_keys map fst In]; intros H.
  - rewrite Z.eqb_refl. cbn [dict_del]. now rewrite Z.eqb_refl.
  - destruct (Z.eqb k k') eqn:E; [apply Z.eqb_eq in E; subst; tauto|].
    cbn [dict_set]. rewrite E. cbn [dict_del]. rewrite E.
    rewrite IH; [reflexivity|]. intros Hin. apply H. right. exact Hin.
Qed.

Lemma dict_get_set_z (V : Type) k (v : V) d :
  dict_get Z.eqb k (dict_set Z.eqb k v d) = Some v.
Proof. apply dict_get_set, Z.eqb_eq. Qed.

Lemma operator_resolves decision pid info s :
  pending_lock s = false ->
  dict_get Z.eqb pid (pending s) = Some info ->
  operator_cli_line
    (Some ((if decision : bool then lit "accept" else lit "reject")
           ++ lit " " ++ str_of_int pid)) s
  = Done Continue
      (log (Release PendingLock)
         (set_lock PendingLock false
            (log (Print ((if decision then lit "Accepted" else lit "Rejected")
                         ++ lit " pending " ++ str_of_int pid))
               (set_events_set (pid :: events_set s)
                  (set_pending
                     (dict_set Z.eqb pid
                        {| p_conn := p_conn info; p_name := p_name info;
                           p_addr := p_addr info;
                           p_decision := Some decision |}
                        (pending s))
                     (log (Acquire PendingLock)
                        (set_lock PendingLock true s))))))).
Proof.
  intros L G.
  erewrite operator_resolve
    by (apply parse_typed_id; destruct decision; cbn; auto).
  unfold resolve_command.
  pose proof (@str_of_int_nonempty pid) as Ne.
  destruct (str_of_int pid) as [|y arg] eqn:S; [congruence|].
  rewrite <- S, int_str_of_int. unfold resolve_pending. run.
  rewrite L. proj. rewrite G. reflexivity.
Qed.

(** X19. From the handshake to the registry.  A new connection sends a
    well-formed handshake, the operator types [accept] or [reject] and the
    pending id the server printed for it, and the handshake thread wakes.
    On [accept] (the send to the connection succeeding) the thread ends by
    starting the relay with the next user id: the connection is in the
    registry under that id with the name of the handshake, it has been sent
    "MODE:<mode>" and nothing else, and it is not closed.  On [reject] the
    thread returns: the connection has been sent "REJECT" and nothing else,
    it is closed, and the registry is as before.  Either way the pending
    table is what it was before the handshake. *)
Theorem operator_decision_is_carried_out c addr raw decision s :
  reachable s ->
  pending_lock s = false ->
  clients_lock s = false ->
  startswith (lit "NAME:") (strip (decode_ignore raw)) = true ->
  (decision = true -> send_ok c s = true) ->
  let name := strip (slice_from 5 (strip (decode_ignore raw))) in
  let pid := next_pending_id s in
  let line := (if decision : bool then lit "accept" else lit "reject")
              ++ lit " " ++ str_of_int pid in
  exists s1 s2 s3,
    handle_new_connection_until_wait c addr (RecvData raw) s
    = Done (Some (pid, name)) s1
    /\ operator_cli_line (Some line) s1 = Done Continue s2
    /\ handle_new_connection_after_wait c addr pid name s2
       = Done (if decision then Relay (next_user_id s) else Terminated) s3
    /\ pending s3 = pending s
    /\ sent_to c (trace s3)
       = sent_to c (trace s)
         ++ [if decision then encode (lit "MODE:" ++ mode_name (MODE s))
             else "REJECT"%string]
    /\ clients s3
       = (if decision
          then dict_set Nat.eqb c
                 {| u_id := next_user_id s; u_name := name; u_addr := addr |}
                 (clients s)
          else clients s)
    /\ closed s3 = (if decision then closed s else c :: closed s).
Proof.
  intros R Lp Lc H Ok name pid line.
  assert (Fresh : ~ In pid (dict_keys (pending s))).
  { destruct (reachable_ids_below R) as [_ Ip]. intros Hin.
    specialize (Ip _ Hin). subst pid. lia. }
  assert (E1 : exists s1,
             handle_new_connection_until_wait c addr (RecvData raw) s
             = Done (Some (pid, name)) s1
             /\ s1 = log (Print (lit "[PENDING " ++ str_of_int pid ++ lit "] "
                                 ++ name ++ lit " from " ++ repr_addr addr
                                 ++ lit ". Use 'accept " ++ str_of_int pid
                                 ++ lit "' or 'reject " ++ str_of_int pid
                                 ++ lit "'."))
                      (log (Release PendingLock)
                         (set_lock PendingLock false
                            (set_pending
                               (dict_set Z.eqb pid
                                  {| p_conn := c; p_name := name;
                                     p_addr := addr; p_decision := None |}
                                  (pending s))
                               (set_next_pending_id (pid + 1)
                                  (log (Acquire PendingLock)
                                     (set_lock PendingLock true s))))))).
  { eexists. split; [|reflexivity].
    unfold handle_new_connection_until_wait. rewrite H.
    unfold create_pending. run. rewrite Lp. proj. reflexivity. }
  destruct E1 as (s1 & E1 & Hs1). exists s1.
  assert (E2 := @operator_resolves decision pid
                  {| p_conn := c; p_name := name; p_addr := addr;
                     p_decision := None |} s1).
  rewrite Hs1 in E2 at 1 2. proj_in E2.
  specialize (E2 eq_refl (dict_get_set_z _ _ _)).
  cbn [p_conn p_name p_addr] in E2.
  destruct decision; eexists; eexists;
    (split; [exact E1|]); (split; [exact E2|]);
    rewrite Hs1; clear E1 E2 Hs1;
    unfold handle_new_connection_after_wait, register_client; run; proj;
    cbn [mem_pid existsb]; rewrite Z.eqb_refl; cbn [orb]; proj;
    rewrite dict_get_set_z; cbn [p_decision];
    rewrite (@dict_del_set_set _ pid _ _ (pending s) Fresh); proj.
  - rewrite Lc. proj. change (send_ok c _) with (send_ok c s).
    rewrite (Ok eq_refl).
    split; [reflexivity|]. proj. split; [reflexivity|]. split.
    + rewrite !sent_to_app. cbn [sent_to]. rewrite Nat.eqb_refl.
      now rewrite !app_nil_r.
    + split; reflexivity.
  - split; [reflexivity|]. proj. split; [reflexivity|]. split.
    + rewrite !sent_to_app. cbn [sent_to]. rewrite Nat.eqb_refl.
      now rewrite !app_nil_r.
    + split; reflexivity.
Qed.

Lemma operator_decision_is_carried_out_witness :
  exists s1 s2 s3,
    handle_new_connection_until_wait 3 Scenario.addr_c (RecvData "NAME:carol")
      (Scenario.two_clients MESSAGING)
    = Done (Some (3%Z, lit "carol")) s1
    /\ operator_cli_line (Some (lit "accept" ++ lit " " ++ str_of_int 3)) s1
       = Done Continue s2
    /\ handle_new_connection_after_wait 3 Scenario.addr_c 3 (lit "carol") s2
       = Done (Relay 3) s3
    /\ pending s3 = pending (Scenario.two_clients MESSAGING).
Proof.
  assert (Lp : pending_lock (Scenario.two_clients MESSAGING) = false)
    by (vm_compute; reflexivity).
  assert (Lc : clients_lock (Scenario.two_clients MESSAGING) = false)
    by (vm_compute; reflexivity).
  assert (H : startswith (lit "NAME:") (strip (decode_ignore "NAME:carol"))
              = true) by (vm_compute; reflexivity).
  assert (Ok : true = true -> send_ok 3 (Scenario.two_clients MESSAGING) = true)
    by (intros _; vm_compute; reflexivity).
  assert (N : strip (slice_from 5 (strip (decode_ignore "NAME:carol")))
              = lit "carol") by (vm_compute; reflexivity).
  assert (P : next_pending_id (Scenario.two_clients MESSAGING) = 3%Z)
    by (vm_compute; reflexivity).
  assert (U : next_user_id (Scenario.two_clients MESSAGING) = 3%Z)
    by (vm_compute; reflexivity).
  destruct (@operator_decision_is_carried_out 3 Scenario.addr_c
              "NAME:carol"%string true (Scenario.two_clients MESSAGING)
              (two_clients_reachable MESSAGING) Lp Lc H Ok)
    as (s1 & s2 & s3 & H1 & H2 & H3 & H4 & _).
  rewrite N, P in H1, H3. rewrite P in H2. rewrite U in H3.
  exists s1, s2, s3. auto.
Defined.

(** *** broadcast, and the greeting of a text client *)

Lemma deliveries_to_all payload keys :
  deliveries payload None keys = map (fun k => Sendall k payload true) keys.
Proof.
  unfold deliveries. f_equal. induction keys as [|k keys IH]; [reflexivity|].
  cbn [filter]. change (negb (is_excluded k None)) with true. cbv iota.
  now rewrite IH.
Qed.

(** Text of scalar values encodes: [str.encode()] raises only on a
    surrogate. *)
Lemma encode_strict_scalar s :
  forallb is_scalar s = true -> encode_strict s = Some (encode s).
Proof.
  intros H. unfold encode_strict.
  replace (existsb is_surrogate s) with false; [reflexivity|].
  symmetry. induction s as [|c s IH]; [reflexivity|].
  cbn [forallb existsb] in *. apply andb_true_iff in H as [Hc Hs].
  rewrite IH by exact Hs. unfold is_scalar in Hc.
  apply andb_true_iff in Hc as [_ Hc]. apply negb_true_iff in Hc.
  now rewrite Hc.
Qed.

(** X20. [broadcast <message>] for a message of Unicode scalar values (a
    lone surrogate in it makes [text.encode()] raise, which is outside this
    statement): the encoder does not raise.  With no message the operator
    is shown the usage line and nothing is sent.  With a message, the
    registry free and every send succeeding, each registered connection is
    sent "[Server]: <message>" once, in registry order, and the operator is
    told "Broadcast sent.".  With a message and a thread stuck holding
    [clients_lock], nothing is sent and the command never returns. *)
Theorem operator_broadcast_reaches_everyone line arg s :
  parse_command (strip line) = (lit "broadcast", arg) ->
  forallb is_scalar arg = true ->
  encode_strict (lit "[Server]: " ++ arg)
  = Some (encode (lit "[Server]: " ++ arg))
  /\ (arg = [] ->
   operator_cli_line (Some line) s
   = Done Continue (log (Print (lit "Usage: broadcast <message>")) s))
  /\ (arg <> [] -> clients_lock s = false ->
      (forall k, In k (dict_keys (clients s)) -> send_ok k s = true) ->
      exists s',
        operator_cli_line (Some line) s = Done Continue s'
        /\ trace s'
           = trace s ++ [Acquire ClientsLock]
             ++ map (fun k => Sendall k (encode (lit "[Server]: " ++ arg)) true)
                    (dict_keys (clients s))
             ++ [Release ClientsLock; Print (lit "Broadcast sent.")]
        /\ clients s' = clients s)
  /\ (arg <> [] -> clients_lock s = true ->
      operator_cli_line (Some line) s = Blocked (OnLock ClientsLock) s).
Proof.
  intros P Sc. rewrite (@operator_broadcast _ _ P). unfold broadcast_command.
  split; [|split; [|split]].
  - apply encode_strict_scalar. rewrite forallb_app, Sc. reflexivity.
  - intros ->. reflexivity.
  - intros Ne L Ok. destruct arg as [|y arg]; [congruence|].
    unfold broadcast_message. cbn [broadcast_message_at].
    erewrite bind_done.
    2:{ erewrite bind_done; [reflexivity|].
        apply fan_out_healthy; [exact L|]. intros k Hk _. now apply Ok. }
    eexists. split; [reflexivity|]. proj.
    match goal with |- context [log_all ?es ?st] =>
      destruct (log_all_spec es st) as (T & C & _) end.
    rewrite T, C. proj. rewrite deliveries_to_all, <- !app_assoc.
    repeat split.
  - intros Ne L. destruct arg as [|y arg]; [congruence|].
    unfold bind. now rewrite broadcast_blocked_when_locked by exact L.
Qed.

Lemma operator_broadcast_reaches_everyone_witness :
  exists s',
    operator_cli_line (Some (lit "broadcast  back in 5 "))
      (Scenario.two_clients MESSAGING)
    = Done Continue s'
    /\ sent_to 2 (trace s')
       = sent_to 2 (trace (Scenario.two_clients MESSAGING))
         ++ ["[Server]: back in 5"%string].
Proof.
  assert (P : parse_command (strip (lit "broadcast  back in 5 "))
              = (lit "broadcast", lit "back in 5"))
    by (vm_compute; reflexivity).
  assert (L : clients_lock (Scenario.two_clients MESSAGING) = false)
    by (vm_compute; reflexivity).
  assert (K : dict_keys (clients (Scenario.two_clients MESSAGING)) = [1; 2])
    by (vm_compute; reflexivity).
  assert (E : encode (lit "[Server]: " ++ lit "back in 5")
              = "[Server]: back in 5"%string) by (vm_compute; reflexivity).
  assert (Sc : forallb is_scalar (lit "back in 5") = true)
    by (vm_compute; reflexivity).
  destruct (proj1 (proj2 (proj2 (@operator_broadcast_reaches_everyone
                                   (lit "broadcast  back in 5 ")
                                   (lit "back in 5")
                                   (Scenario.two_clients MESSAGING) P Sc))))
    as (s' & H1 & H2 & _).
  - discriminate.
  - exact L.
  - rewrite K. intros k [<-|[<-|[]]]; vm_compute; reflexivity.
  - exists s'. split; [exact H1|]. rewrite H2, K, E.
    rewrite sent_to_app. reflexivity.
Defined.

(** X21. In MESSAGING mode a newly admitted client is announced and
    greeted: with the registry free and the sends to the others
    succeeding, the relay thread first sends every other registered
    connection "[Server] User joined -> ID:<id>, Name:<name>", in registry
    order and under [clients_lock], and then sends the newcomer
    "Welcome <name>! Your ID is <id>" after the lock is released. *)
Theorem messaging_entry_greets c addr user_id name inputs s :
  MODE s = MESSAGING ->
  clients_lock s = false ->
  (forall k, In k (others c s) -> send_ok k s = true) ->
  exists rest,
    trace (final (handle_accepted_client c addr user_id name inputs s))
    = trace s ++ [Acquire ClientsLock]
      ++ map (fun k => Sendall k (encode (user_joined_notice name user_id)) true)
             (others c s)
      ++ [Release ClientsLock;
          Sendall c (encode (welcome name user_id)) (send_ok c s)]
      ++ rest.
Proof.
  intros Mo L H.
  unfold handle_accepted_client. unfold bind at 1, gets. rewrite Mo.
  destruct (@broadcast_message_healthy (user_joined_notice name user_id) c s
              L H) as (s1 & Hrun & T & _ & _ & Cl & Pd & _).
  assert (E : messaging_entry c user_id name s
              = Done tt (log (Sendall c (encode (welcome name user_id))
                                (send_ok c s)) s1)).
  { unfold messaging_entry. erewrite bind_done by exact Hrun. run.
    unfold send_ok. now rewrite Cl, Pd. }
  unfold bind at 1. unfold bind at 1. rewrite E.
  assert (Ev : respects evolves
                 (relay_loop (messaging_chunk c name) inputs ;;
                  _disconnect_conn c)).
  { apply (respects_bind evolves_frame).
    - apply (respects_relay_loop evolves_frame). intros i.
      apply (respects_messaging_chunk evolves_frame evolves_del_client).
    - intros _.
      apply (respects__disconnect_conn evolves_frame evolves_del_client). }
  destruct (ev_trace (Ev (log (Sendall c (encode (welcome name user_id))
                                (send_ok c s)) s1))) as [rest R].
  exists rest. unfold bind in R |- *. rewrite R. proj. rewrite T.
  rewrite <- !app_assoc. reflexivity.
Qed.

Lemma messaging_entry_greets_witness :
  exists rest,
    trace (final (handle_accepted_client 3 Scenario.addr_c 3 (lit "carol") []
                    (Scenario.three_clients MESSAGING)))
    = trace (Scenario.three_clients MESSAGING)
      ++ [Acquire ClientsLock;
          Sendall 1 "[Server] User joined -> ID:3, Name:carol" true;
          Sendall 2 "[Server] User joined -> ID:3, Name:carol" true;
          Release ClientsLock;
          Sendall 3 "Welcome carol! Your ID is 3" true]
      ++ rest.
Proof.
  assert (Mo : MODE (Scenario.three_clients MESSAGING) = MESSAGING)
    by (vm_compute; reflexivity).
  assert (L : clients_lock (Scenario.three_clients MESSAGING) = false)
    by (vm_compute; reflexivity).
  assert (O : others 3 (Scenario.three_clients MESSAGING) = [1; 2])
    by (vm_compute; reflexivity).
  assert (H : forall k, In k (others 3 (Scenario.three_clients MESSAGING)) ->
                        send_ok k (Scenario.three_clients MESSAGING) = true).
  { rewrite O. intros k [<-|[<-|[]]]; vm_compute; reflexivity. }
  assert (E1 : encode (user_joined_notice (lit "carol") 3)
               = "[Server] User joined -> ID:3, Name:carol"%string)
    by (vm_compute; reflexivity).
  assert (E2 : encode (welcome (lit "carol") 3)
               = "Welcome carol! Your ID is 3"%string)
    by (vm_compute; reflexivity).
  assert (E3 : send_ok 3 (Scenario.three_clients MESSAGING) = true)
    by (vm_compute; reflexivity).
  destruct (@messaging_entry_greets 3 Scenario.addr_c 3%Z (lit "carol") []
              (Scenario.three_clients MESSAGING) Mo L H) as [rest R].
  exists rest. rewrite R, O, E1, E2, E3. reflexivity.
Defined.

(* ===================================================================== *)
(** ** Client and server together *)
(* ===================================================================== *)

(** *** UTF-8 there and back *)

Lemma utf8_one b1 t :
  (b1 < 0x80)%N -> utf8_ignore (b1 :: t) = b1 :: utf8_ignore t.
Proof.
  intros H. cbn [utf8_ignore].
  destruct (N.ltb_spec b1 0x80); [reflexivity|lia].
Qed.

Lemma utf8_two b1 b2 t :
  (0xC2 <= b1 < 0xE0)%N -> is_cont b2 = true ->
  utf8_ignore (b1 :: b2 :: t)
  = ((b1 - 0xC0) * 64 + (b2 - 0x80))%N :: utf8_ignore t.
Proof.
  intros H C. cbn [utf8_ignore]. rewrite C.
  destruct (N.ltb_spec b1 0x80); [lia|].
  destruct (N.ltb_spec b1 0xC2); [lia|].
  destruct (N.ltb_spec b1 0xE0); [reflexivity|lia].
Qed.

Lemma utf8_three b1 b2 b3 t :
  (0xE0 <= b1 < 0xF0)%N -> is_cont b2 = true -> is_cont b3 = true ->
  (if (b2 <? 0xA0)%N then (b1 =? 0xE0)%N else (b1 =? 0xED)%N) = false ->
  utf8_ignore (b1 :: b2 :: b3 :: t)
  = ((b1 - 0xE0) * 4096 + (b2 - 0x80) * 64 + (b3 - 0x80))%N :: utf8_ignore t.
Proof.
  intros H C2 C3 G. cbn [utf8_ignore]. rewrite C2, C3, G. cbn [negb orb].
  destruct (N.ltb_spec b1 0x80); [lia|].
  destruct (N.ltb_spec b1 0xC2); [lia|].
  destruct (N.ltb_spec b1 0xE0); [lia|].
  destruct (N.ltb_spec b1 0xF0); [reflexivity|lia].
Qed.

Lemma utf8_four b1 b2 b3 b4 t :
  (0xF0 <= b1 < 0xF5)%N ->
  is_cont b2 = true -> is_cont b3 = true -> is_cont b4 = true ->
  (if (b2 <? 0x90)%N then (b1 =? 0xF0)%N else (b1 =? 0xF4)%N) = false ->
  utf8_ignore (b1 :: b2 :: b3 :: b4 :: t)
  = ((b1 - 0xF0) * 262144 + (b2 - 0x80) * 4096 + (b3 - 0x80) * 64
     + (b4 - 0x80))%N :: utf8_ignore t.
Proof.
  intros H C2 C3 C4 G. cbn [utf8_ignore]. rewrite C2, C3, C4, G.
  cbn [negb orb].
  destruct (N.ltb_spec b1 0x80); [lia|].
  destruct (N.ltb_spec b1 0xC2); [lia|].
  destruct (N.ltb_spec b1 0xE0); [lia|].
  destruct (N.ltb_spec b1 0xF0); [lia|].
  destruct (N.ltb_spec b1 0xF5); [reflexivity|lia].
Qed.

Lemma is_cont_iff b : is_cont b = true <-> (0x80 <= b < 0xC0)%N.
Proof.
  unfold is_cont. rewrite andb_true_iff, N.leb_le, N.ltb_lt. tauto.
Qed.

Lemma is_scalar_iff c :
  is_scalar c = true <-> (c < 0x110000 /\ ~ (0xD800 <= c < 0xE000))%N.
Proof.
  unfold is_scalar, is_surrogate.
  rewrite andb_true_iff, negb_true_iff, andb_false_iff, N.ltb_lt,
    N.leb_gt, N.ltb_ge. lia.
Qed.

Ltac Zify.zify_post_hook ::= Z.to_euclidean_division_equations.

Lemma utf8_ignore_encode_cp c rest :
  is_scalar c = true ->
  utf8_ignore (map N_of_ascii (encode_cp c) ++ rest) = c :: utf8_ignore rest.
Proof.
  intros H. apply is_scalar_iff in H as [Hc Hs]. unfold encode_cp.
  destruct (N.ltb_spec c 0x80).
  { cbn [map app]. rewrite N_ascii_embedding by lia. now apply utf8_one. }
  destruct (N.ltb_spec c 0x800).
  { cbn [map app]. rewrite !N_ascii_embedding by lia.
    rewrite utf8_two; [f_equal; lia|lia|apply is_cont_iff; lia]. }
  destruct (N.ltb_spec c 0x10000).
  { cbn [map app]. rewrite !N_ascii_embedding by lia.
    rewrite utf8_three;
      [f_equal; lia|lia|apply is_cont_iff; lia|apply is_cont_iff; lia|].
    destruct (N.ltb_spec (0x80 + (c / 64) mod 64) 0xA0);
      [apply N.eqb_neq|apply N.eqb_neq]; lia. }
  cbn [map app]. rewrite !N_ascii_embedding by lia.
  rewrite utf8_four;
    [f_equal; lia|lia|apply is_cont_iff; lia|apply is_cont_iff; lia
    |apply is_cont_iff; lia|].
  destruct (N.ltb_spec (0x80 + (c / 4096) mod 64) 0x90);
    [apply N.eqb_neq|apply N.eqb_neq]; lia.
Qed.

Ltac Zify.zify_post_hook ::= idtac.

Lemma decode_encode s :
  forallb is_scalar s = true -> decode_ignore (encode s) = s.
Proof.
  unfold decode_ignore, encode. rewrite list_ascii_of_string_of_list_ascii.
  induction s as [|c s IH]; cbn [forallb flat_map]; intros H; [reflexivity|].
  apply andb_true_iff in H as [Hc Hs].
  rewrite map_app, utf8_ignore_encode_cp by exact Hc.
  now rewrite IH.
Qed.

(** *** What [strip] keeps *)

Lemma lstrip_head l c t : lstrip l = c :: t -> isspace c = false.
Proof.
  induction l as [|x l IH]; cbn [lstrip]; [discriminate|].
  destruct (isspace x) eqn:E; [exact IH|]. now intros [= <- _].
Qed.

Lemma lstrip_suffix l : exists w, l = w ++ lstrip l.
Proof.
  induction l as [|x l [w IH]]; [now exists []|]. cbn [lstrip].
  destruct (isspace x).
  - exists (x :: w). cbn. now rewrite <- IH.
  - now exists [].
Qed.

Lemma lstrip_app l c r :
  isspace c = false -> lstrip (l ++ c :: r) = lstrip l ++ c :: r.
Proof.
  intros H. induction l as [|x l IH]; cbn [app lstrip].
  - now rewrite H.
  - destruct (isspace x); [exact IH|reflexivity].
Qed.

Lemma lstrip_fixed l :
  (forall c t, l = c :: t -> isspace c = false) -> lstrip l = l.
Proof.
  destruct l as [|c t]; [reflexivity|]. intros H. cbn [lstrip].
  now rewrite (H c t eq_refl).
Qed.

Lemma rstrip_cons c l :
  isspace c = false -> rstrip (c :: l) = c :: rstrip l.
Proof.
  intros H. unfold rstrip. cbn [rev].
  rewrite lstrip_app by exact H. rewrite rev_app_distr. reflexivity.
Qed.

Lemma strip_cons c l :
  isspace c = false -> strip (c :: l) = c :: rstrip l.
Proof.
  intros H. unfold strip. rewrite lstrip_nonspace by exact H.
  now apply rstrip_cons.
Qed.

(** A stripped string has no blank at either end. *)
Lemma strip_head l c t : strip l = c :: t -> isspace c = false.
Proof.
  unfold strip, rstrip. intros H.
  destruct (lstrip_suffix (rev (lstrip l))) as [w Hw].
  apply (f_equal (@rev N)) in Hw. rewrite rev_involutive, rev_app_distr in Hw.
  rewrite H in Hw. cbn [app] in Hw.
  apply (lstrip_head l (t := t ++ rev w)). exact Hw.
Qed.

Lemma strip_last l c t : rev (strip l) = c :: t -> isspace c = false.
Proof.
  unfold strip, rstrip. rewrite rev_involutive. apply lstrip_head.
Qed.

Lemma strip_fixed l :
  (forall c t, l = c :: t -> isspace c = false) ->
  (forall c t, rev l = c :: t -> isspace c = false) ->
  strip l = l.
Proof.
  intros H1 H2. unfold strip, rstrip.
  rewrite (lstrip_fixed H1), (lstrip_fixed H2). apply rev_involutive.
Qed.

Lemma strip_strip l : strip (strip l) = strip l.
Proof.
  apply strip_fixed; intros c t H.
  - exact (strip_head _ H).
  - exact (strip_last _ H).
Qed.

(** A prefix that ends in a character that is not a blank, before a
    stripped string. *)
Lemma strip_prefixed c p x l :
  isspace c = false -> isspace x = false ->
  strip (c :: p ++ x :: strip l) = c :: p ++ x :: strip l.
Proof.
  intros Hc Hx. apply strip_fixed.
  - now intros ? ? [= <- _].
  - intros y t H.
    change (c :: p ++ x :: strip l) with ((c :: p) ++ [x] ++ strip l) in H.
    rewrite !rev_app_distr in H.
    destruct (rev (strip l)) as [|z q] eqn:E.
    + cbn in H. now injection H as <- _.
    + cbn in H. injection H as <- _. exact (strip_last _ E).
Qed.

Lemma forallb_lstrip (f : N -> bool) l :
  forallb f l = true -> forallb f (lstrip l) = true.
Proof.
  induction l as [|x l IH]; [auto|]. cbn [lstrip]. destruct (isspace x); auto.
  cbn [forallb]. intros H. apply andb_true_iff in H as [_ H]. auto.
Qed.

Lemma forallb_rev (f : N -> bool) l :
  forallb f l = true -> forallb f (rev l) = true.
Proof.
  rewrite !forallb_forall. intros H x Hx. apply H. now apply in_rev.
Qed.

Lemma forallb_strip (f : N -> bool) l :
  forallb f l = true -> forallb f (strip l) = true.
Proof.
  intros H. unfold strip, rstrip.
  now apply forallb_rev, forallb_lstrip, forallb_rev, forallb_lstrip.
Qed.

(** X22. What the client sends as its handshake is what the server reads.
    For a typed name of Unicode scalar values, the client's handshake is
    the UTF-8 of "NAME:" and the stripped name; decoding it gives that text
    back; and the server, reading it in one piece with the pending table
    free, makes a pending entry under the next pending id whose name is
    the stripped name, character for character.  (UTF-8 there and back is
    the identity on scalar values; the handshake fits the 2048 bytes the
    server reads.) *)
Theorem client_handshake_is_read_back typed c addr s :
  forallb is_scalar typed = true ->
  (len (encode (lit "NAME:" ++ strip typed)) <= 2048)%nat ->
  pending_lock s = false ->
  exists payload s',
    Client.handshake typed = Some payload
    /\ decode_ignore payload = lit "NAME:" ++ strip typed
    /\ handle_new_connection_until_wait c addr (RecvData payload) s
       = Done (Some (next_pending_id s, strip typed)) s'
    /\ dict_get Z.eqb (next_pending_id s) (pending s')
       = Some {| p_conn := c; p_name := strip typed; p_addr := addr;
                 p_decision := None |}.
Proof.
  intros Sc _ Lp.
  assert (Sc' : forallb is_scalar (lit "NAME:" ++ strip typed) = true).
  { rewrite forallb_app. apply andb_true_iff. split; [reflexivity|].
    now apply forallb_strip. }
  assert (St : strip (lit "NAME:" ++ strip typed) = lit "NAME:" ++ strip typed).
  { exact (@strip_prefixed 78%N (lit "AME") 58%N typed eq_refl eq_refl). }
  exists (encode (lit "NAME:" ++ strip typed)). eexists.
  split; [now apply encode_strict_scalar|].
  split; [now apply decode_encode|].
  unfold handle_new_connection_until_wait.
  rewrite (decode_encode _ Sc'), St.
  change (startswith (lit "NAME:") (lit "NAME:" ++ strip typed)) with true.
  cbv iota.
  change (slice_from 5 (lit "NAME:" ++ strip typed)) with (strip typed).
  rewrite strip_strip. unfold create_pending. run. rewrite Lp. proj.
  split; [reflexivity|]. proj. apply dict_get_set_z.
Qed.

Lemma client_handshake_is_read_back_witness :
  exists payload s',
    Client.handshake (lit "  alice ") = Some payload
    /\ handle_new_connection_until_wait 1 Scenario.addr_a (RecvData payload)
         (init_state MESSAGING)
       = Done (Some (1%Z, lit "alice")) s'.
Proof.
  assert (Sc : forallb is_scalar (lit "  alice ") = true)
    by (vm_compute; reflexivity).
  assert (St : strip (lit "  alice ") = lit "alice")
    by (vm_compute; reflexivity).
  assert (Le : (len (encode (lit "NAME:" ++ strip (lit "  alice "))) <= 2048)%nat)
    by (vm_compute; lia).
  destruct (@client_handshake_is_read_back (lit "  alice ") 1 Scenario.addr_a
              (init_state MESSAGING) Sc Le eq_refl)
    as (payload & s' & H1 & _ & H3 & _).
  rewrite St in H3. exists payload, s'. split; [exact H1|exact H3].
Defined.

(** *** The server's answer to the handshake *)

Lemma lstrip_keeps x l :
  In x l -> isspace x = false -> In x (lstrip l).
Proof.
  intros Hin Hx. induction l as [|y l IH]; [contradiction|].
  cbn [lstrip]. destruct (isspace y) eqn:E; [|exact Hin].
  destruct Hin as [->|Hin]; [congruence|auto].
Qed.

Lemma rstrip_keeps x l :
  In x l -> isspace x = false -> In x (rstrip l).
Proof.
  intros Hin Hx. unfold rstrip. apply -> in_rev.
  apply lstrip_keeps; [now apply -> in_rev|exact Hx].
Qed.

Lemma utf8_ignore_ascii (p : list N) rest :
  forallb (fun b => (b <? 0x80)%N) p = true ->
  utf8_ignore (p ++ rest) = p ++ utf8_ignore rest.
Proof.
  induction p as [|b p IH]; cbn [forallb app]; intros H; [reflexivity|].
  apply andb_true_iff in H as [Hb Hp]. apply N.ltb_lt in Hb.
  rewrite utf8_one by exact Hb. now rewrite IH.
Qed.

Lemma decode_ignore_app a b :
  forallb (fun x => (x <? 0x80)%N) (map N_of_ascii (list_ascii_of_string a))
  = true ->
  decode_ignore (a ++ b)
  = map N_of_ascii (list_ascii_of_string a) ++ decode_ignore b.
Proof.
  intros H. unfold decode_ignore.
  assert (E : list_ascii_of_string (a ++ b)
              = (list_ascii_of_string a ++ list_ascii_of_string b)%list).
  { clear H. induction a as [|x a IH]; [reflexivity|]. cbn. now rewrite IH. }
  rewrite E, map_app. now apply utf8_ignore_ascii.
Qed.

Lemma rstrip_rstrip l : rstrip (rstrip l) = rstrip l.
Proof.
  unfold rstrip. rewrite rev_involutive. f_equal.
  apply lstrip_fixed. intros c t H. exact (lstrip_head _ H).
Qed.

Ltac strip_literal :=
  rewrite strip_cons by reflexivity;
  repeat (rewrite rstrip_cons by reflexivity).

(** X23. How the client reads the server's answer to its handshake.
    "REJECT" makes it give up; the token "MODE:<mode>" the server sends on
    accept starts the client in the server's mode.  The token is understood
    only when it is read alone: when the read (of up to 4096 bytes) that
    brings it also brings
    bytes the server sent next (the welcome line, the [USERS] list) that
    hold a character that is not a blank, the client takes all of it for
    the name of the mode, finds it unknown, and disconnects. *)
Theorem server_answer_is_understood_alone m more :
  (len (String.append (encode (lit "MODE:" ++ mode_name m)) more) <= 4096)%nat ->
  (exists x, In x (decode_ignore more) /\ isspace x = false) ->
  Client.start_of_response (RecvData "REJECT") = Client.Rejected
  /\ Client.start_of_response (RecvData (encode (lit "MODE:" ++ mode_name m)))
     = match m with
       | MESSAGING => Client.StartMessaging
       | VOICE => Client.StartVoice
       end
  /\ Client.start_of_response
       (RecvData (encode (lit "MODE:" ++ mode_name m) ++ more))
     = Client.UnknownMode (mode_name m ++ rstrip (decode_ignore more)).
Proof.
  intros _ (x & Hin & Hx).
  split; [reflexivity|]. split; [destruct m; reflexivity|].
  rewrite <- (rstrip_rstrip (decode_ignore more)).
  assert (Ne : rstrip (rstrip (decode_ignore more)) <> []).
  { intros E. pose proof (@rstrip_keeps x _ Hin Hx) as H1.
    pose proof (@rstrip_keeps x _ H1 Hx) as H2. rewrite E in H2.
    contradiction. }
  unfold Client.start_of_response.
  destruct m;
    match goal with |- context [encode ?t] =>
      let v := eval vm_compute in (encode t) in change (encode t) with v
    end;
    rewrite decode_ignore_app by reflexivity;
    match goal with |- context [map N_of_ascii (list_ascii_of_string ?a)] =>
      let v := eval vm_compute in (map N_of_ascii (list_ascii_of_string a)) in
      change (map N_of_ascii (list_ascii_of_string a)) with v
    end;
    repeat match goal with |- context [lit ?a] =>
      let v := eval vm_compute in (lit a) in change (lit a) with v
    end;
    cbn [app mode_name]; cbv zeta; strip_literal;
    cbn [str_eqb startswith after_colon N.eqb Pos.eqb andb];
    strip_literal;
    cbn [str_eqb N.eqb Pos.eqb andb];
    (destruct (rstrip (rstrip (decode_ignore more))) as [|y q]; [congruence|]);
    reflexivity.
Qed.

Lemma server_answer_is_understood_alone_witness :
  Client.start_of_response
    (RecvData (encode (lit "MODE:" ++ mode_name MESSAGING)
               ++ "Welcome alice! Your ID is 1"))
  = Client.UnknownMode (lit "MESSAGINGWelcome alice! Your ID is 1").
Proof.
  assert (D : decode_ignore "Welcome alice! Your ID is 1"
              = lit "Welcome alice! Your ID is 1") by (vm_compute; reflexivity).
  assert (E : mode_name MESSAGING
              ++ rstrip (decode_ignore "Welcome alice! Your ID is 1")
              = lit "MESSAGINGWelcome alice! Your ID is 1")
    by (vm_compute; reflexivity).
  rewrite <- E.
  refine (proj2 (proj2 (@server_answer_is_understood_alone MESSAGING
                          "Welcome alice! Your ID is 1"%string _ _))).
  - vm_compute. lia.
  - exists 87%N. rewrite D. split; [now left|reflexivity].
Defined.

(** *** Typed lines, and leaving *)

Lemma isspace_lower c : isspace c = true -> lower_cp c = [c].
Proof.
  unfold isspace, lower_cp. intros H.
  destruct ((0x41 <=? c) && (c <=? 0x5A))%N eqn:E1.
  { apply andb_true_iff in E1 as [A B]. apply N.leb_le in A, B.
    repeat (apply orb_true_iff in H as [H|H]);
      repeat match goal with
             | H : (_ && _)%bool = true |- _ => apply andb_true_iff in H as [? ?]
             | H : (_ <=? _)%N = true |- _ => apply N.leb_le in H
             | H : (_ =? _)%N = true |- _ => apply N.eqb_eq in H
             end; lia. }
  destruct (N.eqb_spec c 0x212A) as [->|_]; [discriminate|].
  destruct (N.eqb_spec c 0x130) as [->|_]; [discriminate|].
  reflexivity.
Qed.

Lemma lower_leave_nonspace msg :
  lower msg = lit "leave" -> Forall (fun c => isspace c = false) msg.
Proof.
  intros H. apply Forall_forall. intros x Hin.
  destruct (isspace x) eqn:E; [|reflexivity].
  assert (Hl : In x (lower msg)).
  { unfold lower. apply in_flat_map. exists x. split; [exact Hin|].
    rewrite (isspace_lower _ E). now left. }
  rewrite H in Hl. cbn in Hl.
  repeat (destruct Hl as [<-|Hl]; [discriminate E|]). contradiction.
Qed.

Lemma encode_nonempty msg : msg <> [] -> (len (encode msg) =? 0)%nat = false.
Proof.
  destruct msg as [|c msg]; [congruence|]. intros _.
  unfold encode, encode_cp. cbn [flat_map].
  destruct (c <? 0x80)%N; [reflexivity|].
  destruct (c <? 0x800)%N; [reflexivity|].
  destruct (c <? 0x10000)%N; reflexivity.
Qed.

(** X24. A line typed in the chat, from the keyboard to the relay.  A
    non-empty line of Unicode scalar values is sent as its UTF-8, which
    the server (reading it in one piece of at most 4096 bytes) decodes to
    the same line.  The server strips it: an
    all-blank line is dropped, a line that is "leave" in any letter case
    ends the relay, any other is printed and broadcast to the others as
    "<name>: <stripped line>".  Whenever the client takes the line for
    [leave] and stops, so does the server. *)
Theorem typed_line_reaches_the_relay msg name c s :
  msg <> [] ->
  forallb is_scalar msg = true ->
  (len (encode msg) <= 4096)%nat ->
  exists data,
    Client.messaging_send_line msg true
    = (if str_eqb (lower msg) (lit "leave")
       then Client.SendLeave data else Client.SendGo data)
    /\ decode_ignore data = msg
    /\ messaging_chunk c name (RecvData data) s
       = match strip msg with
         | [] => Done Continue s
         | text =>
           if is_leave text then Done Break s
           else (print (name ++ lit ": " ++ text) ;;
                 broadcast_message (name ++ lit ": " ++ text) (Some c) ;;
                 ret Continue) s
         end
    /\ (str_eqb (lower msg) (lit "leave") = true ->
        messaging_chunk c name (RecvData data) s = Done Break s).
Proof.
  intros Ne Sc _. exists (encode msg).
  assert (M : messaging_chunk c name (RecvData (encode msg)) s
              = match strip msg with
                | [] => Done Continue s
                | text =>
                  if is_leave text then Done Break s
                  else (print (name ++ lit ": " ++ text) ;;
                        broadcast_message (name ++ lit ": " ++ text) (Some c) ;;
                        ret Continue) s
                end).
  { unfold messaging_chunk. rewrite (encode_nonempty Ne).
    rewrite (decode_encode _ Sc). cbv zeta.
    destruct (strip msg) as [|x t]; [reflexivity|].
    destruct (is_leave (x :: t)); reflexivity. }
  split.
  { unfold Client.messaging_send_line.
    destruct msg as [|x t]; [congruence|].
    now rewrite (encode_strict_scalar _ Sc). }
  split; [now apply decode_encode|]. split; [exact M|].
  intros L. rewrite M. apply str_eqb_eq in L.
  rewrite (strip_nonspace (lower_leave_nonspace _ L)).
  destruct msg as [|x t]; [congruence|].
  unfold is_leave. rewrite L. reflexivity.
Qed.

Lemma typed_line_reaches_the_relay_witness :
  exists data,
    Client.messaging_send_line (lit " Leave") true = Client.SendGo data
    /\ messaging_chunk 1 (lit "alice") (RecvData data)
         (Scenario.two_clients MESSAGING)
       = Done Break (Scenario.two_clients MESSAGING).
Proof.
  assert (Sc : forallb is_scalar (lit " Leave") = true)
    by (vm_compute; reflexivity).
  assert (L : str_eqb (lower (lit " Leave")) (lit "leave") = false)
    by (vm_compute; reflexivity).
  assert (St : strip (lit " Leave") = lit "Leave")
    by (vm_compute; reflexivity).
  assert (Il : is_leave (lit "Leave") = true) by (vm_compute; reflexivity).
  destruct (@typed_line_reaches_the_relay (lit " Leave") (lit "alice") 1
              (Scenario.two_clients MESSAGING))
    as (data & H1 & _ & H3 & _).
  - discriminate.
  - exact Sc.
  - vm_compute. lia.
  - exists data. rewrite L in H1. split; [exact H1|].
    rewrite H3, St.
    change (lit "Leave") with (76 :: lit "eave")%N in Il |- *.
    cbv iota zeta. rewrite Il. reflexivity.
Defined.

(** *** Notices in a voice call *)

Lemma lstrip_spaces w c r :
  Forall (fun x => isspace x = true) w -> isspace c = false ->
  lstrip (w ++ c :: r) = c :: r.
Proof.
  intros F Hc. induction F as [|x w Hx _ IH]; cbn [app lstrip].
  - now rewrite Hc.
  - now rewrite Hx.
Qed.

Lemma lstrip_spaces_only w :
  Forall (fun x => isspace x = true) w -> lstrip w = [].
Proof.
  induction 1 as [|x w Hx _ IH]; [reflexivity|]. cbn [lstrip]. now rewrite Hx.
Qed.

Lemma lstrip_split l :
  exists w, l = w ++ lstrip l /\ Forall (fun x => isspace x = true) w.
Proof.
  induction l as [|x l (w & E & F)]; [exists []; split; [reflexivity|constructor]|].
  cbn [lstrip]. destruct (isspace x) eqn:Hx.
  - exists (x :: w). split; [cbn; now rewrite <- E|now constructor].
  - exists []. split; [reflexivity|constructor].
Qed.

Lemma rstrip_app w c t :
  isspace c = false -> rstrip (w ++ c :: t) = w ++ c :: rstrip t.
Proof.
  intros H. unfold rstrip. rewrite rev_app_distr. cbn [rev].
  rewrite <- app_assoc. cbn [app]. rewrite lstrip_app by exact H.
  rewrite rev_app_distr. cbn [rev]. rewrite rev_involutive, <- app_assoc.
  reflexivity.
Qed.

Lemma rstrip_spaces_only w :
  Forall (fun x => isspace x = true) w -> rstrip w = [].
Proof.
  intros F. unfold rstrip. rewrite lstrip_spaces_only; [reflexivity|].
  now apply Forall_rev.
Qed.

(** Stripping the two ends in either order gives the same. *)
Lemma lstrip_rstrip l : lstrip (rstrip l) = rstrip (lstrip l).
Proof.
  destruct (lstrip_split l) as (w & E & F).
  destruct (lstrip l) as [|c t] eqn:U.
  - rewrite app_nil_r in E. subst w.
    rewrite (rstrip_spaces_only F). reflexivity.
  - pose proof (lstrip_head _ U) as Hc. rewrite E at 1.
    rewrite rstrip_app by exact Hc. rewrite lstrip_spaces by assumption.
    now rewrite rstrip_cons.
Qed.

Lemma strip_rstrip l : strip (rstrip l) = strip l.
Proof.
  unfold strip. now rewrite lstrip_rstrip, rstrip_rstrip.
Qed.

Lemma strip_blank_first c l : isspace c = true -> strip (c :: l) = strip l.
Proof. intros H. unfold strip. cbn [lstrip]. now rewrite H. Qed.

(** X25. What a client in a voice call does with the server's text,
    read in one piece of at most 2048 bytes.  A notice "[Server]: <text>" (joined, kicked, shutting down, an operator
    broadcast) is printed, stripped, when its UTF-8 is shorter than 512
    bytes, and is written to the audio output when it is longer; likewise
    the list "[USERS] <list>" is shown as "<list>" stripped when short and
    played as audio when long. *)
Theorem voice_client_shows_short_notices text :
  forallb is_scalar text = true ->
  (len (encode (lit "[Server]: " ++ text)) <= 2048)%nat ->
  Client.voice_receive_chunk (RecvData (encode (lit "[Server]: " ++ text)))
  = (if (len (encode (lit "[Server]: " ++ text)) <? 512)%nat
     then Client.VoiceNotice (strip (lit "[Server]: " ++ text))
     else Client.VoiceAudio (encode (lit "[Server]: " ++ text)))
  /\ Client.voice_receive_chunk (RecvData (encode (lit "[USERS] " ++ text)))
     = (if (len (encode (lit "[USERS] " ++ text)) <? 512)%nat
        then Client.VoiceUsers (strip text)
        else Client.VoiceAudio (encode (lit "[USERS] " ++ text))).
Proof.
  intros Sc _.
  assert (S1 : forallb is_scalar (lit "[Server]: " ++ text) = true)
    by (rewrite forallb_app, Sc; reflexivity).
  assert (S2 : forallb is_scalar (lit "[USERS] " ++ text) = true)
    by (rewrite forallb_app, Sc; reflexivity).
  unfold Client.voice_receive_chunk. split.
  - rewrite encode_nonempty by discriminate.
    destruct (len (encode (lit "[Server]: " ++ text)) <? 512)%nat;
      [|reflexivity].
    rewrite (decode_encode _ S1). cbv zeta.
    match goal with |- context [lit ?a ++ text] =>
      let v := eval vm_compute in (lit a) in change (lit a) with v
    end.
    cbn [app]. strip_literal.
    repeat match goal with |- context [lit ?a] =>
      let v := eval vm_compute in (lit a) in change (lit a) with v
    end.
    reflexivity.
  - rewrite encode_nonempty by discriminate.
    destruct (len (encode (lit "[USERS] " ++ text)) <? 512)%nat;
      [|reflexivity].
    rewrite (decode_encode _ S2). cbv zeta.
    match goal with |- context [lit ?a ++ text] =>
      let v := eval vm_compute in (lit a) in change (lit a) with v
    end.
    cbn [app]. strip_literal.
    repeat match goal with |- context [lit ?a] =>
      let v := eval vm_compute in (lit a) in change (lit a) with v
    end.
    cbn [startswith N.eqb Pos.eqb andb slice_from skipn].
    now rewrite strip_rstrip, strip_blank_first by reflexivity.
Qed.

Lemma voice_client_shows_short_notices_witness :
  Client.voice_receive_chunk
    (RecvData (encode (lit "[USERS] " ++ lit "1|alice,2|bob")))
  = Client.VoiceUsers (lit "1|alice,2|bob").
Proof.
  assert (Sc : forallb is_scalar (lit "1|alice,2|bob") = true)
    by (vm_compute; reflexivity).
  assert (L : (len (encode (lit "[USERS] " ++ lit "1|alice,2|bob")) <? 512)%nat
              = true) by (vm_compute; reflexivity).
  assert (St : strip (lit "1|alice,2|bob") = lit "1|alice,2|bob")
    by (vm_compute; reflexivity).
  assert (Le : (len (encode (lit "[Server]: " ++ lit "1|alice,2|bob")) <= 2048)%nat)
    by (vm_compute; lia).
  pose proof (proj2 (@voice_client_shows_short_notices (lit "1|alice,2|bob")
                       Sc Le)) as H.
  rewrite L, St in H. exact H.
Defined.

(* ===================================================================== *)
(** ** Ids are never reused *)
(* ===================================================================== *)

Lemma bind_assoc A B C (m : M A) (f : A -> M B) (g : B -> M C) s :
  bind (bind m f) g s = bind m (fun x => bind (f x) g) s.
Proof. unfold bind. destruct (m s); reflexivity. Qed.

Lemma after_wait_parts c addr pid name s :
  handle_new_connection_after_wait c addr pid name s
  = (info <- handle_new_connection_wake pid ;;
     handle_new_connection_decide c addr name info) s.
Proof.
  unfold handle_new_connection_wake. rewrite bind_assoc. reflexivity.
Qed.

(** The only way [handle_new_connection] starts a relay: the client was
    registered under the value of the counter, which went up by one. *)
Lemma decide_relay c addr name info s uid st :
  handle_new_connection_decide c addr name info s = Done (Relay uid) st ->
  uid = next_user_id s
  /\ next_user_id st = (uid + 1)%Z
  /\ dict_get Nat.eqb c (clients st)
     = Some {| u_id := uid; u_name := name; u_addr := addr |}.
Proof.
  unfold handle_new_connection_decide, register_client.
  destruct info as [i|]; [|run; discriminate].
  destruct (p_decision i) as [[]|]; [|run; discriminate|run; discriminate].
  run. destruct (clients_lock s) eqn:L; [discriminate|]. proj.
  match goal with |- context [if send_ok c ?x then _ else _] =>
    destruct (send_ok c x) end.
  - intros [= <- <-]. proj. repeat split. apply dict_get_set_nat.
  - match goal with |- context [_disconnect_conn c ?x] =>
      destruct (_disconnect_conn c x) end; discriminate.
Qed.

Lemma wake_counters pid s :
  next_user_id (final (handle_new_connection_wake pid s)) = next_user_id s
  /\ clients (final (handle_new_connection_wake pid s)) = clients s.
Proof.
  unfold handle_new_connection_wake. run.
  destruct (mem_pid pid (events_set s)); [|split; reflexivity].
  destruct (pending_lock s); split; reflexivity.
Qed.

(** The only way [handle_new_connection] comes to wait for the operator:
    its pending entry was made under the value of the pending counter,
    which went up by one. *)
Lemma until_wait_pending c addr r s pid name st :
  handle_new_connection_until_wait c addr r s = Done (Some (pid, name)) st ->
  pid = next_pending_id s
  /\ next_pending_id st = (pid + 1)%Z
  /\ dict_get Z.eqb pid (pending st)
     = Some {| p_conn := c; p_name := name; p_addr := addr;
               p_decision := None |}.
Proof.
  unfold handle_new_connection_until_wait, create_pending.
  destruct r as [raw| | |]; try (run; discriminate).
  destruct (startswith (lit "NAME:") (strip (decode_ignore raw)));
    [|run; discriminate].
  run. destruct (pending_lock s); [discriminate|]. proj.
  intros [= <- <- <-]. proj. repeat split. apply dict_get_set_z.
Qed.

(** C9. Client ids and pending ids each come from their own counter, which
    never goes back, and are not used twice in a run of the server.  Along
    any interleaving of the server's threads from a reachable state [s0]
    through [s] to [s']: both counters only grow; an id that was in the
    registry (or the pending table) at [s0] and is gone at [s] is not in it
    at [s'] either; every id that is in a table at [s'] and was not at [s]
    was taken from the table's counter after [s]; at [s'] no id is held by
    two clients or by two pending entries, and every id in a table is below
    the table's counter.  And the next assignment is a new id: when from
    [s'] a handshake thread registers a client, the client's id is the
    value of the client counter, the counter goes up by one, and the id was
    in the registry at none of [s0], [s] and [s']; likewise for the pending
    id a handshake is given. *)
Theorem ids_never_reused s0 s s' :
  reachable s0 -> steps s0 s -> steps s s' ->
  (next_user_id s0 <= next_user_id s <= next_user_id s')%Z
  /\ (next_pending_id s0 <= next_pending_id s <= next_pending_id s')%Z
  /\ (forall id, In id (client_ids s0) -> ~ In id (client_ids s) ->
        ~ In id (client_ids s'))
  /\ (forall id, In id (pending_ids s0) -> ~ In id (pending_ids s) ->
        ~ In id (pending_ids s'))
  /\ (forall id, In id (client_ids s') -> ~ In id (client_ids s) ->
        (next_user_id s <= id < next_user_id s')%Z)
  /\ (forall id, In id (pending_ids s') -> ~ In id (pending_ids s) ->
        (next_pending_id s <= id < next_pending_id s')%Z)
  /\ NoDup (client_ids s')
  /\ NoDup (pending_ids s')
  /\ (forall id, In id (client_ids s') -> (id < next_user_id s')%Z)
  /\ (forall id, In id (pending_ids s') -> (id < next_pending_id s')%Z)
  /\ (forall c addr name uid st,
        (exists info,
           handle_new_connection_decide c addr name info s'
           = Done (Relay uid) st)
        \/ (exists pid,
              handle_new_connection_after_wait c addr pid name s'
              = Done (Relay uid) st) ->
        uid = next_user_id s'
        /\ next_user_id st = (uid + 1)%Z
        /\ dict_get Nat.eqb c (clients st)
           = Some {| u_id := uid; u_name := name; u_addr := addr |}
        /\ ~ In uid (client_ids s0) /\ ~ In uid (client_ids s)
        /\ ~ In uid (client_ids s'))
  /\ (forall c addr r pid name st,
        handle_new_connection_until_wait c addr r s' = Done (Some (pid, name)) st ->
        pid = next_pending_id s'
        /\ next_pending_id st = (pid + 1)%Z
        /\ dict_get Z.eqb pid (pending st)
           = Some {| p_conn := c; p_name := name; p_addr := addr;
                     p_decision := None |}
        /\ ~ In pid (pending_ids s0) /\ ~ In pid (pending_ids s)
        /\ ~ In pid (pending_ids s')).
Proof.
  intros R0 S1 S2.
  assert (R1 : reachable s).
  { destruct R0 as [m H]. exists m. eapply steps_trans; eauto. }
  assert (R2 : reachable s').
  { destruct R1 as [m H]. exists m. eapply steps_trans; eauto. }
  pose proof (reachable_ids_below R0) as [Bc0 Bp0].
  pose proof (reachable_ids_below R1) as [Bc1 Bp1].
  pose proof (reachable_ids_below R2) as [Bc2 Bp2].
  destruct (reachable_well_formed R2) as (_ & _ & _ & Np & Nc).
  pose proof (steps_evolves S1) as E1.
  pose proof (steps_evolves S2) as E2.
  pose proof (ev_uid E1) as U1. pose proof (ev_uid E2) as U2.
  pose proof (ev_pid E1) as P1. pose proof (ev_pid E2) as P2.
  split; [lia|]. split; [lia|].
  split.
  { intros id Hin Hs Hs'. destruct (ev_clients E2 id Hs') as [H'|H']; [tauto|].
    specialize (Bc0 id Hin). lia. }
  split.
  { intros id Hin Hs Hs'. destruct (ev_pending E2 id Hs') as [H'|H']; [tauto|].
    specialize (Bp0 id Hin). lia. }
  split.
  { intros id Hs' Hs. destruct (ev_clients E2 id Hs') as [H'|H']; [tauto|lia]. }
  split.
  { intros id Hs' Hs. destruct (ev_pending E2 id Hs') as [H'|H']; [tauto|lia]. }
  split; [exact Nc|]. split; [exact Np|].
  split; [exact Bc2|]. split; [exact Bp2|].
  split.
  - intros c addr name uid st H.
    assert (D : uid = next_user_id s'
                /\ next_user_id st = (uid + 1)%Z
                /\ dict_get Nat.eqb c (clients st)
                   = Some {| u_id := uid; u_name := name; u_addr := addr |}).
    { destruct H as [[info H]|[pid H]]; [exact (decide_relay _ _ _ _ _ H)|].
      rewrite after_wait_parts in H.
      apply bind_done_inv in H as (info & s1 & Hw & Hd).
      pose proof (wake_counters pid s') as [Wu _]. rewrite Hw in Wu.
      cbn [final] in Wu. rewrite <- Wu. exact (decide_relay _ _ _ _ _ Hd). }
    destruct D as (-> & D2 & D3).
    split; [reflexivity|]. split; [exact D2|]. split; [exact D3|].
    split; [|split]; intros Hin.
    + specialize (Bc0 _ Hin). lia.
    + specialize (Bc1 _ Hin). lia.
    + specialize (Bc2 _ Hin). lia.
  - intros c addr r pid name st H.
    destruct (until_wait_pending _ _ _ _ H) as (-> & D2 & D3).
    split; [reflexivity|]. split; [exact D2|]. split; [exact D3|].
    split; [|split]; intros Hin.
    + specialize (Bp0 _ Hin). lia.
    + specialize (Bp1 _ Hin). lia.
    + specialize (Bp2 _ Hin). lia.
Qed.

Lemma carol_woken_reachable m : reachable (Scenario.carol_woken m).
Proof.
  destruct (two_clients_reachable m) as [m0 H]. exists m0.
  unfold Scenario.carol_woken, Scenario.carol_accepted.
  eapply steps_next; [eapply steps_next; [eapply steps_next; [exact H|]|]|].
  - apply step_handshake.
  - apply step_operator.
  - apply step_wake.
Qed.

(** alice and bob have ids 1 and 2.  carol is accepted and her thread takes
    its pending entry; the operator stops the server, which takes alice and
    bob out of the registry; then carol's thread registers her.  She is
    given the id 3, the value of the counter, and the ids 1 and 2 are not
    in the registry again. *)
Lemma ids_never_reused_witness :
  client_ids (Scenario.carol_woken MESSAGING) = [1; 2]%Z
  /\ client_ids (Scenario.carol_woken_then_stopped MESSAGING) = []
  /\ client_ids (Scenario.carol_entered_after_stop MESSAGING) = [3%Z]
  /\ ~ In 1%Z (client_ids (Scenario.carol_entered_after_stop MESSAGING))
  /\ ~ In 2%Z (client_ids (Scenario.carol_entered_after_stop MESSAGING))
  /\ (next_user_id (Scenario.carol_woken_then_stopped MESSAGING) <= 3
      < next_user_id (Scenario.carol_entered_after_stop MESSAGING))%Z
  /\ NoDup (client_ids (Scenario.carol_entered_after_stop MESSAGING)).
Proof.
  assert (C0 : client_ids (Scenario.carol_woken MESSAGING) = [1; 2]%Z)
    by (vm_compute; reflexivity).
  assert (C1 : client_ids (Scenario.carol_woken_then_stopped MESSAGING) = [])
    by (vm_compute; reflexivity).
  assert (C2 : client_ids (Scenario.carol_entered_after_stop MESSAGING) = [3%Z])
    by (vm_compute; reflexivity).
  assert (S1 : steps (Scenario.carol_woken MESSAGING)
                 (Scenario.carol_woken_then_stopped MESSAGING)).
  { unfold Scenario.carol_woken_then_stopped.
    eapply steps_next; [apply steps_refl|apply step_operator]. }
  assert (S2 : steps (Scenario.carol_woken_then_stopped MESSAGING)
                 (Scenario.carol_entered_after_stop MESSAGING)).
  { unfold Scenario.carol_entered_after_stop.
    eapply steps_next; [apply steps_refl|apply step_decide]. }
  destruct (@ids_never_reused (Scenario.carol_woken MESSAGING)
              (Scenario.carol_woken_then_stopped MESSAGING)
              (Scenario.carol_entered_after_stop MESSAGING)
              (carol_woken_reachable MESSAGING) S1 S2)
    as (_ & _ & H3 & _ & H5 & _ & H7 & _).
  split; [exact C0|]. split; [exact C1|]. split; [exact C2|].
  split; [apply (H3 1%Z); [rewrite C0; now left|rewrite C1; intros []]|].
  split; [apply (H3 2%Z); [rewrite C0; right; now left|rewrite C1; intros []]|].
  split; [apply (H5 3%Z); [rewrite C2; now left|rewrite C1; intros []]|].
  exact H7.
Defined.
